(** * The research pipeline of [research_stages.py]

    A shallow embedding of the staged research processor
    ([ResearchProcessor]): the model client with its retry loop, the stage
    retry wrapper, the progress updates of a stage, the line-oriented text
    extractors and the link passes over the generated report.

    Python [str] values are sequences of Unicode code points and are
    modelled as [list N].  Dictionaries whose key set varies at run time
    are [gmap string _].  Effects (sleeping, progress updates, HTTP calls)
    are recorded as an explicit trace of events. *)

From Stdlib Require Import ZArith NArith Ascii String List Lia.
From stdpp Require Import gmap strings list.
Import ListNotations.

Open Scope N_scope.

(** ** Text: the [str] operations the source uses *)

Abbreviation str := (list N).

(** Code points of a UTF-8 encoded literal, so that the Cyrillic literals
    of the source can be written as they are. *)
Fixpoint utf8_decode (bs : list N) : str :=
  match bs with
  | [] => []
  | b0 :: r0 =>
    if b0 <? 128 then b0 :: utf8_decode r0
    else if b0 <? 224 then
      match r0 with
      | b1 :: r1 => ((b0 - 192) * 64 + (b1 - 128)) :: utf8_decode r1
      | [] => [b0]
      end
    else if b0 <? 240 then
      match r0 with
      | b1 :: b2 :: r2 =>
        ((b0 - 224) * 4096 + (b1 - 128) * 64 + (b2 - 128)) :: utf8_decode r2
      | _ => b0 :: r0
      end
    else
      match r0 with
      | b1 :: b2 :: b3 :: r3 =>
        ((b0 - 240) * 262144 + (b1 - 128) * 4096 + (b2 - 128) * 64 + (b3 - 128))
          :: utf8_decode r3
      | _ => b0 :: r0
      end
  end.

Definition U (s : string) : str :=
  utf8_decode (map N_of_ascii (list_ascii_of_string s)).

Definition NL : N := 10.

(** [str.isspace] of one code point ([Py_UNICODE_ISSPACE]); it is also the
    class [\s] of the [re] module on [str] patterns. *)
Definition py_isspace (c : N) : bool :=
  ((9 <=? c) && (c <=? 13)) || ((28 <=? c) && (c <=? 32))
  || (c =? 133) || (c =? 160) || (c =? 5760)
  || ((8192 <=? c) && (c <=? 8202))
  || (c =? 8232) || (c =? 8233) || (c =? 8239) || (c =? 8287) || (c =? 12288).

Fixpoint drop_while {A} (p : A -> bool) (l : list A) : list A :=
  match l with
  | [] => []
  | x :: r => if p x then drop_while p r else l
  end.

Fixpoint take_while {A} (p : A -> bool) (l : list A) : list A :=
  match l with
  | [] => []
  | x :: r => if p x then x :: take_while p r else []
  end.

(** [s.lstrip(chars)], [s.rstrip(chars)], [s.strip(chars)] with the set of
    stripped characters given as a predicate. *)
Definition lstrip_by (p : N -> bool) (s : str) : str := drop_while p s.
Definition rstrip_by (p : N -> bool) (s : str) : str := rev (drop_while p (rev s)).
Definition strip_by (p : N -> bool) (s : str) : str := rstrip_by p (lstrip_by p s).

(** [s.strip()] *)
Definition strip (s : str) : str := strip_by py_isspace s.

Definition mem_chars (chars : str) (c : N) : bool := existsb (N.eqb c) chars.

(** [s.startswith(p)] *)
Fixpoint startswith (p s : str) : bool :=
  match p, s with
  | [], _ => true
  | _ :: _, [] => false
  | a :: p', b :: s' => (a =? b) && startswith p' s'
  end.

(** [needle in hay] *)
Fixpoint contains (needle hay : str) : bool :=
  startswith needle hay
  || match hay with
     | [] => false
     | _ :: r => contains needle r
     end.

(** [s.split(sep)] for a one-character separator. *)
Fixpoint split_on (sep : N) (s : str) : list str :=
  match s with
  | [] => [[]]
  | c :: r =>
    if c =? sep then [] :: split_on sep r
    else match split_on sep r with
         | l :: ls => (c :: l) :: ls
         | [] => [[c]]
         end
  end.

(** [s.split(sep, 1)] for a one-character separator. *)
Fixpoint split_once (sep : N) (s : str) : list str :=
  match s with
  | [] => [[]]
  | c :: r =>
    if c =? sep then [[]; r]
    else match split_once sep r with
         | l :: ls => (c :: l) :: ls
         | [] => [[c]]
         end
  end.

(** [s.replace(old, new)] for a non-empty [old]: the occurrences are taken
    from the left and do not overlap.  [skip] counts the characters of the
    occurrence being replaced that are still to be passed over. *)
Fixpoint replace_from (old new : str) (skip : nat) (s : str) : str :=
  match s with
  | [] => []
  | c :: r =>
    match skip with
    | S k => replace_from old new k r
    | O =>
      if startswith old s
      then new ++ replace_from old new (Nat.pred (length old)) r
      else c :: replace_from old new O r
    end
  end.

Definition replace (old new s : str) : str := replace_from old new O s.

(** [str(n)] for a non-negative integer. *)
Definition digit_char (d : N) : N := 48 + d.

Fixpoint str_of_pos_fuel (fuel : nat) (n : N) (acc : str) : str :=
  match fuel with
  | O => acc
  | S f =>
    let acc' := digit_char (n mod 10) :: acc in
    if n / 10 =? 0 then acc' else str_of_pos_fuel f (n / 10) acc'
  end.

Definition str_of_N (n : N) : str := str_of_pos_fuel (S (N.to_nat (N.log2 n))) n [].

(** [str.lower] restricted to the Basic Latin and Cyrillic blocks, the
    alphabets of the keyword tables; other code points are left alone.  The
    extractors below take the lowering function as an argument, so their
    theorems hold for the full [str.lower] as well. *)
Definition lower_char (c : N) : N :=
  if (65 <=? c) && (c <=? 90) then c + 32
  else if (1040 <=? c) && (c <=? 1071) then c + 32
  else if (1024 <=? c) && (c <=? 1039) then c + 80
  else c.

Definition lower_basic (s : str) : str := map lower_char s.

(** ** Company extraction: [extract_companies_from_text] *)

(** A value stored in a company dictionary: the text of a labelled field,
    or the list held under ["links"]. *)
Inductive value :=
| VStr (s : str)
| VList (l : list str).

Abbreviation company := (gmap string value).

(** Truth value of a dictionary: it is non-empty. *)
Definition dict_truthy (d : company) : bool := negb (bool_decide (d = ∅)).

Definition name_keywords : list str :=
  [U "компания:"; U "company:"; U "название:"; U "name:"; U "продукт:"; U "product:"].
Definition website_keywords : list str := [U "сайт:"; U "website:"; U "url:"].
Definition country_keywords : list str := [U "страна:"; U "country:"].
Definition characteristics_keywords : list str :=
  [U "характеристики:"; U "characteristics:"].

Definition COLON : N := 58.

(** [line.split(':', 1)[1].strip() if ':' in line else line] *)
Definition value_after_colon (line : str) : str :=
  if contains [COLON] line
  then strip (nth 1 (split_once COLON line) [])
  else line.

Section Companies.

(** [str.lower] *)
Variable lower : str -> str.

(** [any(keyword in line.lower() for keyword in keywords)] *)
Definition any_keyword (keywords : list str) (line : str) : bool :=
  existsb (fun keyword => contains keyword (lower line)) keywords.

(** [current_company["links"].append(line)], after the key has been
    created when it was absent.  A text stored under ["links"] cannot be
    appended to; no run of the extractor stores one there (see
    [links_is_list] below), and the dictionary is then left as it is. *)
Definition append_link (line : str) (current : company) : company :=
  match current !! "links" with
  | None => <["links" := VList [line]]> current
  | Some (VList l) => <["links" := VList (l ++ [line])]> current
  | Some (VStr _) => current
  end.

(** One iteration of the loop over the lines; the state is the pair of
    [companies] and [current_company]. *)
Definition company_step (st : list company * company) (raw : str)
  : list company * company :=
  let '(companies, current) := st in
  let line := strip raw in
  match line with
  | [] =>
    if dict_truthy current then (companies ++ [current], ∅)
    else (companies, current)
  | _ :: _ =>
    if any_keyword name_keywords line then
      ((if dict_truthy current then companies ++ [current] else companies),
       {["name" := VStr (value_after_colon line)]})
    else if any_keyword website_keywords line then
      (companies,
       if dict_truthy current
       then <["website" := VStr (value_after_colon line)]> current
       else current)
    else if any_keyword country_keywords line then
      (companies,
       if dict_truthy current
       then <["country" := VStr (value_after_colon line)]> current
       else current)
    else if any_keyword characteristics_keywords line then
      (companies,
       if dict_truthy current
       then <["characteristics" := VStr (value_after_colon line)]> current
       else current)
    else if startswith (U "http") line then
      (companies,
       if dict_truthy current then append_link line current else current)
    else (companies, current)
  end.

Definition company_loop (st : list company * company) (lines : list str)
  : list company * company :=
  fold_left company_step lines st.

(** The statement after the loop: a record still open is appended. *)
Definition company_finish (st : list company * company) : list company :=
  let '(companies, current) := st in
  if dict_truthy current then companies ++ [current] else companies.

Definition extract_companies_from_text (text : str) : list company :=
  company_finish (company_loop ([], ∅) (split_on NL text)).

End Companies.

(** ** Effects *)

(** An exception value; [str(e)] is its message. *)
Inductive exn := Exception (message : str).

Definition str_exn (e : exn) : str := let 'Exception m := e in m.

(** What an awaited call leaves behind: a value, an exception, or nothing
    yet because the environment has not answered further ([Pending]). *)
Inductive result (A : Type) :=
| Returned (a : A)
| Raised (e : exn)
| Pending.
Arguments Returned {A} a.
Arguments Raised {A} e.
Arguments Pending {A}.

(** The observable events of a run, in order. *)
Inductive event :=
| Post (prompt : str)                      (* client.post to the model *)
| Sleep (seconds : N)                      (* asyncio.sleep *)
| Update (stage status : string) (progress : Z) (message : str) (* send_update *)
| Invoke (attempt : nat).                  (* func(..args) is entered *)

Abbreviation trace := (list event).

Definition progress_values (t : trace) : list Z :=
  omap (fun ev => match ev with Update _ _ p _ => Some p | _ => None end) t.

Definition updates (t : trace) : list (string * Z) :=
  omap (fun ev => match ev with Update _ st p _ => Some (st, p) | _ => None end) t.

Definition sleeps (t : trace) : list N :=
  omap (fun ev => match ev with Sleep n => Some n | _ => None end) t.

Definition posts (t : trace) : list str :=
  omap (fun ev => match ev with Post p => Some p | _ => None end) t.

Definition invocations (t : trace) : list nat :=
  omap (fun ev => match ev with Invoke k => Some k | _ => None end) t.

(** ** JSON values *)

(** The values [json.loads] and [response.json()] produce.  An object
    keeps its members in order of appearance; a repeated key is looked up
    at its last occurrence, as in the dictionary [json.loads] builds. *)
#[warnings="-register-all"]
Inductive json :=
| JNull
| JBool (b : bool)
| JInt (z : Z)
| JStr (s : str)
| JArr (items : list json)
| JObj (members : list (str * json)).

(** [type(v).__name__] *)
Definition type_name (v : json) : str :=
  match v with
  | JNull => U "NoneType"
  | JBool _ => U "bool"
  | JInt _ => U "int"
  | JStr _ => U "str"
  | JArr _ => U "list"
  | JObj _ => U "dict"
  end.

(** [len(v)] raises [TypeError] on [None], a truth value and a number. *)
Definition has_len (v : json) : bool :=
  match v with
  | JStr _ | JArr _ | JObj _ => true
  | JNull | JBool _ | JInt _ => false
  end.

Definition TypeError_len (v : json) : exn :=
  Exception (U "object of type '" ++ type_name v ++ U "' has no len()").

(** [v.split] on a value that is not a text. *)
Definition AttributeError_split (v : json) : exn :=
  Exception (U "'" ++ type_name v ++ U "' object has no attribute 'split'").

(** ** The model client: [_call_deepseek] *)

(** The answer of the endpoint to one [client.post]: the call raises, or a
    response comes back.  [rest] is what [raise_for_status], [json] and
    [_extract_generated_text] make of a response: the value the last of
    them returns, or the exception one of them raises.  The value is the
    generated text as a rule, but [_extract_generated_text] hands on
    whatever truthy value it finds under ["generated_text"] or ["text"]:
    [A] is the type of the values a caller is run against, [json] to cover
    every value the code can return (a text, or a value that is not a text
    and not falsy), [str] where only texts are followed. *)
Record response (A : Type) := { status_code : Z; rest : exn + A }.
Arguments status_code {A} r.
Arguments rest {A} r.
Arguments Build_response {A} status_code rest.

Inductive post_outcome (A : Type) :=
| PostRaised (e : exn)
| PostResponse (r : response A).
Arguments PostRaised {A} e.
Arguments PostResponse {A} r.

Definition max_retries_call : nat := 5.

(** The [while attempt < max_retries] loop, run against the answers the
    endpoint gives to the successive posts.  When the answers run out the
    loop is still waiting: [Pending]. *)
Fixpoint call_loop {A : Type} (prompt : str) (attempt : nat)
    (script : list (post_outcome A)) : trace * result (option A) :=
  if (attempt <? max_retries_call)%nat then
    match script with
    | [] => ([], Pending)
    | outcome :: script' =>
      let failed (e : exn) :=
        let attempt' := S attempt in
        if (max_retries_call <=? attempt')%nat then ([Post prompt], Raised e)
        else
          let '(t, r) := call_loop prompt attempt' script' in
          (Post prompt :: Sleep (2 ^ N.of_nat attempt') :: t, r) in
      match outcome with
      | PostRaised e => failed e
      | PostResponse r =>
        if (status_code r =? 503)%Z then
          let '(t, res) := call_loop prompt attempt script' in
          (Post prompt :: Sleep 5 :: t, res)
        else
          match rest r with
          | inl e => failed e
          | inr value => ([Post prompt], Returned (Some value))
          end
      end
    end
  else ([], Returned None).

Definition _call_deepseek {A : Type} (prompt : str) (script : list (post_outcome A))
  : trace * result (option A) :=
  call_loop prompt 0 script.

(** ** The stage retry wrapper: [_execute_with_retry] *)

(** What the wrapper hands back: the value of the stage function, the
    failure dictionary [{"success": False, "error", "error_details"}], or
    [None] when the loop body never ran. *)
Inductive stage_result (A : Type) :=
| StageValue (a : A)
| StageFailure (error error_details : str)
| StageNone.
Arguments StageValue {A} a.
Arguments StageFailure {A} error error_details.
Arguments StageNone {A}.

Section StageRunner.

Context {A : Type}.

(** [func(..args)]: the events and the outcome of its invocation at each
    attempt. *)
Variable func : nat -> trace * result A.
Variable stage_name : string.
Variable max_retries : nat.

(** The part of the wrapper between [result = await func(..args)] and the
    failure dictionary is not in the source text: the events it emits
    after a successful call and in the exception handler, and the text it
    stores under ["error_details"], are left open. *)
Variable after_success : nat -> trace.
Variable handler_events : nat -> exn -> trace.
Variable error_details_of : exn -> str.

(** [f"Повторная попытка {attempt + 1}/{max_retries}..."] *)
Definition retry_message (attempt : nat) : str :=
  U "Повторная попытка " ++ str_of_N (N.of_nat (attempt + 1)) ++ U "/"
    ++ str_of_N (N.of_nat max_retries) ++ U "...".

(** The statements of the [try] body before the call. *)
Definition before_attempt (attempt : nat) : trace :=
  if (0 <? attempt)%nat
  then [Update stage_name "active" 0 (retry_message attempt);
        Sleep (2 ^ N.of_nat attempt)]
  else [].

(** Modelled from the spec: the control flow around the call is missing
    from the source text.  Following section 4.2, a value returned by the
    stage function is returned at once, an exception moves on to the next
    attempt, and once the attempts are used up the failure dictionary is
    built from the last exception ([last_exception]) instead of raising. *)
Definition exhausted (last_exception : option exn) : stage_result A :=
  match last_exception with
  | Some e => StageFailure (str_exn e) (error_details_of e)
  | None => StageNone
  end.

Fixpoint retry_loop (remaining attempt : nat) (last_exception : option exn)
  : trace * result (stage_result A) :=
  match remaining with
  | O => ([], Returned (exhausted last_exception))
  | S remaining' =>
    let '(t, r) := func attempt in
    match r with
    | Returned a =>
      (before_attempt attempt ++ Invoke attempt :: t ++ after_success attempt,
       Returned (StageValue a))
    | Raised e =>
      let '(t', r') := retry_loop remaining' (S attempt) (Some e) in
      (before_attempt attempt ++ Invoke attempt :: t
         ++ handler_events attempt e ++ t', r')
    | Pending => (before_attempt attempt ++ Invoke attempt :: t, Pending)
    end
  end.

Definition _execute_with_retry : trace * result (stage_result A) :=
  retry_loop max_retries 0 None.

End StageRunner.

(** ** Stage 1: [collect_market_data] *)

Record market_data := {
  raw_content : str;
  companies : list company;
  research_type : str;
  timestamp : str;
  total_found : nat
}.

Section MarketData.

Variable lower : str -> str.

(** [research_data], and the prompt built from it: the prompt text is cut
    short in the source and is taken as given. *)
Variable research_data : Type.
Variable get_data_collection_prompt : research_data -> str -> str.

(** [datetime.now().isoformat()] *)
Variable now : str.

(** [parse_market_data].  On a text the extractor raises nothing; on any
    other value [text.split] raises and the [except] branch answers with
    the record of the error. *)
Definition parse_market_data (content : json) (rtype : str) : market_data :=
  match content with
  | JStr text =>
    let companies := extract_companies_from_text lower text in
    {| raw_content := text;
       companies := companies;
       research_type := rtype;
       timestamp := now;
       total_found := length companies |}
  | _ =>
    {| raw_content := U "Error parsing data: " ++ str_exn (AttributeError_split content);
       companies := [];
       research_type := rtype;
       timestamp := now;
       total_found := 0 |}
  end.

(** [script] is what the endpoint answers to the posts of the call; the
    value the call returns is any JSON value, [None] included. *)
Definition _collect_market_data_internal
    (data : research_data) (rtype : str) (script : list (post_outcome json))
  : trace * result market_data :=
  let prompt := get_data_collection_prompt data rtype in
  let opening :=
    [Update "data_collection" "active" 10 (U "Подготавливаем запрос...");
     Update "data_collection" "active" 30 (U "Отправляем запрос к ИИ...");
     Update "data_collection" "active" 40 (U "Выполняем HTTP запрос...")] in
  let failed (e : exn) :=
    [Update "data_collection" "error" 0 (U "API Error: " ++ str_exn e)] in
  let '(t, r) := _call_deepseek prompt script in
  match r with
  | Returned returned =>
    let content := default JNull returned in
    if has_len content then
      let market := parse_market_data content rtype in
      (opening ++ t ++
       [Update "data_collection" "active" 70 (U "Обрабатываем ответ...");
        Update "data_collection" "active" 90 (U "Структурируем данные...");
        Update "data_collection" "completed" 100
          (U "Найдено " ++ str_of_N (N.of_nat (length (companies market)))
             ++ U " компаний")],
       Returned market)
    else
      (opening ++ t ++
       Update "data_collection" "active" 70 (U "Обрабатываем ответ...")
         :: failed (TypeError_len content),
       Raised (TypeError_len content))
  | Raised e => (opening ++ t ++ failed e, Raised e)
  | Pending => (opening ++ t, Pending)
  end.

(** [collect_market_data]: the stage function behind the retry wrapper
    with its default of three attempts; [scripts k] is what the endpoint
    answers during attempt [k]. *)
Definition collect_market_data
    (after_success : nat -> trace) (handler_events : nat -> exn -> trace)
    (error_details_of : exn -> str)
    (data : research_data) (rtype : str)
    (scripts : nat -> list (post_outcome json))
  : trace * result (stage_result market_data) :=
  _execute_with_retry
    (fun attempt => _collect_market_data_internal data rtype (scripts attempt))
    "data_collection" 3 after_success handler_events error_details_of.

End MarketData.

(** ** Report generation helpers *)

(** [extract_report_content]: [response_text or "Ошибка при генерации отчета"];
    [None] is the absent response. *)
Definition report_error_text : str := U "Ошибка при генерации отчета".

Definition str_truthy (s : str) : bool :=
  match s with [] => false | _ :: _ => true end.

Definition extract_report_content (response_text : option str) : str :=
  match response_text with
  | Some (c :: s) => c :: s
  | Some [] | None => report_error_text
  end.

(** ** Link enhancement: [enhance_report_with_links] *)

(** A verified link and a case, with [None] for a key that is absent. *)
Record link := { link_status : option str; link_url : option str }.

Record case := {
  verified_links : option (list link);
  broken_links : option (list link);
  case_title : option str;
  case_company : option str;
  case_description : option str
}.

(** An entry of [all_verified_links]. *)
Record candidate := {
  cand_url : option str;
  cand_company : str;
  cand_context : str
}.

Definition str_eqb (a b : str) : bool := bool_decide (a = b).

(** [link.get("status") == "working"] *)
Definition is_working_link (l : link) : bool :=
  match link_status l with
  | Some s => str_eqb s (U "working")
  | None => false
  end.

(** [case.get("title", case.get("company", "Unknown"))] *)
Definition case_label (c : case) : str :=
  match case_title c with
  | Some t => t
  | None => match case_company c with Some n => n | None => U "Unknown" end
  end.

Definition candidate_of (c : case) (l : link) : candidate :=
  {| cand_url := link_url l;
     cand_company := case_label c;
     cand_context := default [] (case_description c) |}.

(** The two nested loops that fill [all_verified_links]. *)
Definition case_candidates (c : case) : list candidate :=
  match verified_links c with
  | Some links => map (candidate_of c) (List.filter is_working_link links)
  | None => []
  end.

Definition all_verified_links (cases : list case) : list candidate :=
  concat (map case_candidates cases).

Definition max_content_length : nat := N.to_nat 15000.

Definition truncation_marker : str :=
  [NL; NL] ++ U "[... остальная часть отчета ...]".

(** [report_content[:max_content_length]], with the marker added when the
    report is longer. *)
Definition report_preview (report_content : str) : str :=
  let preview := take max_content_length report_content in
  if (max_content_length <? length report_content)%nat
  then preview ++ truncation_marker
  else preview.

Section Enhance.

(** [json.dumps(_, ensure_ascii=False, indent=2)] *)
Variable json_dumps : list candidate -> str.

Definition enhance_prompt (preview : str) (sent : list candidate) : str :=
  [NL] ++ U "Ты — эксперт по добавлению ссылок в отчеты. Улучши отчет, добавив релевантные ссылки из проверенных источников."
  ++ [NL; NL] ++ U "ОТЧЕТ ДЛЯ УЛУЧШЕНИЯ:" ++ [NL]
  ++ preview
  ++ [NL; NL] ++ U "ПРОВЕРЕННЫЕ ССЫЛКИ:" ++ [NL]
  ++ json_dumps sent
  ++ [NL; NL] ++ U "ЗАДАЧА:" ++ [NL]
  ++ U "1. Найди в отчете упоминания компаний, продуктов или фактов" ++ [NL]
  ++ U "2. Добавь к ним релевантные ссылки из списка проверенных источников" ++ [NL]
  ++ U "3. Используй формат: [текст](ссылка)" ++ [NL]
  ++ U "4. НЕ изменяй структуру отчета, только добавляй ссылки" ++ [NL]
  ++ U "5. Максимум 3-5 ссылок на абзац" ++ [NL]
  ++ U "6. Приоритет: официальные сайты > кейсы > новости" ++ [NL]
  ++ U "7. ВАЖНО: Верни ПОЛНЫЙ отчет с добавленными ссылками, не обрезай его"
  ++ [NL; NL] ++ U "ВЕРНИ ПОЛНЫЙ УЛУЧШЕННЫЙ ОТЧЕТ С ДОБАВЛЕННЫМИ ССЫЛКАМИ." ++ [NL].

(** The candidates that go into the prompt: [all_verified_links[:20]]. *)
Definition links_sent (cases : list case) : list candidate :=
  take 20 (all_verified_links cases).

(** [script] is what the endpoint answers to the posts of this call.  The
    function catches every exception itself; it hands back a report, or
    is still waiting for the endpoint. *)
Definition enhance_report_with_links
    (report_content : str) (cases : list case) (script : list (post_outcome str))
  : trace * result str :=
  match all_verified_links cases with
  | [] => ([], Returned report_content)
  | _ :: _ =>
    let prompt := enhance_prompt (report_preview report_content) (links_sent cases) in
    let '(t, r) := _call_deepseek prompt script in
    match r with
    | Returned (Some (c :: s)) => (t, Returned (c :: s))
    | Returned (Some []) | Returned None => (t, Returned report_content)
    | Raised _ => (t, Returned report_content)
    | Pending => (t, Pending)
    end
  end.

End Enhance.

(** ** Insight extraction: [parse_local_insights] *)

(** Truth value of a Python object, for [x or default]. *)
Definition json_truthy (v : json) : bool :=
  match v with
  | JNull => false
  | JBool b => b
  | JInt z => negb (z =? 0)%Z
  | JStr s => str_truthy s
  | JArr items => match items with [] => false | _ :: _ => true end
  | JObj members => match members with [] => false | _ :: _ => true end
  end.

(** [d.get(key)] on the members of an object: the last binding of [key],
    [None] (here [JNull]) when there is none. *)
Fixpoint members_get (key : str) (members : list (str * json)) : option json :=
  match members with
  | [] => None
  | (k, v) :: rest =>
    match members_get key rest with
    | Some v' => Some v'
    | None => if str_eqb k key then Some v else None
    end
  end.

(** [item.get(key) or default_value] *)
Definition get_or (key : str) (default_value : json) (members : list (str * json))
  : json :=
  match members_get key members with
  | Some v => if json_truthy v then v else default_value
  | None => default_value
  end.

Abbreviation insight := (gmap string json).

(** The dictionary literal built for one object of the array.  The entries
    ["fact"], ["metrics"], ["date"] and ["links"] are those of the source.

    Modelled from the spec: the entries ["source_file"], ["download_link"]
    and ["section"] are missing from the source text; following section 4.5
    ("normalize each object's fields with null-coalescing defaults") they
    are read like the other four, with the defaults of the fallback
    record. *)
Definition normalize_item (members : list (str * json)) : insight :=
  <["source_file" := get_or (U "source_file") (JStr (U "unknown.pdf")) members]>
  (<["download_link" := get_or (U "download_link") JNull members]>
  (<["section" := get_or (U "section") (JStr []) members]>
  (<["fact" := get_or (U "fact") (JStr []) members]>
  (<["metrics" := get_or (U "metrics") JNull members]>
  (<["date" := get_or (U "date") JNull members]>
  (<["links" := get_or (U "links") (JArr []) members]> ∅)))))).

(** The loop over the array; [item.get] raises on anything that is not an
    object ([None] here), which the [except Exception] around it catches. *)
Fixpoint normalize_items (items : list json) : option (list insight) :=
  match items with
  | [] => Some []
  | JObj members :: rest =>
    match normalize_items rest with
    | Some norm => Some (normalize_item members :: norm)
    | None => None
    end
  | _ :: _ => None
  end.

(** [line.strip(" -•*")] *)
Definition bullet_chars : str := U " -•*".

Definition strip_bullets (line : str) : str := strip_by (mem_chars bullet_chars) line.

Definition minimal_insight (fact : str) : insight :=
  <["source_file" := JStr (U "unknown.pdf")]>
  (<["download_link" := JNull]>
  (<["section" := JStr []]>
  (<["fact" := JStr fact]>
  (<["metrics" := JNull]>
  (<["date" := JNull]>
  (<["links" := JArr []]> ∅)))))).

(** The fallback loop over [content_str.split('\n')]. *)
Definition fallback_insights (content_str : str) : list insight :=
  map minimal_insight
      (List.filter str_truthy (map strip_bullets (split_on NL content_str))).

Section Insights.

(** [json.loads]: the parsed value, or [None] when it raises. *)
Variable json_loads : str -> option json.

(** Modelled from the spec: the head of [parse_local_insights] (the call
    of [json.loads] and the test that the value is a list) is missing
    from the source text; section 4.5 has the response parsed "as a JSON
    array of objects first" and every failure fall through to the
    line-by-line fallback. *)
Definition parse_local_insights (content_str : str) : list insight :=
  match json_loads content_str with
  | Some (JArr items) =>
    match normalize_items items with
    | Some norm => norm
    | None => fallback_insights content_str
    end
  | _ => fallback_insights content_str
  end.

End Insights.

(** ** Regular expressions: the fragment of [re] the source uses

    A pattern is a sequence of atoms: a literal character, a greedy
    repetition of a character class, or [^] under [re.MULTILINE].  The
    matcher backtracks the way [re] does: a repetition first takes as many
    characters as it can and gives them back one by one while the rest of
    the pattern fails.  A match is reported as the number of characters
    each atom consumed. *)

Inductive atom :=
| Chr (c : N)
| Star (class : N -> bool)
| Plus (class : N -> bool)
| Bol.

Abbreviation regex := (list atom).

Definition at_line_start (prev : option N) : bool :=
  match prev with
  | None => true
  | Some c => c =? NL
  end.

Fixpoint star_match (class : N -> bool)
    (k : option N -> str -> option (list nat))
    (taken : nat) (prev : option N) (s : str) : option (list nat) :=
  let stop := cons taken <$> k prev s in
  match s with
  | c :: r =>
    if class c then
      match star_match class k (S taken) (Some c) r with
      | Some lens => Some lens
      | None => stop
      end
    else stop
  | [] => stop
  end.

Fixpoint match_here (re : regex) (prev : option N) (s : str) : option (list nat) :=
  match re with
  | [] => Some []
  | Chr c :: re' =>
    match s with
    | x :: r => if x =? c then cons 1%nat <$> match_here re' (Some x) r else None
    | [] => None
    end
  | Star class :: re' => star_match class (match_here re') 0 prev s
  | Plus class :: re' =>
    match s with
    | x :: r =>
      if class x then star_match class (match_here re') 1 (Some x) r else None
    | [] => None
    end
  | Bol :: re' =>
    if at_line_start prev then cons 0%nat <$> match_here re' prev s else None
  end.

Definition match_length (re : regex) (prev : option N) (s : str) : option nat :=
  (fun lens => foldr Nat.add 0%nat lens) <$> match_here re prev s.

(** The text the [i]-th atom consumed in a match that starts at [s]. *)
Definition atom_text (lens : list nat) (i : nat) (s : str) : str :=
  take (nth i lens 0%nat) (drop (foldr Nat.add 0%nat (take i lens)) s).

(** [re.sub(pattern, repl, s)] for a pattern that matches no empty string
    and a replacement already expanded: the matches are looked for from
    the left and do not overlap.  [skip] counts the characters of the
    current match still to be passed over, [prev] is the character before
    the current position. *)
Fixpoint sub_from (re : regex) (repl : str) (prev : option N) (skip : nat) (s : str)
  : str :=
  match s with
  | [] => []
  | c :: r =>
    match skip with
    | S k => sub_from re repl (Some c) k r
    | O =>
      match match_length re prev s with
      | Some (S n) => repl ++ sub_from re repl (Some c) n r
      | _ => c :: sub_from re repl (Some c) O r
      end
    end
  end.

Definition re_sub (re : regex) (repl : str) (s : str) : str :=
  sub_from re repl None O s.

(** [re.sub] with a replacement that depends on the text matched, as a
    template with a reference to the match does. *)
Fixpoint sub_with (re : regex) (repl : str -> str) (prev : option N) (skip : nat)
    (s : str) : str :=
  match s with
  | [] => []
  | c :: r =>
    match skip with
    | S k => sub_with re repl (Some c) k r
    | O =>
      match match_length re prev s with
      | Some (S n) => repl (take (S n) s) ++ sub_with re repl (Some c) n r
      | _ => c :: sub_with re repl (Some c) O r
      end
    end
  end.

Definition re_sub_with (re : regex) (repl : str -> str) (s : str) : str :=
  sub_with re repl None O s.

(** The matches [re.finditer] goes through: for each, the text from its
    start on and the characters consumed by each atom. *)
Fixpoint finditer_from (re : regex) (prev : option N) (skip : nat) (s : str)
  : list (str * list nat) :=
  match s with
  | [] => []
  | c :: r =>
    match skip with
    | S k => finditer_from re (Some c) k r
    | O =>
      match match_here re prev s with
      | Some lens =>
        match foldr Nat.add 0%nat lens with
        | S n => (s, lens) :: finditer_from re (Some c) n r
        | O => finditer_from re (Some c) O r
        end
      | None => finditer_from re (Some c) O r
      end
    end
  end.

Definition finditer (re : regex) (s : str) : list (str * list nat) :=
  finditer_from re None O s.

(** ** Link verification: [verify_report_links] *)

(** The result of [client.head(url, follow_redirects=True)]. *)
Inductive head_outcome :=
| HeadStatus (code : Z)
| HeadRaised (e : exn).

(** A [HEAD] request as it is issued. *)
Record head_request := {
  head_url : str;
  head_timeout : N;
  head_follow_redirects : bool
}.

Definition LBRACKET : N := 91.
Definition RBRACKET : N := 93.
Definition LPAREN : N := 40.
Definition RPAREN : N := 41.
Definition BACKSLASH : N := 92.

Definition not_char (c x : N) : bool := negb (x =? c).

(** [r'\[([^\]]+)\]\(([^)]+)\)'] *)
Definition link_pattern : regex :=
  [Chr LBRACKET; Plus (not_char RBRACKET); Chr RBRACKET;
   Chr LPAREN; Plus (not_char RPAREN); Chr RPAREN].

(** [re.findall(link_pattern, report_content)]: the two groups of every
    match. *)
Definition find_links (report_content : str) : list (str * str) :=
  map (fun '(s, lens) => (atom_text lens 1 s, atom_text lens 4 s))
      (finditer link_pattern report_content).

(** [f"[{text}]({url})"] *)
Definition markdown_span (text url : str) : str :=
  [LBRACKET] ++ text ++ [RBRACKET; LPAREN] ++ url ++ [RPAREN].

(** [r'\n\s*\n\s*\n'] and [r'^\s*\n'] with [re.MULTILINE]. *)
Definition blank_run_pattern : regex :=
  [Chr NL; Star py_isspace; Chr NL; Star py_isspace; Chr NL].
Definition blank_line_pattern : regex := [Bol; Star py_isspace; Chr NL].

(** The three statements under "Clean up extra whitespace and empty
    lines". *)
Definition collapse_whitespace (report_content : str) : str :=
  strip (re_sub blank_line_pattern [] (re_sub blank_run_pattern [NL; NL] report_content)).

(** Modelled from the spec: [clean_report_content] is called by
    [_generate_report_internal] on the enhanced report, but its definition
    is missing from the source text.  Section 8 of the spec names it as the
    whitespace collapse ("clean_report_content/whitespace-collapse"), and it
    is taken to be that clean-up. *)
Definition clean_report_content (report_content : str) : str :=
  collapse_whitespace report_content.

(** [f"\\[{re.escape(text)}\\]\\([^)]+\\)"] *)
Definition verified_pattern (text : str) : regex :=
  [Chr LBRACKET] ++ map Chr text
    ++ [Chr RBRACKET; Chr LPAREN; Plus (not_char RPAREN); Chr RPAREN].

(** A replacement template as [re] compiles it: literal texts and
    references to the whole match, [\g<0>].  The patterns of this file
    have no group of their own, so that no other reference is valid. *)
Inductive template_piece :=
| Literal (s : str)
| WholeMatch.

(** The replacement for one match. *)
Definition expand (template : list template_piece) (matched : str) : str :=
  concat (map (fun piece => match piece with
                            | Literal s => s
                            | WholeMatch => matched
                            end) template).

Section VerifyLinks.

(** [config.BASE_URL] *)
Variable base_url : str.

(** The outcome of the [i]-th check, a [HEAD] request for [url]. *)
Variable head : nat -> str -> head_outcome.

(** What [re] makes of a replacement template with backslashes in it: its
    escapes resolved and its references to the match kept, or [None] when
    it raises [re.error].  A template without a backslash is taken as it
    is. *)
Variable parse_template : str -> option (list template_piece).

Definition expand_template (template : str) : option (list template_piece) :=
  if contains [BACKSLASH] template then parse_template template
  else Some [Literal template].

Definition own_document (url : str) : bool :=
  startswith (base_url ++ U "/data/") url.

(** The body of the checking loop for the [i]-th link: [true] when the
    link goes to [verified_links], [false] when it goes to
    [broken_links]. *)
Definition link_works (i : nat) (url : str) : bool :=
  if own_document url then true
  else
    match head i url with
    | HeadStatus code => (code <? 400)%Z
    | HeadRaised _ => false
    end.

Definition head_requests_of (url : str) : list head_request :=
  if own_document url then []
  else [{| head_url := url; head_timeout := 10; head_follow_redirects := true |}].

(** The checking loop: the requests issued, [verified_links] and
    [broken_links]. *)
Fixpoint check_links (i : nat) (links : list (str * str))
  : list head_request * (list (str * str) * list (str * str)) :=
  match links with
  | [] => ([], ([], []))
  | (text, url) :: links' =>
    let '(reqs, (verified, broken)) := check_links (S i) links' in
    (head_requests_of url ++ reqs,
     if link_works i url then ((text, url) :: verified, broken)
     else (verified, (text, url) :: broken))
  end.

(** [report_content.replace(f"[{text}]({url})", "")] for every broken
    link in turn. *)
Definition remove_broken (broken : list (str * str)) (report_content : str) : str :=
  fold_left (fun acc '(text, url) => replace (markdown_span text url) [] acc)
            broken report_content.

(** The loop over [verified_links].  An [re.error] leaves the loop
    through the outer [except], which returns the report as it then
    is. *)
Fixpoint restore_verified (verified : list (str * str)) (report_content : str)
  : str :=
  match verified with
  | [] => report_content
  | (text, url) :: verified' =>
    if contains ([LBRACKET] ++ text ++ [RBRACKET; LPAREN]) report_content then
      match expand_template (markdown_span text url) with
      | Some template =>
        restore_verified verified'
          (re_sub_with (verified_pattern text) (expand template) report_content)
      | None => report_content
      end
    else restore_verified verified' report_content
  end.

Definition verify_report_links (report_content : str)
  : list head_request * str :=
  match find_links report_content with
  | [] => ([], report_content)
  | links =>
    let '(reqs, (verified, broken)) := check_links 0 links in
    let cleaned :=
      match broken with
      | [] => report_content
      | _ :: _ => collapse_whitespace (remove_broken broken report_content)
      end in
    (reqs, restore_verified verified cleaned)
  end.

End VerifyLinks.

(** ** The verification summary *)

(** The counters over the cases: the links under ["verified_links"], those
    of them with status [working], and the links under ["broken_links"].
    The source text of the function starts at [broken_links = 0]; its name
    and the two assignments before it are cut off, and the first two
    counters are taken to start at 0 like the third. *)
Definition total_links (cases : list case) : nat :=
  foldr Nat.add 0%nat
    (map (fun c => match verified_links c with
                   | Some links => length links
                   | None => 0%nat
                   end) cases).

Definition working_links (cases : list case) : nat :=
  foldr Nat.add 0%nat
    (map (fun c => match verified_links c with
                   | Some links => length (List.filter is_working_link links)
                   | None => 0%nat
                   end) cases).

Definition broken_links_count (cases : list case) : nat :=
  foldr Nat.add 0%nat
    (map (fun c => match broken_links c with
                   | Some links => length links
                   | None => 0%nat
                   end) cases).

(** The f-string of the summary, with its four interpolated values. *)
Definition summary_block (total working broken percentage : str) : str :=
  [NL; NL] ++ U "## Сводка проверки ссылок" ++ [NL; NL]
  ++ U "- **Всего ссылок проверено:** " ++ total ++ [NL]
  ++ U "- **Рабочих ссылок:** " ++ working ++ [NL]
  ++ U "- **Нерабочих ссылок:** " ++ broken ++ [NL]
  ++ U "- **Процент рабочих ссылок:** " ++ percentage ++ U "%" ++ [NL; NL]
  ++ U "*Все ссылки были проверены на доступность и актуальность.*" ++ [NL].

Section Summary.

(** [f"{working/total*100:.1f}"] for a positive [total]: floating-point
    division and rounding, taken as given. *)
Variable format_ratio_1f : nat -> nat -> str.

(** [f"{percentage:.1f}"], where [percentage] is the integer [0] when no
    link was counted. *)
Definition percentage_text (working total : nat) : str :=
  if (0 <? total)%nat then format_ratio_1f working total else U "0.0".

Definition verification_summary (cases : list case) : str :=
  summary_block (str_of_N (N.of_nat (total_links cases)))
                (str_of_N (N.of_nat (working_links cases)))
                (str_of_N (N.of_nat (broken_links_count cases)))
                (percentage_text (working_links cases) (total_links cases)).

(** [return report_content + verification_summary] *)
Definition add_verification_summary (report_content : str) (cases : list case) : str :=
  report_content ++ verification_summary cases.

End Summary.

(** * Properties *)

(** ** [extract_report_content] *)

Lemma U_nonempty_report_error : report_error_text <> [].
Proof. vm_compute. discriminate. Qed.

(** C10: [extract_report_content] never returns an empty report: an empty
    or missing response text gives the fixed placeholder
    "Ошибка при генерации отчета", any other text is returned unchanged. *)
Theorem extract_report_content_total :
  extract_report_content None = U "Ошибка при генерации отчета"
  /\ extract_report_content (Some []) = U "Ошибка при генерации отчета"
  /\ (forall c s, extract_report_content (Some (c :: s)) = c :: s)
  /\ (forall response_text, str_truthy (extract_report_content response_text) = true).
Proof.
  repeat split; try reflexivity.
  intros [[|c s]|]; reflexivity.
Qed.

(** ** [extract_companies_from_text]: every record has a name *)

Section CompaniesInvariant.

Variable lower : str -> str.

Definition has_name (c : company) : Prop :=
  exists s, c !! "name" = Some (VStr s).

(** A record under construction is either still empty or already
    named. *)
Definition open_record_ok (current : company) : Prop :=
  current = ∅ \/ has_name current.

Definition state_ok (st : list company * company) : Prop :=
  Forall has_name st.1 /\ open_record_ok st.2.

Lemma dict_truthy_true (d : company) : dict_truthy d = true <-> d <> ∅.
Proof.
  unfold dict_truthy. rewrite negb_true_iff, bool_decide_eq_false. tauto.
Qed.

Lemma dict_truthy_empty : dict_truthy ∅ = false.
Proof. reflexivity. Qed.

Lemma dict_truthy_insert k v (d : company) : dict_truthy (<[k := v]> d) = true.
Proof. apply dict_truthy_true. apply insert_non_empty. Qed.

Lemma truthy_has_name current :
  open_record_ok current -> dict_truthy current = true -> has_name current.
Proof.
  intros [-> | H] Ht; [discriminate | exact H].
Qed.

Lemma has_name_insert k v (c : company) :
  k <> "name" -> has_name c -> has_name (<[k := v]> c).
Proof.
  intros Hk [s Hs]. exists s. rewrite lookup_insert_ne; auto.
Qed.

Lemma has_name_append_link line c : has_name c -> has_name (append_link line c).
Proof.
  intros H. unfold append_link.
  destruct (c !! "links") as [[s | l] |]; auto;
    apply has_name_insert; auto; discriminate.
Qed.

Lemma open_record_set k v current :
  k <> "name" -> open_record_ok current ->
  open_record_ok (if dict_truthy current then <[k := v]> current else current).
Proof.
  intros Hk Hok. destruct (dict_truthy current) eqn:Ht; auto.
  right. apply has_name_insert; auto. eapply truthy_has_name; eauto.
Qed.

Lemma flush_ok companies current :
  Forall has_name companies -> open_record_ok current ->
  Forall has_name (if dict_truthy current then companies ++ [current] else companies).
Proof.
  intros Hc Hok. destruct (dict_truthy current) eqn:Ht; auto.
  apply Forall_app. split; auto. constructor; auto.
  eapply truthy_has_name; eauto.
Qed.

Lemma company_step_ok st raw : state_ok st -> state_ok (company_step lower st raw).
Proof.
  destruct st as [companies current]. intros [Hc Hok]. simpl in Hc, Hok.
  unfold company_step.
  destruct (strip raw) as [|c line] eqn:Hline.
  - pose proof (flush_ok companies current Hc Hok) as Hf.
    destruct (dict_truthy current); split; simpl; auto. now left.
  - destruct (any_keyword lower name_keywords (c :: line)).
    { split; simpl.
      - now apply flush_ok.
      - right. eexists. apply lookup_singleton_eq. }
    destruct (any_keyword lower website_keywords (c :: line)).
    { split; simpl; auto. now apply open_record_set. }
    destruct (any_keyword lower country_keywords (c :: line)).
    { split; simpl; auto. now apply open_record_set. }
    destruct (any_keyword lower characteristics_keywords (c :: line)).
    { split; simpl; auto. now apply open_record_set. }
    destruct (startswith (U "http") (c :: line)); split; simpl; auto.
    destruct (dict_truthy current) eqn:Ht; auto.
    right. apply has_name_append_link. eapply truthy_has_name; eauto.
Qed.

Lemma company_loop_ok lines st :
  state_ok st -> state_ok (company_loop lower st lines).
Proof.
  revert st. induction lines as [|raw lines IH]; intros st Hst; simpl; auto.
  apply IH. now apply company_step_ok.
Qed.

(** C9: every record returned by [extract_companies_from_text] has a
    ["name"] field, whatever the input text: website, country,
    characteristics and link lines only ever extend a record that a
    name line has opened, so no record is made of other fields alone. *)
Theorem extract_companies_all_named (text : str) :
  Forall (fun c : company => exists s, c !! "name" = Some (VStr s))
         (extract_companies_from_text lower text).
Proof.
  unfold extract_companies_from_text.
  pose proof (company_loop_ok (split_on NL text) ([], ∅)) as H.
  destruct (company_loop lower ([], ∅) (split_on NL text)) as [companies current].
  destruct H as [Hc Hok].
  { split; simpl; [constructor | now left]. }
  simpl in *. unfold company_finish. now apply flush_ok.
Qed.

End CompaniesInvariant.

(** ** The model client *)

(** The response is a 503. *)
Definition overloaded {A : Type} (o : post_outcome A) : bool :=
  match o with
  | PostResponse r => (status_code r =? 503)%Z
  | PostRaised _ => false
  end.

(** The exception with which the [try] body fails on this answer, if it
    does: [client.post] raised, or the response is not a 503 and
    [raise_for_status], [json] or the extraction raised. *)
Definition failure_of {A : Type} (o : post_outcome A) : option exn :=
  match o with
  | PostRaised e => Some e
  | PostResponse r =>
    if (status_code r =? 503)%Z then None
    else match rest r with inl e => Some e | inr _ => None end
  end.

(** Extend the trace of a continued run. *)
Definition after (t : trace) {A} (run : trace * result A) : trace * result A :=
  (t ++ run.1, run.2).

Section ModelClient.

Context {A : Type}.
Variable prompt : str.

Lemma call_loop_overloaded attempt (o : post_outcome A) script :
  (attempt < 5)%nat -> overloaded o = true ->
  call_loop prompt attempt (o :: script)
  = after [Post prompt; Sleep 5] (call_loop prompt attempt script).
Proof.
  intros Ha Ho. cbn [call_loop].
  assert ((attempt <? max_retries_call)%nat = true) as ->
      by (apply Nat.ltb_lt; exact Ha).
  destruct o as [e | r]; [discriminate |]. simpl in Ho. rewrite Ho.
  destruct (call_loop prompt attempt script) as [t res]. reflexivity.
Qed.

Lemma call_loop_failure attempt (o : post_outcome A) e script :
  (S attempt < 5)%nat -> failure_of o = Some e ->
  call_loop prompt attempt (o :: script)
  = after [Post prompt; Sleep (2 ^ N.of_nat (S attempt))]
          (call_loop prompt (S attempt) script).
Proof.
  intros Ha Ho. cbn [call_loop].
  assert ((attempt <? max_retries_call)%nat = true) as ->
      by (apply Nat.ltb_lt; unfold max_retries_call; lia).
  assert ((max_retries_call <=? S attempt)%nat = false) as Hle
      by (apply Nat.leb_gt; exact Ha).
  destruct o as [e' | r]; simpl in Ho.
  - inversion Ho; subst. rewrite Hle.
    destruct (call_loop prompt (S attempt) script) as [t res]. reflexivity.
  - destruct (status_code r =? 503)%Z; [discriminate |].
    destruct (rest r) as [e' | text]; [| discriminate].
    inversion Ho; subst. rewrite Hle.
    destruct (call_loop prompt (S attempt) script) as [t res]. reflexivity.
Qed.

Lemma call_loop_last_failure (o : post_outcome A) e script :
  failure_of o = Some e ->
  call_loop prompt 4 (o :: script) = ([Post prompt], Raised e).
Proof.
  intros Ho. cbn [call_loop]. simpl.
  destruct o as [e' | r]; simpl in Ho.
  - inversion Ho; subst. reflexivity.
  - destruct (status_code r =? 503)%Z; [discriminate |].
    destruct (rest r) as [e' | text]; [| discriminate].
    inversion Ho; subst. reflexivity.
Qed.

Lemma call_loop_overloaded_run attempt (os : list (post_outcome A)) script :
  (attempt < 5)%nat -> Forall (fun o => overloaded o = true) os ->
  call_loop prompt attempt (os ++ script)
  = after (concat (map (fun _ => [Post prompt; Sleep 5]) os))
          (call_loop prompt attempt script).
Proof.
  intros Ha Hos. induction Hos as [| o os Ho _ IH]; simpl app.
  - unfold after. simpl. now destruct (call_loop prompt attempt script).
  - rewrite call_loop_overloaded by assumption. rewrite IH.
    unfold after. simpl. reflexivity.
Qed.

Lemma sleeps_app t1 t2 : sleeps (t1 ++ t2) = sleeps t1 ++ sleeps t2.
Proof. unfold sleeps. apply omap_app. Qed.

Lemma posts_app t1 t2 : posts (t1 ++ t2) = posts t1 ++ posts t2.
Proof. unfold posts. apply omap_app. Qed.

Lemma sleeps_overloaded_run (os : list (post_outcome A)) :
  sleeps (concat (map (fun _ => [Post prompt; Sleep 5]) os))
  = repeat 5 (length os).
Proof. induction os as [| o os IH]; simpl; [reflexivity | now rewrite IH]. Qed.

Lemma posts_overloaded_run (os : list (post_outcome A)) :
  posts (concat (map (fun _ => [Post prompt; Sleep 5]) os))
  = repeat prompt (length os).
Proof. induction os as [| o os IH]; simpl; [reflexivity | now rewrite IH]. Qed.

(** A run of 503 responses followed by a failing answer, below the last
    attempt. *)
Lemma call_loop_round attempt (os : list (post_outcome A)) o e script :
  (S attempt < 5)%nat -> Forall (fun o => overloaded o = true) os ->
  failure_of o = Some e ->
  call_loop prompt attempt (os ++ o :: script)
  = after (concat (map (fun _ => [Post prompt; Sleep 5]) os)
             ++ [Post prompt; Sleep (2 ^ N.of_nat (S attempt))])
          (call_loop prompt (S attempt) script).
Proof.
  intros Ha Hos Ho.
  rewrite call_loop_overloaded_run by (auto; lia).
  rewrite (call_loop_failure attempt o e) by assumption.
  unfold after. simpl. now rewrite <- app_assoc.
Qed.

Lemma call_loop_last_round (os : list (post_outcome A)) o e script :
  Forall (fun o => overloaded o = true) os ->
  failure_of o = Some e ->
  call_loop prompt 4 (os ++ o :: script)
  = (concat (map (fun _ => [Post prompt; Sleep 5]) os) ++ [Post prompt], Raised e).
Proof.
  intros Hos Ho.
  rewrite call_loop_overloaded_run by (auto; lia).
  now rewrite (call_loop_last_failure o e).
Qed.

End ModelClient.

(** C1: in [_call_deepseek] a 503 response costs a fixed sleep of 5
    seconds and the request is sent again with the attempt counter
    unchanged; any other failure uses up one attempt and, below the fifth,
    is followed by a sleep of [2^attempt] seconds (2, 4, 8, 16); the fifth
    failure re-raises its exception to the caller, however many 503
    responses came in between. *)
Theorem call_deepseek_retry_policy {A : Type} (prompt : str) :
  (forall attempt (o : post_outcome A) script,
      (attempt < 5)%nat -> overloaded o = true ->
      call_loop prompt attempt (o :: script)
      = after [Post prompt; Sleep 5] (call_loop prompt attempt script))
  /\ (forall attempt (o : post_outcome A) e script,
         (S attempt < 5)%nat -> failure_of o = Some e ->
         call_loop prompt attempt (o :: script)
         = after [Post prompt; Sleep (2 ^ N.of_nat (S attempt))]
                 (call_loop prompt (S attempt) script))
  /\ (forall (os0 os1 os2 os3 os4 : list (post_outcome A))
            f1 f2 f3 f4 f5 e1 e2 e3 e4 e5 script,
         Forall (fun o => overloaded o = true) (os0 ++ os1 ++ os2 ++ os3 ++ os4) ->
         failure_of f1 = Some e1 -> failure_of f2 = Some e2 ->
         failure_of f3 = Some e3 -> failure_of f4 = Some e4 ->
         failure_of f5 = Some e5 ->
         let run :=
           _call_deepseek prompt
             (os0 ++ f1 :: os1 ++ f2 :: os2 ++ f3 :: os3 ++ f4 :: os4 ++ f5 :: script) in
         run.2 = Raised e5
         /\ sleeps run.1
            = repeat 5 (length os0) ++ 2 :: repeat 5 (length os1)
              ++ 4 :: repeat 5 (length os2) ++ 8 :: repeat 5 (length os3)
              ++ 16 :: repeat 5 (length os4)
         /\ length (posts run.1)
            = (length os0 + length os1 + length os2 + length os3 + length os4 + 5)%nat).
Proof.
  split; [| split].
  - intros. now apply call_loop_overloaded.
  - intros attempt o e script Ha Ho. now apply (call_loop_failure prompt attempt o e).
  - intros os0 os1 os2 os3 os4 f1 f2 f3 f4 f5 e1 e2 e3 e4 e5 script Hos H1 H2 H3 H4 H5.
    repeat (apply Forall_app in Hos; destruct Hos as [? Hos]).
    unfold _call_deepseek. cbv zeta.
    rewrite (call_loop_round prompt 0 os0 f1 e1) by (auto; lia).
    rewrite (call_loop_round prompt 1 os1 f2 e2) by (auto; lia).
    rewrite (call_loop_round prompt 2 os2 f3 e3) by (auto; lia).
    rewrite (call_loop_round prompt 3 os3 f4 e4) by (auto; lia).
    rewrite (call_loop_last_round prompt os4 f5 e5) by auto.
    unfold after. cbn [fst snd].
    split; [reflexivity |]. split.
    + rewrite !sleeps_app, !sleeps_overloaded_run.
      repeat rewrite <- app_assoc.
      change (sleeps [Post prompt]) with (@nil N). rewrite app_nil_r. reflexivity.
    + rewrite !posts_app, !length_app, !posts_overloaded_run, !repeat_length.
      cbn. lia.
Qed.

Definition busy : post_outcome str :=
  PostResponse {| status_code := 503; rest := inr [] |}.
Definition server_error {A : Type} : post_outcome A :=
  PostResponse {| status_code := 500; rest := inl (Exception (U "500 Server Error")) |}.
Definition timed_out {A : Type} : post_outcome A :=
  PostRaised (Exception (U "ReadTimeout")).
Definition refused {A : Type} : post_outcome A :=
  PostRaised (Exception (U "ConnectError")).

Lemma call_deepseek_retry_policy_witness :
  call_loop (U "p") 0 [busy; timed_out]
  = after [Post (U "p"); Sleep 5] (call_loop (U "p") 0 [timed_out])
  /\ call_loop (U "p") 2 [server_error; busy]
     = after [Post (U "p"); Sleep 8] (call_loop (U "p") 3 [busy])
  /\ (_call_deepseek (U "p")
        [busy; timed_out; server_error; busy; busy; timed_out; timed_out; busy;
         refused; busy]).2
     = Raised (Exception (U "ConnectError"))
  /\ sleeps (_call_deepseek (U "p")
        [busy; timed_out; server_error; busy; busy; timed_out; timed_out; busy;
         refused; busy]).1
     = [5; 2; 4; 5; 5; 8; 16; 5].
Proof.
  destruct (@call_deepseek_retry_policy str (U "p")) as (H503 & Hfail & Hlast).
  split; [| split].
  - apply (H503 0%nat busy [timed_out]); [lia | reflexivity].
  - apply (Hfail 2%nat server_error (Exception (U "500 Server Error")) [busy]);
      [lia | reflexivity].
  - pose proof (Hlast [busy] [] [busy; busy] [] [busy]
                  timed_out server_error timed_out timed_out refused
                  (Exception (U "ReadTimeout")) (Exception (U "500 Server Error"))
                  (Exception (U "ReadTimeout")) (Exception (U "ReadTimeout"))
                  (Exception (U "ConnectError")) [busy]) as H.
    cbv zeta in H.
    destruct H as (Hr & Hs & _);
      try reflexivity.
    + repeat constructor.
    + split; [exact Hr | exact Hs].
Defined.

(** ** The stage retry wrapper *)

Section StageRunnerProperties.

Context {A : Type}.
Variable func : nat -> trace * result A.
Variable stage_name : string.
Variable after_success : nat -> trace.
Variable handler_events : nat -> exn -> trace.
Variable error_details_of : exn -> str.

Let run := _execute_with_retry func stage_name 3 after_success handler_events
                               error_details_of.

(** What precedes the second and the third invocation. *)
Definition second_attempt : trace :=
  [Update stage_name "active" 0 (U "Повторная попытка 2/3..."); Sleep 2].
Definition third_attempt : trace :=
  [Update stage_name "active" 0 (U "Повторная попытка 3/3..."); Sleep 4].

Lemma before_attempt_0 : before_attempt stage_name 3 0 = [].
Proof. reflexivity. Qed.

Lemma before_attempt_1 : before_attempt stage_name 3 1 = second_attempt.
Proof. reflexivity. Qed.

Lemma before_attempt_2 : before_attempt stage_name 3 2 = third_attempt.
Proof. reflexivity. Qed.

(** The wrapper hands every exception of the stage function back as a
    value. *)
Lemma retry_loop_never_raises max_retries remaining attempt last e :
  (retry_loop func stage_name max_retries after_success handler_events
              error_details_of remaining attempt last).2 <> Raised e.
Proof.
  revert attempt last. induction remaining as [| n IH]; intros attempt last.
  - simpl. discriminate.
  - simpl. destruct (func attempt) as [t [a | e' | ]].
    + simpl. discriminate.
    + specialize (IH (S attempt) (Some e')).
      destruct (retry_loop func stage_name max_retries after_success
                  handler_events error_details_of n (S attempt) (Some e')).
      exact IH.
    + simpl. discriminate.
Qed.

(** C2: [_execute_with_retry] invokes the stage function at most three
    times.  The first invocation is immediate; the second and the third
    are each preceded by a progress update (status active, progress 0)
    and a sleep of [2^attempt] seconds, 2 and then 4.  A value of the
    stage function is returned as it is; when all three invocations
    raise, the wrapper returns the failure object built from the last
    exception, and in no case does it raise itself. *)
Theorem execute_with_retry_policy :
  (forall t0 a, func 0%nat = (t0, Returned a) ->
      run = (Invoke 0 :: t0 ++ after_success 0%nat, Returned (StageValue a)))
  /\ (forall t0 e0 t1 a,
         func 0%nat = (t0, Raised e0) -> func 1%nat = (t1, Returned a) ->
         run = (Invoke 0 :: t0 ++ handler_events 0%nat e0
                  ++ second_attempt ++ Invoke 1 :: t1 ++ after_success 1%nat,
                Returned (StageValue a)))
  /\ (forall t0 e0 t1 e1 t2 a,
         func 0%nat = (t0, Raised e0) -> func 1%nat = (t1, Raised e1) ->
         func 2%nat = (t2, Returned a) ->
         run = (Invoke 0 :: t0 ++ handler_events 0%nat e0
                  ++ second_attempt ++ Invoke 1 :: t1 ++ handler_events 1%nat e1
                  ++ third_attempt ++ Invoke 2 :: t2 ++ after_success 2%nat,
                Returned (StageValue a)))
  /\ (forall t0 e0 t1 e1 t2 e2,
         func 0%nat = (t0, Raised e0) -> func 1%nat = (t1, Raised e1) ->
         func 2%nat = (t2, Raised e2) ->
         run = (Invoke 0 :: t0 ++ handler_events 0%nat e0
                  ++ second_attempt ++ Invoke 1 :: t1 ++ handler_events 1%nat e1
                  ++ third_attempt ++ Invoke 2 :: t2 ++ handler_events 2%nat e2,
                Returned (StageFailure (str_exn e2) (error_details_of e2))))
  /\ (forall e, run.2 <> Raised e).
Proof.
  unfold run, _execute_with_retry.
  split; [| split; [| split; [| split]]].
  - intros t0 a H0. cbn [retry_loop]. rewrite H0, before_attempt_0. reflexivity.
  - intros t0 e0 t1 a H0 H1. cbn [retry_loop].
    rewrite H0, H1, before_attempt_0, before_attempt_1. cbn [app].
    reflexivity.
  - intros t0 e0 t1 e1 t2 a H0 H1 H2. cbn [retry_loop].
    rewrite H0, H1, H2, before_attempt_0, before_attempt_1, before_attempt_2.
    cbn [app]. rewrite <- ?app_assoc. reflexivity.
  - intros t0 e0 t1 e1 t2 e2 H0 H1 H2. cbn [retry_loop].
    rewrite H0, H1, H2, before_attempt_0, before_attempt_1, before_attempt_2.
    cbn [app exhausted]. rewrite ?app_nil_r, <- ?app_assoc. reflexivity.
  - intros e. apply retry_loop_never_raises.
Qed.

End StageRunnerProperties.

(** A stage function that raises during its first [n] invocations. *)
Definition flaky (n : nat) (attempt : nat) : trace * result nat :=
  if (attempt <? n)%nat then ([], Raised (Exception (U "boom")))
  else ([], Returned 7%nat).

Definition no_events_after (_ : nat) : trace := [].
Definition no_handler_events (_ : nat) (_ : exn) : trace := [].

Lemma execute_with_retry_policy_witness :
  _execute_with_retry (flaky 0) "stage" 3 no_events_after no_handler_events str_exn
  = ([Invoke 0], Returned (StageValue 7%nat))
  /\ _execute_with_retry (flaky 1) "stage" 3 no_events_after no_handler_events str_exn
     = ([Invoke 0; Update "stage" "active" 0 (U "Повторная попытка 2/3..."); Sleep 2;
         Invoke 1],
        Returned (StageValue 7%nat))
  /\ _execute_with_retry (flaky 2) "stage" 3 no_events_after no_handler_events str_exn
     = ([Invoke 0; Update "stage" "active" 0 (U "Повторная попытка 2/3..."); Sleep 2;
         Invoke 1; Update "stage" "active" 0 (U "Повторная попытка 3/3..."); Sleep 4;
         Invoke 2],
        Returned (StageValue 7%nat))
  /\ _execute_with_retry (flaky 3) "stage" 3 no_events_after no_handler_events str_exn
     = ([Invoke 0; Update "stage" "active" 0 (U "Повторная попытка 2/3..."); Sleep 2;
         Invoke 1; Update "stage" "active" 0 (U "Повторная попытка 3/3..."); Sleep 4;
         Invoke 2],
        Returned (StageFailure (U "boom") (U "boom"))).
Proof.
  split; [| split; [| split]].
  - apply (proj1 (execute_with_retry_policy (flaky 0) "stage" no_events_after
                    no_handler_events str_exn) [] 7%nat).
    reflexivity.
  - apply (proj1 (proj2 (execute_with_retry_policy (flaky 1) "stage" no_events_after
                           no_handler_events str_exn))
                 [] (Exception (U "boom")) [] 7%nat); reflexivity.
  - apply (proj1 (proj2 (proj2 (execute_with_retry_policy (flaky 2) "stage"
                                  no_events_after no_handler_events str_exn)))
                 [] (Exception (U "boom")) [] (Exception (U "boom")) [] 7%nat);
      reflexivity.
  - apply (proj1 (proj2 (proj2 (proj2 (execute_with_retry_policy (flaky 3) "stage"
                                         no_events_after no_handler_events str_exn))))
                 [] (Exception (U "boom")) [] (Exception (U "boom"))
                 [] (Exception (U "boom")));
      reflexivity.
Defined.

(** ** Progress updates of the data-collection stage *)

Fixpoint nondecreasing (l : list Z) : bool :=
  match l with
  | a :: (b :: _) as r => (a <=? b)%Z && nondecreasing r
  | _ => true
  end.

Lemma progress_values_app t1 t2 :
  progress_values (t1 ++ t2) = progress_values t1 ++ progress_values t2.
Proof. unfold progress_values. apply omap_app. Qed.

Lemma updates_app t1 t2 : updates (t1 ++ t2) = updates t1 ++ updates t2.
Proof. unfold updates. apply omap_app. Qed.

(** The model client sends no progress update. *)
Lemma call_loop_no_updates {A : Type} prompt (script : list (post_outcome A)) attempt :
  updates (call_loop prompt attempt script).1 = []
  /\ progress_values (call_loop prompt attempt script).1 = [].
Proof.
  revert attempt. induction script as [| o script IH]; intros attempt;
    cbn [call_loop]; destruct (attempt <? max_retries_call)%nat; auto.
  assert (forall e,
    updates
      (if (max_retries_call <=? S attempt)%nat
       then ([Post prompt], @Raised (option A) e)
       else let '(t, r) := call_loop prompt (S attempt) script in
            (Post prompt :: Sleep (2 ^ N.of_nat (S attempt)) :: t, r)).1 = []
    /\ progress_values
      (if (max_retries_call <=? S attempt)%nat
       then ([Post prompt], @Raised (option A) e)
       else let '(t, r) := call_loop prompt (S attempt) script in
            (Post prompt :: Sleep (2 ^ N.of_nat (S attempt)) :: t, r)).1 = [])
    as Hfail.
  { intros e. destruct (max_retries_call <=? S attempt)%nat; auto.
    specialize (IH (S attempt)).
    destruct (call_loop prompt (S attempt) script). exact IH. }
  destruct o as [e | r]; [apply Hfail |].
  destruct (status_code r =? 503)%Z.
  - specialize (IH attempt). destruct (call_loop prompt attempt script). exact IH.
  - destruct (rest r); [apply Hfail | auto].
Qed.

(** The loop is only left through [return] or [raise]: the value [None]
    of a loop that runs out is never produced. *)
Lemma call_loop_not_none {A : Type} prompt (script : list (post_outcome A)) attempt :
  (attempt < 5)%nat -> (call_loop prompt attempt script).2 <> Returned None.
Proof.
  revert attempt. induction script as [| o script IH]; intros attempt Ha;
    cbn [call_loop];
    (assert ((attempt <? max_retries_call)%nat = true) as ->
        by (apply Nat.ltb_lt; exact Ha)); [discriminate |].
  assert (forall e,
    (if (max_retries_call <=? S attempt)%nat
     then ([Post prompt], @Raised (option A) e)
     else let '(t, r) := call_loop prompt (S attempt) script in
          (Post prompt :: Sleep (2 ^ N.of_nat (S attempt)) :: t, r)).2
    <> Returned None) as Hfail.
  { intros e. destruct (max_retries_call <=? S attempt)%nat eqn:Hle;
      [discriminate |].
    apply Nat.leb_gt in Hle. specialize (IH (S attempt) Hle).
    destruct (call_loop prompt (S attempt) script). exact IH. }
  destruct o as [e | r]; [apply Hfail |].
  destruct (status_code r =? 503)%Z.
  - specialize (IH attempt Ha). destruct (call_loop prompt attempt script).
    exact IH.
  - destruct (rest r); [apply Hfail | discriminate].
Qed.







Section StageProgress.

Variable lower : str -> str.
Variable research_data : Type.
Variable get_data_collection_prompt : research_data -> str -> str.
Variable now : str.
Variables (data : research_data) (rtype : str).

Variable after_success : nat -> trace.
Variable handler_events : nat -> exn -> trace.
Variable error_details_of : exn -> str.

(** The part of the wrapper that is missing from the source sends no
    update of its own. *)
Hypothesis after_success_quiet : forall k, updates (after_success k) = [].
Hypothesis handler_quiet : forall k e, updates (handler_events k e) = [].

Let attempt (script : list (post_outcome json)) :=
  _collect_market_data_internal lower research_data get_data_collection_prompt
                                now data rtype script.

Let stage (scripts : nat -> list (post_outcome json)) :=
  collect_market_data lower research_data get_data_collection_prompt now
                      after_success handler_events error_details_of data rtype
                      scripts.



End StageProgress.

Definition five_timeouts {A : Type} : list (post_outcome A) :=
  [timed_out; timed_out; timed_out; timed_out; timed_out].




(** ** Link enhancement *)

Lemma call_loop_posts {A : Type} prompt (script : list (post_outcome A)) attempt :
  Forall (fun p => p = prompt) (posts (call_loop prompt attempt script).1).
Proof.
  revert attempt. induction script as [| o script IH]; intros attempt;
    cbn [call_loop]; destruct (attempt <? max_retries_call)%nat;
    try (now constructor).
  assert (forall e,
    Forall (fun p => p = prompt)
      (posts (if (max_retries_call <=? S attempt)%nat
              then ([Post prompt], @Raised (option A) e)
              else let '(t, r) := call_loop prompt (S attempt) script in
                   (Post prompt :: Sleep (2 ^ N.of_nat (S attempt)) :: t, r)).1))
    as Hfail.
  { intros e. destruct (max_retries_call <=? S attempt)%nat.
    - now repeat constructor.
    - specialize (IH (S attempt)).
      destruct (call_loop prompt (S attempt) script). now constructor. }
  destruct o as [e | r]; [apply Hfail |].
  destruct (status_code r =? 503)%Z.
  - specialize (IH attempt). destruct (call_loop prompt attempt script).
    now constructor.
  - destruct (rest r); [apply Hfail | now repeat constructor].
Qed.




Section EnhanceProperties.

Variable json_dumps : list candidate -> str.
Variables (report_content : str) (cases : list case)
          (script : list (post_outcome str)).

Let prompt := enhance_prompt json_dumps (report_preview report_content) (links_sent cases).
Let run := enhance_report_with_links json_dumps report_content cases script.


End EnhanceProperties.





(** ** Insight extraction *)

(** The keys of an insight and the default each one falls back to. *)
Definition insight_keys : list string :=
  ["source_file"; "download_link"; "section"; "fact"; "metrics"; "date"; "links"].

Definition insight_default (key : string) : json :=
  if bool_decide (key = "source_file") then JStr (U "unknown.pdf")
  else if bool_decide (key = "section") then JStr []
  else if bool_decide (key = "fact") then JStr []
  else if bool_decide (key = "links") then JArr []
  else JNull.

Lemma normalize_item_lookup members key :
  In key insight_keys ->
  normalize_item members !! key
  = Some (get_or (U key) (insight_default key) members).
Proof.
  intros Hk. unfold insight_keys in Hk. simpl in Hk.
  unfold normalize_item.
  repeat (destruct Hk as [<- | Hk];
          [repeat (rewrite lookup_insert_ne by discriminate);
           rewrite lookup_insert_eq; reflexivity |]).
  contradiction.
Qed.

Lemma normalize_items_objects objs :
  normalize_items (map JObj objs) = Some (map normalize_item objs).
Proof.
  induction objs as [| members objs IH]; simpl; [reflexivity | now rewrite IH].
Qed.

Lemma normalize_items_some items norm :
  normalize_items items = Some norm -> exists objs, items = map JObj objs.
Proof.
  revert norm. induction items as [| item items IH]; intros norm H.
  - now exists [].
  - destruct item; try discriminate. simpl in H.
    destruct (normalize_items items) as [norm' |]; [| discriminate].
    destruct (IH norm' eq_refl) as [objs ->].
    now exists (members :: objs).
Qed.

(** Stripping a set of characters from both ends leaves nothing exactly
    when stripping them from the left does: when the line consists of
    such characters only. *)
Lemma drop_while_nil {A} (p : A -> bool) (l : list A) :
  drop_while p l = [] <-> forallb p l = true.
Proof.
  induction l as [| x l IH]; simpl; [tauto |].
  destruct (p x); simpl; [exact IH |]. split; discriminate.
Qed.

Lemma drop_while_all_nil {A} (p : A -> bool) (l : list A) :
  forallb p (drop_while p l) = true -> drop_while p l = [].
Proof.
  induction l as [| x l IH]; simpl; auto.
  destruct (p x) eqn:Hx; simpl; auto. rewrite Hx. discriminate.
Qed.

Lemma forallb_rev_true {A} (p : A -> bool) (l : list A) :
  forallb p (rev l) = true -> forallb p l = true.
Proof.
  rewrite !forallb_forall. intros H x Hx. apply H. now apply in_rev in Hx.
Qed.

Lemma strip_by_nil p (s : str) : strip_by p s = [] <-> lstrip_by p s = [].
Proof.
  unfold strip_by, rstrip_by, lstrip_by. split.
  - intros H. apply (f_equal (@rev N)) in H. rewrite rev_involutive in H.
    simpl in H. apply drop_while_nil in H.
    apply drop_while_all_nil. now apply forallb_rev_true.
  - intros ->. reflexivity.
Qed.

Lemma str_truthy_strip_bullets line :
  str_truthy (strip_bullets line)
  = str_truthy (lstrip_by (mem_chars bullet_chars) line).
Proof.
  unfold strip_bullets.
  pose proof (strip_by_nil (mem_chars bullet_chars) line) as H.
  destruct (strip_by (mem_chars bullet_chars) line) eqn:Hs,
           (lstrip_by (mem_chars bullet_chars) line) eqn:Hl; try reflexivity.
  - destruct H as [H _]. now specialize (H eq_refl).
  - destruct H as [_ H]. now specialize (H eq_refl).
Qed.

Lemma filter_map_length {A B} (f : A -> B) (p : B -> bool) (l : list A) :
  length (List.filter p (map f l)) = length (List.filter (fun x => p (f x)) l).
Proof.
  induction l as [| x l IH]; simpl; [reflexivity |].
  destruct (p (f x)); simpl; now rewrite IH.
Qed.

Section InsightsProperties.

Variable json_loads : str -> option json.
Variable content_str : str.

(** C5, as amended: for a JSON array of objects [parse_local_insights]
    returns one normalized insight per object, which carries over every
    provided field whose value is truthy (source_file, download_link,
    section, fact, metrics, date, links) and puts the default of the field
    in place of a missing or falsy value (null, false, 0, the empty text,
    array or object).  For every other input - text that is not JSON, a
    JSON value that is not an array, an array holding anything but
    objects - it returns the fallback without raising: one insight with
    source_file "unknown.pdf" for each line that is not empty once the
    leading characters among space, dash, bullet and asterisk are
    stripped. *)
Theorem parse_local_insights_normalizes :
  (forall objs, json_loads content_str = Some (JArr (map JObj objs)) ->
      parse_local_insights json_loads content_str = map normalize_item objs
      /\ length (parse_local_insights json_loads content_str) = length objs
      /\ Forall (fun members =>
           forall key, In key insight_keys ->
             (forall v, members_get (U key) members = Some v ->
                        json_truthy v = true ->
                        normalize_item members !! key = Some v)
             /\ (forall v, members_get (U key) members = Some v ->
                           json_truthy v = false ->
                           normalize_item members !! key = Some (insight_default key))
             /\ (members_get (U key) members = None ->
                 normalize_item members !! key = Some (insight_default key)))
         objs)
  /\ ((json_loads content_str = None
       \/ exists v, json_loads content_str = Some v
                    /\ forall objs, v <> JArr (map JObj objs)) ->
      parse_local_insights json_loads content_str = fallback_insights content_str)
  /\ Forall (fun ins : insight => ins !! "source_file" = Some (JStr (U "unknown.pdf")))
            (fallback_insights content_str)
  /\ length (fallback_insights content_str)
     = length (List.filter
                 (fun line => str_truthy (lstrip_by (mem_chars bullet_chars) line))
                 (split_on NL content_str)).
Proof.
  split; [| split; [| split]].
  - intros objs Hl. unfold parse_local_insights.
    rewrite Hl, normalize_items_objects. split; [reflexivity |].
    split; [apply length_map |].
    apply Forall_forall. intros members _ key Hk.
    rewrite (normalize_item_lookup members key Hk). unfold get_or.
    split; [| split].
    + intros v -> ->. reflexivity.
    + intros v -> ->. reflexivity.
    + intros ->. reflexivity.
  - intros H. unfold parse_local_insights.
    destruct H as [-> | (v & -> & Hv)]; [reflexivity |].
    destruct v; try reflexivity.
    destruct (normalize_items items) as [norm |] eqn:Hn; [| reflexivity].
    apply normalize_items_some in Hn. destruct Hn as [objs ->].
    now destruct (Hv objs).
  - unfold fallback_insights. apply List.Forall_forall. intros ins Hin.
    apply in_map_iff in Hin. destruct Hin as (fact & <- & _).
    reflexivity.
  - unfold fallback_insights. rewrite length_map, filter_map_length.
    f_equal. apply filter_ext. intros line. apply str_truthy_strip_bullets.
Qed.

End InsightsProperties.

Definition QUOTE : N := 34.

(** The text [[{"fact": "grew 12%", "metrics": 0}]] and a [json.loads]
    that knows it. *)
Definition example_array_text : str :=
  U "[{" ++ [QUOTE] ++ U "fact" ++ [QUOTE] ++ U ": " ++ [QUOTE] ++ U "grew 12%"
    ++ [QUOTE] ++ U ", " ++ [QUOTE] ++ U "metrics" ++ [QUOTE] ++ U ": 0}]".

Definition example_object : list (str * json) :=
  [(U "fact", JStr (U "grew 12%")); (U "metrics", JInt 0)].

Definition example_loads (s : str) : option json :=
  if str_eqb s example_array_text then Some (JArr [JObj example_object]) else None.

(** C5 as stated fails: a provided field is not carried over when it is
    given as [0]; the insight holds [None] under ["metrics"]. *)
Lemma parse_local_insights_falsy_field_replaced :
  ~ (forall (json_loads : str -> option json) (content_str : str) objs,
        json_loads content_str = Some (JArr (map JObj objs)) ->
        Forall2 (fun members (ins : insight) =>
                   forall key v, In key insight_keys ->
                                 members_get (U key) members = Some v ->
                                 ins !! key = Some v)
                objs (parse_local_insights json_loads content_str)).
Proof.
  intros H.
  specialize (H example_loads example_array_text [example_object] eq_refl).
  change (parse_local_insights example_loads example_array_text)
    with [normalize_item example_object] in H.
  apply Forall2_cons_1 in H. destruct H as [H _].
  specialize (H "metrics" (JInt 0)).
  assert (normalize_item example_object !! "metrics" = Some JNull) as Hn
      by reflexivity.
  rewrite Hn in H. discriminate H.
  - simpl. tauto.
  - reflexivity.
Qed.

Lemma parse_local_insights_normalizes_witness :
  (parse_local_insights example_loads example_array_text
   = map normalize_item [example_object]
   /\ normalize_item example_object !! "fact" = Some (JStr (U "grew 12%"))
   /\ normalize_item example_object !! "metrics" = Some JNull)
  /\ parse_local_insights example_loads (U "- first
* second

plain")
     = [minimal_insight (U "first"); minimal_insight (U "second");
        minimal_insight (U "plain")].
Proof.
  split.
  - destruct (proj1 (parse_local_insights_normalizes example_loads example_array_text)
                    [example_object] eq_refl) as (Hp & _ & Hf).
    split; [exact Hp |].
    apply Forall_cons in Hf. destruct Hf as [Hf _]. split.
    + apply (proj1 (Hf "fact" ltac:(simpl; tauto))); reflexivity.
    + apply (proj1 (proj2 (Hf "metrics" ltac:(simpl; tauto))) (JInt 0)); reflexivity.
  - rewrite (proj1 (proj2 (parse_local_insights_normalizes example_loads (U "- first
* second

plain")))).
    + reflexivity.
    + left. reflexivity.
Defined.

(** ** Company extraction, block by block *)

(** The branch of the [if]/[elif] chain a non-blank stripped line takes. *)
Inductive kind := KName | KWebsite | KCountry | KCharacteristics | KLink | KOther.

Global Instance kind_eq_dec : EqDecision kind.
Proof. solve_decision. Defined.

Definition set_opt (key : string) (o : option value) (c : company) : company :=
  match o with
  | Some v => <[key := v]> c
  | None => c
  end.

Section Blocks.

Variable lower : str -> str.

Definition line_kind (line : str) : kind :=
  if any_keyword lower name_keywords line then KName
  else if any_keyword lower website_keywords line then KWebsite
  else if any_keyword lower country_keywords line then KCountry
  else if any_keyword lower characteristics_keywords line then KCharacteristics
  else if startswith (U "http") line then KLink
  else KOther.

Definition of_kind (k : kind) (line : str) : bool := bool_decide (line_kind line = k).

(** The value a text field of a block ends up with: that of the last line
    of its kind. *)
Definition text_field (k : kind) (lines : list str) : option value :=
  (fun line => VStr (value_after_colon line)) <$> last (List.filter (of_kind k) lines).

Definition links_field (lines : list str) : option value :=
  match List.filter (of_kind KLink) lines with
  | [] => None
  | l :: ls => Some (VList (l :: ls))
  end.

(** A block: its first line and the lines after it. *)
Definition block : Type := str * list str.

(** The record a block stands for, field by field. *)
Definition block_record (b : block) : company :=
  let lines := map strip b.2 in
  set_opt "links" (links_field lines)
    (set_opt "characteristics" (text_field KCharacteristics lines)
       (set_opt "country" (text_field KCountry lines)
          (set_opt "website" (text_field KWebsite lines)
             {["name" := VStr (value_after_colon (strip b.1))]}))).

(** A block is well formed when none of its lines is blank or contains a
    line break, its first line contains a company keyword, and no later
    line does. *)
Definition line_ok (raw : str) : Prop := ~ In NL raw /\ strip raw <> [].

Definition block_ok (b : block) : Prop :=
  line_ok b.1 /\ line_kind (strip b.1) = KName
  /\ Forall (fun raw => line_ok raw /\ line_kind (strip raw) <> KName) b.2.

End Blocks.

(** The text of a sequence of blocks: every line ends in a line break and
    every block is closed by an empty line. *)
Definition render_lines (lines : list str) : str :=
  concat (map (fun line => line ++ [NL]) lines).

Definition render_blocks (blocks : list block) : str :=
  concat (map (fun b : block => render_lines (b.1 :: b.2) ++ [NL]) blocks).

Lemma split_on_line sep (line s : str) :
  ~ In sep line -> split_on sep (line ++ sep :: s) = line :: split_on sep s.
Proof.
  induction line as [| c line IH]; intros Hn; simpl.
  - now rewrite N.eqb_refl.
  - destruct (N.eqb_spec c sep) as [-> | Hc].
    + exfalso. apply Hn. now left.
    + rewrite IH; [reflexivity |]. intros Hin. apply Hn. now right.
Qed.

Lemma split_on_render_lines (lines : list str) (s : str) :
  Forall (fun line => ~ In NL line) lines ->
  split_on NL (render_lines lines ++ s) = lines ++ split_on NL s.
Proof.
  induction 1 as [| line lines Hl _ IH]; simpl; [reflexivity |].
  unfold render_lines in *. simpl. rewrite <- !app_assoc. simpl.
  rewrite split_on_line by assumption. now rewrite IH.
Qed.

Lemma split_on_render_blocks (blocks : list block) :
  Forall (fun b : block => Forall (fun line => ~ In NL line) (b.1 :: b.2)) blocks ->
  split_on NL (render_blocks blocks)
  = concat (map (fun b : block => b.1 :: b.2 ++ [[]]) blocks) ++ [[]].
Proof.
  induction 1 as [| b blocks Hb _ IH]; [reflexivity |].
  unfold render_blocks in *. simpl concat. rewrite <- app_assoc.
  rewrite split_on_render_lines by assumption.
  simpl. rewrite ?N.eqb_refl. rewrite IH.
  rewrite <- !app_assoc. reflexivity.
Qed.

Section BlockProofs.

Variable lower : str -> str.

Lemma company_step_blank companies current raw :
  strip raw = [] -> dict_truthy current = true ->
  company_step lower (companies, current) raw = (companies ++ [current], ∅).
Proof. intros Hs Ht. unfold company_step. now rewrite Hs, Ht. Qed.

Lemma company_step_blank_idle companies raw :
  strip raw = [] ->
  company_step lower (companies, ∅) raw = (companies, ∅).
Proof. intros Hs. unfold company_step. now rewrite Hs. Qed.

Lemma company_step_name companies raw :
  strip raw <> [] -> line_kind lower (strip raw) = KName ->
  company_step lower (companies, ∅) raw
  = (companies, {["name" := VStr (value_after_colon (strip raw))]}).
Proof.
  intros Hs Hk. unfold company_step, line_kind in *.
  destruct (strip raw) as [| c line]; [contradiction |].
  destruct (any_keyword lower name_keywords (c :: line)); [reflexivity |].
  repeat match type of Hk with
         | (if ?b then _ else _) = _ => destruct b
         end; discriminate.
Qed.

(** The effect of a later line of a block on the open record. *)
Definition apply_line (line : str) (current : company) : company :=
  match line_kind lower line with
  | KWebsite => <["website" := VStr (value_after_colon line)]> current
  | KCountry => <["country" := VStr (value_after_colon line)]> current
  | KCharacteristics => <["characteristics" := VStr (value_after_colon line)]> current
  | KLink => append_link line current
  | KName | KOther => current
  end.

Lemma company_step_field companies current raw :
  strip raw <> [] -> line_kind lower (strip raw) <> KName ->
  dict_truthy current = true ->
  company_step lower (companies, current) raw
  = (companies, apply_line (strip raw) current).
Proof.
  intros Hs Hk Ht. unfold company_step, apply_line, line_kind in *.
  destruct (strip raw) as [| c line]; [contradiction |].
  rewrite Ht.
  destruct (any_keyword lower name_keywords (c :: line)); [contradiction |].
  destruct (any_keyword lower website_keywords (c :: line)); [reflexivity |].
  destruct (any_keyword lower country_keywords (c :: line)); [reflexivity |].
  destruct (any_keyword lower characteristics_keywords (c :: line)); [reflexivity |].
  destruct (startswith (U "http") (c :: line)); reflexivity.
Qed.

Lemma append_link_truthy line current :
  dict_truthy current = true -> dict_truthy (append_link line current) = true.
Proof.
  intros Ht. unfold append_link.
  destruct (current !! "links") as [[s | l] |]; auto using dict_truthy_insert.
Qed.

Lemma apply_line_truthy line current :
  dict_truthy current = true -> dict_truthy (apply_line line current) = true.
Proof.
  intros Ht. unfold apply_line.
  destruct (line_kind lower line);
    auto using dict_truthy_insert, append_link_truthy.
Qed.

Lemma company_loop_fields rest companies current :
  Forall (fun raw => line_ok raw /\ line_kind lower (strip raw) <> KName) rest ->
  dict_truthy current = true ->
  company_loop lower (companies, current) rest
  = (companies, fold_left (fun c line => apply_line line c) (map strip rest) current).
Proof.
  intros Hrest. revert current. unfold company_loop.
  induction Hrest as [| raw rest [[_ Hs] Hk] _ IH]; intros current Ht;
    [reflexivity |].
  cbn [fold_left map]. rewrite company_step_field by assumption.
  apply IH. now apply apply_line_truthy.
Qed.

End BlockProofs.

(** A record given by its five possible fields. *)
Definition record_of_fields (name : value) (website country characteristics links : option value)
  : company :=
  set_opt "links" links
    (set_opt "characteristics" characteristics
       (set_opt "country" country
          (set_opt "website" website {["name" := name]}))).

Lemma lookup_set_opt key key' o (c : company) :
  set_opt key o c !! key'
  = if decide (key = key') then match o with Some v => Some v | None => c !! key' end
    else c !! key'.
Proof.
  unfold set_opt. destruct o as [v |].
  - rewrite lookup_insert. now destruct (decide (key = key')).
  - now destruct (decide (key = key')).
Qed.

Lemma record_of_fields_lookup name w co ch lk key :
  record_of_fields name w co ch lk !! key
  = if decide (key = "links") then lk
    else if decide (key = "characteristics") then ch
    else if decide (key = "country") then co
    else if decide (key = "website") then w
    else if decide (key = "name") then Some name
    else None.
Proof.
  unfold record_of_fields. rewrite !lookup_set_opt.
  destruct (decide ("links" = key)) as [<- | Hl].
  { destruct lk, ch, co, w; reflexivity. }
  destruct (decide (key = "links")) as [-> | _]; [contradiction |].
  destruct (decide ("characteristics" = key)) as [<- | Hch].
  { destruct ch, co, w; reflexivity. }
  destruct (decide (key = "characteristics")) as [-> | _]; [contradiction |].
  destruct (decide ("country" = key)) as [<- | Hco].
  { destruct co, w; reflexivity. }
  destruct (decide (key = "country")) as [-> | _]; [contradiction |].
  destruct (decide ("website" = key)) as [<- | Hw].
  { destruct w; reflexivity. }
  destruct (decide (key = "website")) as [-> | _]; [contradiction |].
  destruct (decide (key = "name")) as [-> | Hn].
  - apply lookup_singleton_eq.
  - apply lookup_singleton_ne. congruence.
Qed.

Lemma record_of_fields_insert_website name w co ch lk v :
  <["website" := v]> (record_of_fields name w co ch lk)
  = record_of_fields name (Some v) co ch lk.
Proof.
  apply map_eq. intros key. rewrite lookup_insert, !record_of_fields_lookup.
  destruct (decide ("website" = key)) as [<- | Hk]; [reflexivity |].
  repeat (case_decide; try reflexivity); congruence.
Qed.

Lemma record_of_fields_insert_country name w co ch lk v :
  <["country" := v]> (record_of_fields name w co ch lk)
  = record_of_fields name w (Some v) ch lk.
Proof.
  apply map_eq. intros key. rewrite lookup_insert, !record_of_fields_lookup.
  destruct (decide ("country" = key)) as [<- | Hk]; [reflexivity |].
  repeat (case_decide; try reflexivity); congruence.
Qed.

Lemma record_of_fields_insert_characteristics name w co ch lk v :
  <["characteristics" := v]> (record_of_fields name w co ch lk)
  = record_of_fields name w co (Some v) lk.
Proof.
  apply map_eq. intros key. rewrite lookup_insert, !record_of_fields_lookup.
  destruct (decide ("characteristics" = key)) as [<- | Hk]; [reflexivity |].
  repeat (case_decide; try reflexivity); congruence.
Qed.

Lemma record_of_fields_insert_links name w co ch lk v :
  <["links" := v]> (record_of_fields name w co ch lk)
  = record_of_fields name w co ch (Some v).
Proof.
  apply map_eq. intros key. rewrite lookup_insert, !record_of_fields_lookup.
  destruct (decide ("links" = key)) as [<- | Hk]; [reflexivity |].
  repeat (case_decide; try reflexivity); congruence.
Qed.

Lemma filter_snoc {A} (p : A -> bool) (l : list A) (x : A) :
  List.filter p (l ++ [x]) = List.filter p l ++ (if p x then [x] else []).
Proof. rewrite List.filter_app. reflexivity. Qed.

Section BlockRecords.

Variable lower : str -> str.

Lemma text_field_snoc k lines line :
  text_field lower k (lines ++ [line])
  = if of_kind lower k line then Some (VStr (value_after_colon line))
    else text_field lower k lines.
Proof.
  unfold text_field. rewrite filter_snoc.
  destruct (of_kind lower k line).
  - now rewrite last_snoc.
  - now rewrite app_nil_r.
Qed.

Lemma links_field_snoc lines line :
  links_field lower (lines ++ [line])
  = if of_kind lower KLink line
    then Some (VList (List.filter (of_kind lower KLink) lines ++ [line]))
    else links_field lower lines.
Proof.
  unfold links_field. rewrite filter_snoc.
  destruct (of_kind lower KLink line).
  - destruct (List.filter (of_kind lower KLink) lines); reflexivity.
  - now rewrite app_nil_r.
Qed.

Lemma of_kind_true k line : of_kind lower k line = true <-> line_kind lower line = k.
Proof. unfold of_kind. apply bool_decide_eq_true. Qed.

Lemma of_kind_false k line : of_kind lower k line = false <-> line_kind lower line <> k.
Proof. unfold of_kind. apply bool_decide_eq_false. Qed.

Lemma of_kind_other k k' line :
  line_kind lower line = k' -> k <> k' -> of_kind lower k line = false.
Proof. intros H Hne. apply of_kind_false. congruence. Qed.

(** The later lines of a block, taken one after the other, build the
    record described field by field. *)
Lemma apply_lines_record name lines :
  Forall (fun line => line_kind lower line <> KName) lines ->
  fold_left (fun c line => apply_line lower line c) lines {["name" := name]}
  = record_of_fields name
      (text_field lower KWebsite lines) (text_field lower KCountry lines)
      (text_field lower KCharacteristics lines) (links_field lower lines).
Proof.
  induction lines as [| line lines IH] using rev_ind; intros Hl.
  - reflexivity.
  - apply Forall_app in Hl. destruct Hl as [Hl Hline].
    apply Forall_cons in Hline. destruct Hline as [Hline _].
    rewrite fold_left_app. cbn [fold_left]. rewrite (IH Hl).
    rewrite !text_field_snoc, links_field_snoc.
    unfold apply_line at 1.
    destruct (line_kind lower line) eqn:Hk; try contradiction.
    + rewrite record_of_fields_insert_website.
      rewrite (proj2 (of_kind_true KWebsite line) Hk).
      rewrite !(of_kind_other _ KWebsite line Hk) by discriminate.
      reflexivity.
    + rewrite record_of_fields_insert_country.
      rewrite (proj2 (of_kind_true KCountry line) Hk).
      rewrite !(of_kind_other _ KCountry line Hk) by discriminate.
      reflexivity.
    + rewrite record_of_fields_insert_characteristics.
      rewrite (proj2 (of_kind_true KCharacteristics line) Hk).
      rewrite !(of_kind_other _ KCharacteristics line Hk) by discriminate.
      reflexivity.
    + rewrite (proj2 (of_kind_true KLink line) Hk).
      rewrite !(of_kind_other _ KLink line Hk) by discriminate.
      unfold append_link. rewrite record_of_fields_lookup.
      rewrite decide_True by reflexivity.
      unfold links_field at 1.
      destruct (List.filter (of_kind lower KLink) lines) as [| l ls];
        now rewrite record_of_fields_insert_links.
    + rewrite !(of_kind_other _ KOther line Hk) by discriminate.
      reflexivity.
Qed.

End BlockRecords.

Section BlockTheorem.

Variable lower : str -> str.

Lemma apply_lines_truthy lines current :
  dict_truthy current = true ->
  dict_truthy (fold_left (fun c line => apply_line lower line c) lines current) = true.
Proof.
  revert current. induction lines as [| line lines IH]; intros current Ht;
    [exact Ht |].
  simpl. apply IH. now apply apply_line_truthy.
Qed.

Lemma block_record_fields (b : block) :
  block_record lower b
  = record_of_fields (VStr (value_after_colon (strip b.1)))
      (text_field lower KWebsite (map strip b.2))
      (text_field lower KCountry (map strip b.2))
      (text_field lower KCharacteristics (map strip b.2))
      (links_field lower (map strip b.2)).
Proof. reflexivity. Qed.

(** One block followed by its closing empty line appends one record. *)
Lemma company_loop_block companies (b : block) :
  block_ok lower b ->
  company_loop lower (companies, ∅) (b.1 :: b.2 ++ [[]])
  = (companies ++ [block_record lower b], ∅).
Proof.
  destruct b as [first rest]. intros ([_ Hfirst] & Hname & Hrest).
  cbn [fst snd] in *.
  unfold company_loop. cbn [fold_left].
  rewrite company_step_name by assumption.
  rewrite fold_left_app.
  change (fold_left (company_step lower) rest ?st)
    with (company_loop lower st rest).
  rewrite company_loop_fields by (auto using dict_truthy_insert).
  cbn [fold_left].
  rewrite company_step_blank.
  - rewrite apply_lines_record; [reflexivity |].
    apply Forall_map. eapply Forall_impl; [exact Hrest |].
    intros raw [_ Hk]. exact Hk.
  - reflexivity.
  - apply apply_lines_truthy, dict_truthy_insert.
Qed.

Lemma company_loop_blocks (blocks : list block) companies :
  Forall (block_ok lower) blocks ->
  company_loop lower (companies, ∅)
    (concat (map (fun b : block => b.1 :: b.2 ++ [[]]) blocks))
  = (companies ++ map (block_record lower) blocks, ∅).
Proof.
  intros Hb. revert companies.
  induction Hb as [| b blocks Hb _ IH]; intros companies.
  - simpl. now rewrite app_nil_r.
  - cbn [map concat]. unfold company_loop in *. rewrite fold_left_app.
    change (fold_left (company_step lower) (b.1 :: b.2 ++ [[]]) (companies, ∅))
      with (company_loop lower (companies, ∅) (b.1 :: b.2 ++ [[]])).
    rewrite company_loop_block by assumption.
    rewrite IH. now rewrite <- app_assoc.
Qed.

(** C4, as amended: for every text made of blocks, each closed by an
    empty line, whose first line contains a company keyword and whose other
    lines contain none, [extract_companies_from_text] produces exactly one
    record per block, in order.  The record has the name taken from the
    remainder after the first colon of the first line, the website,
    country and characteristics of the last line of that kind, the lines
    beginning with http under ["links"], and no other field.  A line is of
    a kind when its lowered text contains one of the keywords of the kind
    anywhere, the kinds being tried in the order name, website, country,
    characteristics, link. *)
Theorem extract_companies_blocks (blocks : list block) :
  Forall (block_ok lower) blocks ->
  extract_companies_from_text lower (render_blocks blocks)
  = map (block_record lower) blocks
  /\ Forall (fun b : block => forall key,
       block_record lower b !! key
       = if decide (key = "links") then links_field lower (map strip b.2)
         else if decide (key = "characteristics")
              then text_field lower KCharacteristics (map strip b.2)
         else if decide (key = "country") then text_field lower KCountry (map strip b.2)
         else if decide (key = "website") then text_field lower KWebsite (map strip b.2)
         else if decide (key = "name") then Some (VStr (value_after_colon (strip b.1)))
         else None) blocks.
Proof.
  intros Hb. split.
  - unfold extract_companies_from_text.
    rewrite split_on_render_blocks.
    + unfold company_loop. rewrite fold_left_app.
      change (fold_left (company_step lower) ?l ([], ∅))
        with (company_loop lower ([], ∅) l).
      rewrite company_loop_blocks by assumption.
      cbn [fold_left]. rewrite company_step_blank_idle by reflexivity.
      reflexivity.
    + eapply Forall_impl; [exact Hb |].
      intros [first rest] ([Hn _] & _ & Hrest). simpl in *.
      constructor; [exact Hn |].
      eapply Forall_impl; [exact Hrest |]. intros raw [[Hraw _] _]. exact Hraw.
  - apply Forall_forall. intros b _ key.
    rewrite block_record_fields. apply record_of_fields_lookup.
Qed.

End BlockTheorem.

(** Closes [~ In NL raw /\ strip raw <> []] on a given line. *)
Ltac check_line :=
  split; [intros Hin; vm_compute in Hin; intuition discriminate
         | vm_compute; discriminate].

(** C4 as stated fails: a block with a second company label gives two
    records, one for each of its labelled lines. *)
Lemma extract_companies_second_label_splits_block :
  ~ (forall blocks : list block,
        Forall (fun b : block =>
                  Forall (fun raw => ~ In NL raw /\ strip raw <> []) (b.1 :: b.2)
                  /\ existsb (fun keyword => startswith keyword (lower_basic (strip b.1)))
                             name_keywords = true) blocks ->
        length (extract_companies_from_text lower_basic (render_blocks blocks))
        = length blocks).
Proof.
  intros H.
  specialize (H [(U "Company: Acme", [U "Product: Widget"])]).
  assert (length (extract_companies_from_text lower_basic
                    (render_blocks [(U "Company: Acme", [U "Product: Widget"])]))
          = 2%nat) as Hl by (vm_compute; reflexivity).
  rewrite Hl in H. discriminate H.
  constructor; [| constructor].
  split; [| vm_compute; reflexivity].
  constructor; [check_line |]. constructor; [check_line | constructor].
Qed.

Definition acme_block : block :=
  (U "Company: Acme Pay",
   [U "Website: https://acme.example"; U "  Страна: Россия"; U "https://acme.example/docs";
    U "notes without label"; U "URL: https://pay.acme.example"; U "https://news.example/acme"]).

Definition bolt_block : block := (U "Продукт: Bolt", []).

Lemma acme_block_ok : block_ok lower_basic acme_block.
Proof.
  split; [check_line |]. split; [vm_compute; reflexivity |].
  repeat (constructor; [split; [check_line | vm_compute; discriminate] |]).
  constructor.
Qed.

Lemma bolt_block_ok : block_ok lower_basic bolt_block.
Proof.
  split; [check_line |]. split; [vm_compute; reflexivity | constructor].
Qed.

Lemma extract_companies_blocks_witness :
  extract_companies_from_text lower_basic (render_blocks [acme_block; bolt_block])
  = [block_record lower_basic acme_block; block_record lower_basic bolt_block]
  /\ block_record lower_basic acme_block !! "website"
     = Some (VStr (U "https://pay.acme.example"))
  /\ block_record lower_basic acme_block !! "links"
     = Some (VList [U "https://acme.example/docs"; U "https://news.example/acme"])
  /\ block_record lower_basic acme_block !! "characteristics" = None.
Proof.
  destruct (extract_companies_blocks lower_basic [acme_block; bolt_block])
    as [Hrecords Hfields].
  { constructor; [exact acme_block_ok |].
    constructor; [exact bolt_block_ok | constructor]. }
  split; [exact Hrecords |].
  apply Forall_cons in Hfields. destruct Hfields as [Hacme _].
  split; [| split].
  - rewrite (Hacme "website"). vm_compute. reflexivity.
  - rewrite (Hacme "links"). vm_compute. reflexivity.
  - rewrite (Hacme "characteristics"). vm_compute. reflexivity.
Defined.

(** ** The whitespace clean-up after link removal *)

(** How far the leading run of whitespace of [s] reaches up to its last
    line break: the number of characters before that line break, [None]
    when the run holds no line break. *)
Fixpoint break_span (s : str) : option nat :=
  match s with
  | c :: r =>
    if py_isspace c then
      match break_span r with
      | Some m => Some (S m)
      | None => if c =? NL then Some 0%nat else None
      end
    else None
  | [] => None
  end.

(** No line of [s] is blank: at no line start does the leading whitespace
    reach a line break.  [prev] is the character before [s]. *)
Fixpoint no_blank_line (prev : option N) (s : str) : bool :=
  match s with
  | [] => true
  | c :: r =>
    (negb (at_line_start prev) || negb (bool_decide (is_Some (break_span s))))
    && no_blank_line (Some c) r
  end.

(** A text the clean-up has nothing to do on. *)
Definition clean (s : str) : Prop :=
  no_blank_line None s = true /\ strip s = s.

Lemma isspace_NL : py_isspace NL = true.
Proof. reflexivity. Qed.

Lemma eqb_NL_isspace c : (c =? NL) = true -> py_isspace c = true.
Proof. intros H. apply N.eqb_eq in H. now subst. Qed.

(** The repetition [\s*] followed by a line break. *)
Lemma star_then_break taken prev s :
  star_match py_isspace (match_here [Chr NL]) taken prev s
  = (fun m => [(taken + m)%nat; 1%nat]) <$> break_span s.
Proof.
  revert taken prev. induction s as [| c r IH]; intros taken prev.
  - reflexivity.
  - cbn [star_match break_span]. destruct (py_isspace c) eqn:Hc.
    + rewrite IH. destruct (break_span r) as [m |]; cbn.
      * do 3 f_equal. lia.
      * destruct (c =? NL); cbn; [| reflexivity].
        do 3 f_equal. lia.
    + cbn. destruct (c =? NL) eqn:Hn; [| reflexivity].
      apply eqb_NL_isspace in Hn. congruence.
Qed.

Lemma match_length_blank_line prev s :
  match_length blank_line_pattern prev s
  = if at_line_start prev then S <$> break_span s else None.
Proof.
  unfold match_length, blank_line_pattern. cbn [match_here].
  destruct (at_line_start prev); [| reflexivity].
  rewrite star_then_break. destruct (break_span s) as [m |]; cbn; [| reflexivity].
  f_equal. lia.
Qed.

(** The shape of a text whose leading whitespace reaches a line break. *)
Lemma break_span_some s m :
  break_span s = Some m ->
  exists w t, s = w ++ NL :: t /\ length w = m /\ forallb py_isspace w = true
              /\ break_span t = None.
Proof.
  revert m. induction s as [| c r IH]; intros m H; [discriminate |].
  cbn [break_span] in H. destruct (py_isspace c) eqn:Hc; [| discriminate].
  destruct (break_span r) as [m' |] eqn:Hr.
  - destruct (IH m' eq_refl) as (w & t & -> & Hw & Hall & Ht).
    injection H as <-. exists (c :: w), t. cbn. rewrite Hc, Hall, Hw. auto.
  - destruct (N.eqb_spec c NL) as [-> | Hn]; [| discriminate].
    injection H as <-. exists [], r. auto.
Qed.

Lemma break_span_app_some s w :
  is_Some (break_span s) -> is_Some (break_span (s ++ w)).
Proof.
  induction s as [| c r IH]; intros H; [now destruct H |].
  cbn [break_span app] in *. destruct (py_isspace c); [| exact H].
  destruct (break_span r) as [m |].
  - destruct IH as [m' ->]; eauto.
  - destruct (c =? NL); [| now destruct H].
    destruct (break_span (r ++ w)); eauto.
Qed.

Lemma break_span_whitespace_break w t :
  forallb py_isspace w = true -> is_Some (break_span (w ++ NL :: t)).
Proof.
  induction w as [| c w IH]; intros H.
  - cbn. destruct (break_span t); eauto.
  - cbn in H. apply andb_true_iff in H. destruct H as [Hc Hw].
    cbn [app break_span]. rewrite Hc. destruct (IH Hw) as [m ->]. eauto.
Qed.

(** The character before the text that follows [a]. *)
Definition prev_after (prev : option N) (a : str) : option N :=
  match last a with
  | Some c => Some c
  | None => prev
  end.

Lemma prev_after_cons prev c a : prev_after prev (c :: a) = prev_after (Some c) a.
Proof.
  unfold prev_after. destruct a as [| d a]; [reflexivity |].
  rewrite last_cons_cons. destruct (last (d :: a)) eqn:H; [reflexivity |].
  apply last_None in H. discriminate.
Qed.

Lemma sub_from_skip re repl prev a b :
  sub_from re repl prev (length a) (a ++ b)
  = sub_from re repl (prev_after prev a) O b.
Proof.
  revert prev. induction a as [| c a IH]; intros prev.
  - cbn. destruct b; reflexivity.
  - cbn [length app sub_from]. rewrite IH. now rewrite prev_after_cons.
Qed.

Lemma sub_from_no_match re repl prev c r :
  match_length re prev (c :: r) = None ->
  sub_from re repl prev O (c :: r) = c :: sub_from re repl (Some c) O r.
Proof. intros H. cbn [sub_from]. now rewrite H. Qed.

(** A blank line is taken out up to its last line break. *)
Lemma sub_blank_line_match prev w t :
  at_line_start prev = true -> forallb py_isspace w = true ->
  break_span t = None ->
  sub_from blank_line_pattern [] prev O (w ++ NL :: t)
  = sub_from blank_line_pattern [] (Some NL) O t.
Proof.
  intros Hp Hw Ht.
  assert (break_span (w ++ NL :: t) = Some (length w)) as Hspan.
  { clear Hp. induction w as [| c w IH].
    - cbn. now rewrite Ht.
    - cbn in Hw. apply andb_true_iff in Hw. destruct Hw as [Hc Hw].
      cbn [app break_span length]. rewrite Hc, (IH Hw). reflexivity. }
  destruct w as [| c w].
  - cbn [app]. cbn [sub_from]. rewrite match_length_blank_line, Hp.
    cbn [app] in Hspan. rewrite Hspan. cbn.
    destruct t; reflexivity.
  - cbn [app]. cbn [sub_from]. rewrite match_length_blank_line, Hp.
    cbn [app] in Hspan. rewrite Hspan. cbn [fmap option_fmap option_map length app].
    replace (w ++ NL :: t) with ((w ++ [NL]) ++ t) by now rewrite <- app_assoc.
    replace (S (length w)) with (length (w ++ [NL])) by (rewrite length_app; cbn; lia).
    rewrite sub_from_skip. unfold prev_after. now rewrite last_snoc.
Qed.

Lemma no_blank_line_prev p1 p2 s :
  at_line_start p1 = at_line_start p2 -> no_blank_line p1 s = no_blank_line p2 s.
Proof. intros H. destruct s; [reflexivity |]. cbn. now rewrite H. Qed.

Lemma not_is_Some_None {A} (o : option A) :
  negb (bool_decide (is_Some o)) = true <-> o = None.
Proof.
  rewrite negb_true_iff, bool_decide_eq_false. split.
  - intros H. destruct o; [| reflexivity]. exfalso. eauto.
  - intros -> [x Hx]. discriminate.
Qed.

(** Taking out blank lines does not create a line break in the leading
    whitespace. *)
Lemma break_span_sub_blank_line prev s :
  break_span s = None ->
  break_span (sub_from blank_line_pattern [] prev O s) = None.
Proof.
  revert prev. induction s as [| c r IH]; intros prev H; [reflexivity |].
  rewrite sub_from_no_match.
  - cbn [break_span] in *. destruct (py_isspace c); [| reflexivity].
    destruct (break_span r); [discriminate |].
    rewrite (IH (Some c) eq_refl). exact H.
  - rewrite match_length_blank_line, H. now destruct (at_line_start prev).
Qed.

(** After [re.sub(r'^\s*\n', '', s, flags=re.MULTILINE)] no line is
    blank. *)
Lemma sub_blank_line_no_blank_line n : forall s prev,
  (length s <= n)%nat ->
  no_blank_line prev (sub_from blank_line_pattern [] prev O s) = true.
Proof.
  induction n as [| n IH]; intros s prev Hlen.
  - destruct s; [reflexivity | cbn in Hlen; lia].
  - destruct s as [| c r]; [reflexivity |].
    destruct (at_line_start prev) eqn:Hp.
    + destruct (break_span (c :: r)) as [m |] eqn:Hspan.
      * destruct (break_span_some _ _ Hspan) as (w & t & Heq & _ & Hw & Ht).
        rewrite Heq, sub_blank_line_match by assumption.
        rewrite (no_blank_line_prev prev (Some NL)) by (rewrite Hp; reflexivity).
        apply IH. apply (f_equal (@length N)) in Heq.
        rewrite length_app in Heq. cbn in Heq, Hlen. lia.
      * pose proof (break_span_sub_blank_line prev _ Hspan) as Hout.
        rewrite sub_from_no_match in *
          by (rewrite match_length_blank_line, Hp, Hspan; reflexivity).
        cbn [no_blank_line]. rewrite Hout. cbn.
        rewrite orb_true_r. cbn. apply IH. cbn in Hlen. lia.
    + rewrite sub_from_no_match
        by (rewrite match_length_blank_line, Hp; reflexivity).
      cbn [no_blank_line]. rewrite Hp. cbn. apply IH. cbn in Hlen. lia.
Qed.

Lemma no_blank_line_cons prev c r :
  no_blank_line prev (c :: r) = true ->
  (at_line_start prev = true -> break_span (c :: r) = None)
  /\ no_blank_line (Some c) r = true.
Proof.
  cbn [no_blank_line]. intros H. apply andb_true_iff in H. destruct H as [H1 H2].
  split; [| exact H2]. intros Hp. rewrite Hp in H1. cbn in H1.
  now apply not_is_Some_None in H1.
Qed.

(** On a text without blank lines both substitutions find nothing. *)
Lemma sub_blank_line_id repl s : forall prev,
  no_blank_line prev s = true ->
  sub_from blank_line_pattern repl prev O s = s.
Proof.
  induction s as [| c r IH]; intros prev H; [reflexivity |].
  apply no_blank_line_cons in H. destruct H as [H1 H2].
  rewrite sub_from_no_match, IH; auto.
  rewrite match_length_blank_line.
  destruct (at_line_start prev); [| reflexivity]. now rewrite H1.
Qed.

Lemma star_match_some class k taken prev s lens :
  star_match class k taken prev s = Some lens ->
  exists w t prev', s = w ++ t /\ forallb class w = true /\ is_Some (k prev' t).
Proof.
  revert taken prev lens. induction s as [| c r IH]; intros taken prev lens H.
  - cbn in H. exists [], [], prev. destruct (k prev []); [eauto | discriminate].
  - cbn [star_match] in H.
    assert (cons taken <$> k prev (c :: r) = Some lens ->
            exists w t prev', c :: r = w ++ t /\ forallb class w = true
                              /\ is_Some (k prev' t)) as Hstop.
    { intros Hk. exists [], (c :: r), prev.
      destruct (k prev (c :: r)); [eauto | discriminate]. }
    destruct (class c) eqn:Hc; [| auto].
    destruct (star_match class k (S taken) (Some c) r) as [lens' |] eqn:Hs; [| auto].
    destruct (IH _ _ _ Hs) as (w & t & prev' & -> & Hw & Hk).
    exists (c :: w), t, prev'. cbn. rewrite Hc, Hw. auto.
Qed.

Lemma match_blank_run prev s n :
  match_length blank_run_pattern prev s = Some n ->
  exists r, s = NL :: r /\ is_Some (break_span r).
Proof.
  unfold match_length, blank_run_pattern. cbn [match_here].
  destruct s as [| x r]; [discriminate |].
  destruct (N.eqb_spec x NL) as [-> | Hx]; [| discriminate].
  destruct (star_match _ _ _ _ r) as [lens |] eqn:Hs; [| discriminate].
  intros _. exists r. split; [reflexivity |].
  destruct (star_match_some _ _ _ _ _ _ Hs) as (w & t & prev' & -> & Hw & Hk).
  destruct t as [| y t]; [now destruct Hk |].
  cbn [match_here] in Hk.
  destruct (N.eqb_spec y NL) as [-> | Hy]; [| now destruct Hk].
  now apply break_span_whitespace_break.
Qed.

Lemma sub_blank_run_id repl s : forall prev,
  no_blank_line prev s = true ->
  sub_from blank_run_pattern repl prev O s = s.
Proof.
  induction s as [| c r IH]; intros prev H; [reflexivity |].
  apply no_blank_line_cons in H. destruct H as [_ H2].
  cbn [sub_from].
  destruct (match_length blank_run_pattern prev (c :: r)) as [[| n] |] eqn:Hm;
    try (now rewrite IH).
  exfalso. apply match_blank_run in Hm.
  destruct Hm as (r' & [= -> <-] & [m Hspan]).
  destruct r as [| d r]; [discriminate |].
  apply no_blank_line_cons in H2. destruct H2 as [H2 _].
  rewrite H2 in Hspan by reflexivity. discriminate.
Qed.

Lemma take_drop_while {A} (p : A -> bool) (l : list A) :
  take_while p l ++ drop_while p l = l.
Proof.
  induction l as [| x l IH]; [reflexivity |].
  cbn. destruct (p x); [cbn; now rewrite IH | reflexivity].
Qed.

Lemma drop_while_idem {A} (p : A -> bool) (l : list A) :
  drop_while p (drop_while p l) = drop_while p l.
Proof.
  induction l as [| x l IH]; [reflexivity |].
  cbn. destruct (p x) eqn:Hx; [exact IH |]. cbn. now rewrite Hx.
Qed.

(** What [rstrip] takes away is a suffix. *)
Lemma rstrip_by_suffix p (s : str) : exists w, s = rstrip_by p s ++ w.
Proof.
  unfold rstrip_by. exists (rev (take_while p (rev s))).
  rewrite <- rev_app_distr, take_drop_while. now rewrite rev_involutive.
Qed.

Lemma drop_while_snoc_keep {A} (p : A -> bool) (l : list A) (x : A) :
  p x = false -> exists l', drop_while p (l ++ [x]) = l' ++ [x].
Proof.
  intros Hx. induction l as [| y l IH].
  - exists []. cbn. now rewrite Hx.
  - cbn. destruct (p y); [exact IH |]. now exists (y :: l).
Qed.

(** A stripped text starts and ends with a character that is kept. *)
Lemma strip_by_idem p (s : str) : strip_by p (strip_by p s) = strip_by p s.
Proof.
  unfold strip_by, rstrip_by, lstrip_by.
  destruct (drop_while p s) as [| x t] eqn:Ht; [reflexivity |].
  assert (p x = false) as Hx.
  { clear -Ht. induction s as [| y s IH]; [discriminate |].
    cbn in Ht. destruct (p y) eqn:Hy; [auto |]. now injection Ht as -> _. }
  cbn [rev]. destruct (drop_while_snoc_keep p (rev t) x Hx) as [l' Hl'].
  rewrite Hl'.
  assert (drop_while p (rev (l' ++ [x])) = rev (l' ++ [x])) as ->.
  { rewrite rev_app_distr. cbn. now rewrite Hx. }
  rewrite rev_involutive, <- Hl'. now rewrite drop_while_idem.
Qed.

Lemma no_blank_line_app_l u w : forall prev,
  no_blank_line prev (u ++ w) = true -> no_blank_line prev u = true.
Proof.
  induction u as [| c u IH]; intros prev H; [reflexivity |].
  cbn [app] in H. apply no_blank_line_cons in H. destruct H as [H1 H2].
  cbn [no_blank_line]. rewrite (IH _ H2), andb_true_r.
  destruct (at_line_start prev); [| reflexivity]. cbn [negb orb].
  apply not_is_Some_None.
  destruct (break_span (c :: u)) as [m |] eqn:Hspan; [| reflexivity].
  assert (is_Some (break_span ((c :: u) ++ w))) as [m' Hm']
      by (apply break_span_app_some; eauto).
  cbn [app] in Hm'. rewrite H1 in Hm' by reflexivity. discriminate.
Qed.

Lemma no_blank_line_lstrip s : forall prev,
  no_blank_line prev s = true ->
  no_blank_line None (lstrip_by py_isspace s) = true.
Proof.
  unfold lstrip_by. induction s as [| c r IH]; intros prev H; [reflexivity |].
  apply no_blank_line_cons in H. destruct H as [_ H2].
  cbn [drop_while]. destruct (py_isspace c) eqn:Hc; [now apply (IH (Some c)) |].
  cbn [no_blank_line break_span]. now rewrite Hc, H2.
Qed.

Lemma no_blank_line_strip s prev :
  no_blank_line prev s = true -> no_blank_line None (strip s) = true.
Proof.
  intros H. unfold strip, strip_by.
  destruct (rstrip_by_suffix py_isspace (lstrip_by py_isspace s)) as [w Hw].
  apply (no_blank_line_app_l _ w). rewrite <- Hw.
  now apply (no_blank_line_lstrip s prev).
Qed.

Lemma collapse_whitespace_clean s : clean (collapse_whitespace s).
Proof.
  unfold clean, collapse_whitespace. split.
  - apply (no_blank_line_strip _ None). unfold re_sub.
    now apply (sub_blank_line_no_blank_line (length (sub_from blank_run_pattern [NL; NL] None 0 s))).
  - apply strip_by_idem.
Qed.

Lemma collapse_whitespace_fixes_clean s : clean s -> collapse_whitespace s = s.
Proof.
  intros [Hb Hs]. unfold collapse_whitespace, re_sub.
  rewrite sub_blank_run_id by assumption.
  rewrite sub_blank_line_id by assumption.
  exact Hs.
Qed.

(** C8: the whitespace clean-up applied after link removal (collapse of
    blank-line runs, removal of blank lines, strip) is idempotent: its
    result is clean, it returns every clean text unchanged, and applying it
    twice is the same as applying it once.  The same holds of
    [clean_report_content], taken to be this clean-up. *)
Theorem collapse_whitespace_idempotent :
  (forall s, clean (collapse_whitespace s))
  /\ (forall s, clean s -> collapse_whitespace s = s)
  /\ (forall s, collapse_whitespace (collapse_whitespace s) = collapse_whitespace s)
  /\ (forall s, clean s -> clean_report_content s = s)
  /\ (forall s, clean_report_content (clean_report_content s)
                = clean_report_content s).
Proof.
  assert (forall s, collapse_whitespace (collapse_whitespace s)
                    = collapse_whitespace s) as Hidem.
  { intros s. apply collapse_whitespace_fixes_clean, collapse_whitespace_clean. }
  split; [exact collapse_whitespace_clean |].
  split; [exact collapse_whitespace_fixes_clean |].
  split; [exact Hidem |].
  split; [exact collapse_whitespace_fixes_clean | exact Hidem].
Qed.

Lemma collapse_whitespace_idempotent_witness :
  collapse_whitespace (U "Intro
second line
  indented
end")
  = U "Intro
second line
  indented
end".
Proof.
  apply (proj1 (proj2 collapse_whitespace_idempotent)).
  split; vm_compute; reflexivity.
Defined.

(** ** Link verification *)

(** A report laid out flat: stretches of text without an opening bracket,
    and links whose text and address are non-empty and hold no opening
    bracket, the text no closing bracket and the address no closing
    parenthesis. *)
Inductive piece :=
| Text (s : str)
| Link (text url : str).

Definition has_char (c : N) (s : str) : bool := existsb (N.eqb c) s.

Definition piece_ok (p : piece) : bool :=
  match p with
  | Text s => negb (has_char LBRACKET s)
  | Link text url =>
    str_truthy text && negb (has_char LBRACKET text) && negb (has_char RBRACKET text)
    && str_truthy url && negb (has_char LBRACKET url) && negb (has_char RPAREN url)
  end.

Definition render_piece (p : piece) : str :=
  match p with
  | Text s => s
  | Link text url => markdown_span text url
  end.

Definition render_doc (doc : list piece) : str := concat (map render_piece doc).

Definition doc_links (doc : list piece) : list (str * str) :=
  omap (fun p => match p with Link text url => Some (text, url) | Text _ => None end) doc.

Definition link_eqb (a b : str * str) : bool := bool_decide (a = b).

(** The piece is one of the given links. *)
Definition is_link_in (links : list (str * str)) (p : piece) : bool :=
  match p with
  | Link text url => existsb (link_eqb (text, url)) links
  | Text _ => false
  end.

Definition without_links (links : list (str * str)) (doc : list piece) : list piece :=
  List.filter (fun p => negb (is_link_in links p)) doc.

Lemma has_char_false c s : has_char c s = false <-> ~ In c s.
Proof.
  unfold has_char. induction s as [| x s IH]; cbn; [tauto |].
  rewrite orb_false_iff, IH.
  destruct (N.eqb_spec c x) as [-> | Hx]; intuition congruence.
Qed.

Lemma has_char_cons c x s : has_char c (x :: s) = (c =? x) || has_char c s.
Proof. reflexivity. Qed.

Lemma has_char_app c s1 s2 : has_char c (s1 ++ s2) = has_char c s1 || has_char c s2.
Proof. unfold has_char. apply existsb_app. Qed.

Lemma startswith_app p r : startswith p (p ++ r) = true.
Proof. induction p as [| a p IH]; [reflexivity |]. cbn. now rewrite N.eqb_refl. Qed.

Lemma startswith_true p s : startswith p s = true -> exists r, s = p ++ r.
Proof.
  revert s. induction p as [| a p IH]; intros s H; [now exists s |].
  destruct s as [| b s]; [discriminate |]. cbn in H.
  apply andb_true_iff in H. destruct H as [Hab Hp].
  apply N.eqb_eq in Hab. subst b.
  destruct (IH s Hp) as [r ->]. now exists r.
Qed.

Lemma startswith_other_head a p c s : a <> c -> startswith (a :: p) (c :: s) = false.
Proof. intros H. cbn. now destruct (N.eqb_spec a c). Qed.

(** Two texts cut at the first occurrence of a character agree on both
    sides of it. *)
Lemma cut_unique (c : N) (a b x y : str) :
  ~ In c a -> ~ In c b -> a ++ c :: x = b ++ c :: y -> a = b /\ x = y.
Proof.
  revert b. induction a as [| a0 a IH]; intros b Ha Hb H.
  - destruct b as [| b0 b]; cbn in H.
    + injection H as ->. auto.
    + injection H as -> _. exfalso. apply Hb. now left.
  - destruct b as [| b0 b]; cbn in H.
    + injection H as -> _. exfalso. apply Ha. now left.
    + injection H as -> H. destruct (IH b) as [-> ->]; auto.
      * intros Hin. apply Ha. now right.
      * intros Hin. apply Hb. now right.
Qed.

(** The characters of a link after its opening bracket. *)
Definition span_body (text url : str) : str :=
  text ++ [RBRACKET; LPAREN] ++ url ++ [RPAREN].

Lemma markdown_span_body text url :
  markdown_span text url = LBRACKET :: span_body text url.
Proof. reflexivity. Qed.

Lemma link_ok_parts text url :
  piece_ok (Link text url) = true ->
  text <> [] /\ ~ In LBRACKET text /\ ~ In RBRACKET text
  /\ url <> [] /\ ~ In LBRACKET url /\ ~ In RPAREN url.
Proof.
  cbn [piece_ok]. rewrite !andb_true_iff, !negb_true_iff, !has_char_false.
  intros [[[[[Ht H1] H2] Hu] H3] H4].
  repeat split; auto; intros ->; discriminate.
Qed.

Lemma span_body_no_bracket text url :
  piece_ok (Link text url) = true -> has_char LBRACKET (span_body text url) = false.
Proof.
  intros H. apply link_ok_parts in H. destruct H as (_ & H1 & _ & _ & H3 & _).
  apply has_char_false in H1, H3.
  unfold span_body. rewrite !has_char_app, H1, H3. reflexivity.
Qed.

Lemma span_prefix_same text url text' url' rest :
  piece_ok (Link text url) = true -> piece_ok (Link text' url') = true ->
  startswith (markdown_span text url) (markdown_span text' url' ++ rest) = true ->
  (text, url) = (text', url').
Proof.
  intros H H' Hs. apply startswith_true in Hs. destruct Hs as [r Hr].
  apply link_ok_parts in H, H'.
  destruct H as (_ & _ & Ht & _ & _ & Hu), H' as (_ & _ & Ht' & _ & _ & Hu').
  rewrite !markdown_span_body in Hr. unfold span_body in Hr.
  cbn [app] in Hr. injection Hr as Hr.
  rewrite <- !app_assoc in Hr. cbn [app] in Hr.
  apply cut_unique in Hr; auto. destruct Hr as [-> Hr].
  injection Hr as Hr. rewrite <- ?app_assoc in Hr. cbn [app] in Hr.
  apply cut_unique in Hr; auto. destruct Hr as [-> _]. reflexivity.
Qed.

(** *** Removing the span of a link from a flat report *)

Section ReplaceSpan.

Variables (text url : str).
Hypothesis link_ok : piece_ok (Link text url) = true.

Let old := markdown_span text url.

Lemma replace_from_skip new a b :
  replace_from old new (length a) (a ++ b) = replace_from old new O b.
Proof.
  induction a as [| c a IH]; [cbn; now destruct b | exact IH].
Qed.

Lemma replace_plain s rest :
  has_char LBRACKET s = false ->
  replace_from old [] O (s ++ rest) = s ++ replace_from old [] O rest.
Proof.
  induction s as [| c s IH]; intros H; [reflexivity |].
  rewrite has_char_cons in H. apply orb_false_iff in H. destruct H as [Hc Hs].
  cbn [app replace_from]. unfold old at 1. rewrite markdown_span_body.
  rewrite startswith_other_head
    by (intros Heq; subst c; now rewrite N.eqb_refl in Hc).
  now rewrite IH.
Qed.

Lemma replace_same rest :
  replace_from old [] O (old ++ rest) = replace_from old [] O rest.
Proof.
  unfold old at 2. rewrite markdown_span_body. cbn [app replace_from].
  change (LBRACKET :: span_body text url ++ rest) with (old ++ rest).
  rewrite startswith_app. cbn [app].
  replace (Nat.pred (length old)) with (length (span_body text url))
    by (unfold old; rewrite markdown_span_body; reflexivity).
  apply replace_from_skip.
Qed.

Lemma replace_other text' url' rest :
  piece_ok (Link text' url') = true -> (text', url') <> (text, url) ->
  replace_from old [] O (markdown_span text' url' ++ rest)
  = markdown_span text' url' ++ replace_from old [] O rest.
Proof.
  intros H' Hne. rewrite markdown_span_body. cbn [app replace_from].
  change (LBRACKET :: span_body text' url' ++ rest)
    with (markdown_span text' url' ++ rest).
  destruct (startswith old (markdown_span text' url' ++ rest)) eqn:Hs.
  - apply span_prefix_same in Hs; auto. congruence.
  - f_equal. apply replace_plain. now apply span_body_no_bracket.
Qed.

Lemma replace_render_doc doc :
  forallb piece_ok doc = true ->
  replace old [] (render_doc doc) = render_doc (without_links [(text, url)] doc).
Proof.
  unfold replace, render_doc, without_links.
  induction doc as [| p doc IH]; intros H; [reflexivity |].
  cbn in H. apply andb_true_iff in H. destruct H as [Hp Hdoc].
  cbn [map concat List.filter]. destruct p as [s | text' url'].
  - cbn [is_link_in negb render_piece]. cbn [map concat].
    rewrite replace_plain by (cbn in Hp; now apply negb_true_iff in Hp).
    now rewrite IH.
  - cbn [is_link_in existsb render_piece]. rewrite orb_false_r.
    unfold link_eqb. destruct (decide ((text', url') = (text, url))) as [[= -> ->] | Hne].
    + rewrite bool_decide_eq_true_2 by reflexivity. cbn [negb].
      fold old. rewrite replace_same. now apply IH.
    + rewrite bool_decide_eq_false_2 by assumption. cbn [negb map concat render_piece].
      rewrite replace_other by assumption. now rewrite IH.
Qed.

End ReplaceSpan.

Lemma contains_startswith p s : startswith p s = true -> contains p s = true.
Proof. intros H. destruct s; cbn [contains]; now rewrite H. Qed.

Section ContainsSpan.

Variables (text url : str).
Hypothesis link_ok : piece_ok (Link text url) = true.

Let old := markdown_span text url.

Lemma contains_plain s rest :
  has_char LBRACKET s = false -> contains old (s ++ rest) = contains old rest.
Proof.
  induction s as [| c s IH]; intros H; [reflexivity |].
  rewrite has_char_cons in H. apply orb_false_iff in H. destruct H as [Hc Hs].
  cbn [app contains]. unfold old at 1. rewrite markdown_span_body.
  rewrite startswith_other_head
    by (intros Heq; subst c; now rewrite N.eqb_refl in Hc).
  now rewrite IH.
Qed.

Lemma contains_other text' url' rest :
  piece_ok (Link text' url') = true -> (text', url') <> (text, url) ->
  contains old (markdown_span text' url' ++ rest) = contains old rest.
Proof.
  intros H' Hne. rewrite markdown_span_body. cbn [app contains].
  change (LBRACKET :: span_body text' url' ++ rest)
    with (markdown_span text' url' ++ rest).
  destruct (startswith old (markdown_span text' url' ++ rest)) eqn:Hs.
  - apply span_prefix_same in Hs; auto. congruence.
  - cbn [orb]. apply contains_plain. now apply span_body_no_bracket.
Qed.

Lemma contains_render_doc doc :
  forallb piece_ok doc = true ->
  contains old (render_doc doc) = existsb (is_link_in [(text, url)]) doc.
Proof.
  unfold render_doc. induction doc as [| p doc IH]; intros H; [reflexivity |].
  cbn in H. apply andb_true_iff in H. destruct H as [Hp Hdoc].
  cbn [map concat existsb]. destruct p as [s | text' url'].
  - cbn [is_link_in orb render_piece].
    rewrite contains_plain by (cbn in Hp; now apply negb_true_iff in Hp).
    now apply IH.
  - cbn [is_link_in existsb render_piece]. rewrite orb_false_r.
    unfold link_eqb. destruct (decide ((text', url') = (text, url))) as [[= -> ->] | Hne].
    + rewrite bool_decide_eq_true_2 by reflexivity. cbn [orb].
      fold old. apply contains_startswith, startswith_app.
    + rewrite bool_decide_eq_false_2 by assumption. cbn [orb].
      rewrite contains_other by assumption. now apply IH.
Qed.

End ContainsSpan.

Lemma forallb_filter {A} (p q : A -> bool) (l : list A) :
  forallb p l = true -> forallb p (List.filter q l) = true.
Proof.
  induction l as [| x l IH]; [reflexivity |]. cbn.
  intros H. apply andb_true_iff in H. destruct H as [Hx Hl].
  destruct (q x); cbn; [rewrite Hx |]; auto.
Qed.

Lemma without_links_cons link links doc :
  without_links (link :: links) doc = without_links links (without_links [link] doc).
Proof.
  unfold without_links. induction doc as [| p doc IH]; [reflexivity |].
  cbn [List.filter]. destruct p as [s | text url].
  - cbn [is_link_in negb List.filter]. now rewrite IH.
  - cbn [is_link_in existsb]. rewrite orb_false_r.
    destruct (link_eqb (text, url) link); cbn [orb negb List.filter is_link_in].
    + exact IH.
    + rewrite IH. reflexivity.
Qed.

(** The removal pass on a flat report leaves the report without the
    broken links. *)
Lemma remove_broken_render_doc broken : forall doc,
  forallb piece_ok doc = true ->
  forallb (fun '(text, url) => piece_ok (Link text url)) broken = true ->
  remove_broken broken (render_doc doc) = render_doc (without_links broken doc).
Proof.
  unfold remove_broken.
  induction broken as [| [text url] broken IH]; intros doc Hdoc Hb.
  - cbn. unfold without_links.
    rewrite List.forallb_filter_id; [reflexivity |].
    clear. induction doc as [| [s | text url] doc IH]; auto.
  - cbn in Hb. apply andb_true_iff in Hb. destruct Hb as [Hlink Hb].
    cbn [fold_left]. rewrite replace_render_doc by assumption.
    rewrite IH; [| now apply forallb_filter | assumption].
    now rewrite <- without_links_cons.
Qed.

Lemma existsb_without_links links link doc :
  In link links -> existsb (is_link_in [link]) (without_links links doc) = false.
Proof.
  intros Hin. unfold without_links.
  induction doc as [| p doc IH]; [reflexivity |].
  cbn [List.filter]. destruct (is_link_in links p) eqn:Hp; cbn [negb]; [exact IH |].
  cbn [existsb]. rewrite IH, orb_false_r.
  destruct p as [s | text url]; [reflexivity |].
  cbn [is_link_in existsb] in *. rewrite orb_false_r.
  unfold link_eqb in *. apply bool_decide_eq_false. intros Heq. subst link.
  assert (existsb (fun b => bool_decide ((text, url) = b)) links = true) as Hex.
  { apply existsb_exists. exists (text, url). split; [assumption |].
    now apply bool_decide_eq_true. }
  congruence.
Qed.

(** *** Finding the links of a flat report *)

Lemma forallb_not_char c s : ~ In c s -> forallb (not_char c) s = true.
Proof.
  intros H. apply forallb_forall. intros x Hx. unfold not_char.
  apply negb_true_iff, N.eqb_neq. intros ->. contradiction.
Qed.

(** A repetition followed by a pattern that matches right after the
    longest run of the class takes the whole run. *)
Lemma star_match_run class k w : forall taken prev t lens,
  forallb class w = true ->
  match t with c :: _ => class c = false | [] => True end ->
  k (prev_after prev w) t = Some lens ->
  star_match class k taken prev (w ++ t) = Some ((taken + length w)%nat :: lens).
Proof.
  induction w as [| x w IH]; intros taken prev t lens Hw Ht Hk.
  - cbn [app length]. rewrite Nat.add_0_r. unfold prev_after in Hk. cbn in Hk.
    destruct t as [| c r]; cbn [star_match]; [now rewrite Hk |].
    rewrite Ht. now rewrite Hk.
  - cbn in Hw. apply andb_true_iff in Hw. destruct Hw as [Hx Hw].
    cbn [app star_match]. rewrite Hx.
    rewrite prev_after_cons in Hk.
    rewrite (IH (S taken) (Some x) t lens Hw Ht Hk).
    cbn [length]. do 2 f_equal. lia.
Qed.

Lemma match_here_chr c re prev r :
  match_here (Chr c :: re) prev (c :: r) = cons 1%nat <$> match_here re (Some c) r.
Proof. cbn [match_here]. now rewrite N.eqb_refl. Qed.

Lemma match_here_plus class re prev x r :
  class x = true ->
  match_here (Plus class :: re) prev (x :: r)
  = star_match class (match_here re) 1 (Some x) r.
Proof. intros H. cbn [match_here]. now rewrite H. Qed.

Lemma match_link_none prev s :
  match s with c :: _ => c <> LBRACKET | [] => True end ->
  match_here link_pattern prev s = None.
Proof.
  destruct s as [| c s]; [reflexivity |]. intros H. cbn [link_pattern match_here].
  now destruct (N.eqb_spec c LBRACKET).
Qed.

Lemma match_link_span prev text url rest :
  piece_ok (Link text url) = true ->
  match_here link_pattern prev (markdown_span text url ++ rest)
  = Some [1; length text; 1; 1; length url; 1]%nat.
Proof.
  intros H. apply link_ok_parts in H.
  destruct H as (Ht & _ & Htr & Hu & _ & Hur).
  destruct text as [| x text]; [contradiction |].
  destruct url as [| y url]; [contradiction |].
  assert (not_char RBRACKET x = true /\ forallb (not_char RBRACKET) text = true)
    as [Hx Htext].
  { apply andb_true_iff. apply (forallb_not_char RBRACKET (x :: text) Htr). }
  assert (not_char RPAREN y = true /\ forallb (not_char RPAREN) url = true)
    as [Hy Hurl].
  { apply andb_true_iff. apply (forallb_not_char RPAREN (y :: url) Hur). }
  unfold markdown_span, link_pattern.
  rewrite <- !app_assoc. cbn [app].
  rewrite match_here_chr, (match_here_plus _ _ _ _ _ Hx).
  rewrite (star_match_run _ _ text 1%nat (Some x)
             (RBRACKET :: LPAREN :: y :: url ++ RPAREN :: rest)
             [1; 1; 1 + length url; 1]%nat Htext eq_refl); [reflexivity |].
  rewrite !match_here_chr, (match_here_plus _ _ _ _ _ Hy).
  rewrite (star_match_run _ _ url 1%nat (Some y) (RPAREN :: rest) [1%nat]
             Hurl eq_refl); [reflexivity |].
  now rewrite match_here_chr.
Qed.

Lemma finditer_from_skip re prev a b :
  finditer_from re prev (length a) (a ++ b)
  = finditer_from re (prev_after prev a) O b.
Proof.
  revert prev. induction a as [| c a IH]; intros prev.
  - cbn. destruct b; reflexivity.
  - cbn [length app finditer_from]. rewrite IH. now rewrite prev_after_cons.
Qed.

Lemma finditer_plain s : forall prev rest,
  has_char LBRACKET s = false ->
  finditer_from link_pattern prev O (s ++ rest)
  = finditer_from link_pattern (prev_after prev s) O rest.
Proof.
  induction s as [| c s IH]; intros prev rest H; [reflexivity |].
  rewrite has_char_cons in H. apply orb_false_iff in H. destruct H as [Hc Hs].
  cbn [app finditer_from]. rewrite match_link_none.
  - rewrite IH by assumption. now rewrite prev_after_cons.
  - intros ->. now rewrite N.eqb_refl in Hc.
Qed.

Lemma finditer_link prev text url rest :
  piece_ok (Link text url) = true ->
  finditer_from link_pattern prev O (markdown_span text url ++ rest)
  = (markdown_span text url ++ rest, [1; length text; 1; 1; length url; 1]%nat)
      :: finditer_from link_pattern (Some RPAREN) O rest.
Proof.
  intros H.
  pose proof (match_link_span prev text url rest H) as Hm.
  rewrite markdown_span_body in *. cbn [app finditer_from] in *.
  rewrite Hm. cbn [foldr].
  replace (1 + (length text + (1 + (1 + (length url + (1 + 0))))))%nat
    with (S (length (span_body text url)))
    by (unfold span_body; rewrite !length_app; cbn [length]; lia).
  f_equal. rewrite finditer_from_skip. f_equal.
  unfold prev_after, span_body.
  rewrite !app_assoc. now rewrite last_snoc.
Qed.

Lemma atom_text_link text url rest :
  let s := markdown_span text url ++ rest in
  let lens := [1; length text; 1; 1; length url; 1]%nat in
  atom_text lens 1 s = text /\ atom_text lens 4 s = url.
Proof.
  cbv zeta. unfold atom_text, markdown_span. cbn [nth take foldr]. split.
  - cbn [app drop Nat.add]. rewrite drop_0, <- app_assoc. apply take_app_length.
  - replace (1 + (length text + (1 + (1 + 0))))%nat
      with (length ([LBRACKET] ++ text ++ [RBRACKET; LPAREN]))
      by (rewrite !length_app; cbn [length]; lia).
    rewrite <- !app_assoc.
    replace ([LBRACKET] ++ text ++ [RBRACKET; LPAREN] ++ url ++ [RPAREN] ++ rest)
      with (([LBRACKET] ++ text ++ [RBRACKET; LPAREN]) ++ url ++ [RPAREN] ++ rest)
      by (now rewrite <- !app_assoc).
    rewrite drop_app_length. now rewrite take_app_length.
Qed.

(** [re.findall] on a flat report gives its links, in order. *)
Lemma find_links_render_doc doc :
  forallb piece_ok doc = true -> find_links (render_doc doc) = doc_links doc.
Proof.
  unfold find_links, finditer, render_doc.
  generalize (@None N) as prev.
  induction doc as [| p doc IH]; intros prev H; [reflexivity |].
  cbn in H. apply andb_true_iff in H. destruct H as [Hp Hdoc].
  cbn [map concat doc_links omap]. destruct p as [s | text url].
  - cbn [render_piece]. rewrite finditer_plain
      by (cbn in Hp; now apply negb_true_iff in Hp).
    change (doc_links (Text s :: doc)) with (doc_links doc).
    now apply IH.
  - cbn [render_piece]. rewrite finditer_link by assumption.
    change (doc_links (Link text url :: doc)) with ((text, url) :: doc_links doc).
    cbn [map]. destruct (atom_text_link text url (concat (map render_piece doc)))
      as [-> ->].
    f_equal. now apply IH.
Qed.

(** *** The checking loop *)

Section CheckLinks.

Variable base_url : str.
Variable head : nat -> str -> head_outcome.

Lemma link_works_iff i url :
  link_works base_url head i url = true
  <-> startswith (base_url ++ U "/data/") url = true
      \/ exists code, head i url = HeadStatus code /\ (code < 400)%Z.
Proof.
  unfold link_works, own_document.
  destruct (startswith (base_url ++ U "/data/") url); [tauto |].
  destruct (head i url) as [code | e].
  - rewrite Z.ltb_lt. split.
    + intros H. right. eauto.
    + intros [H | (code' & [= <-] & H)]; [discriminate | exact H].
  - split; [discriminate |]. intros [H | (code & H & _)]; discriminate.
Qed.

Lemma check_links_lists links : forall i,
  let r := check_links base_url head i links in
  (forall l, In l r.2.1 <->
             exists k, links !! k = Some l
                       /\ link_works base_url head (i + k) l.2 = true)
  /\ (forall l, In l r.2.2 <->
                exists k, links !! k = Some l
                          /\ link_works base_url head (i + k) l.2 = false)
  /\ Forall (fun q => head_timeout q = 10 /\ head_follow_redirects q = true) r.1.
Proof.
  induction links as [| [text url] links IH]; intros i; cbv zeta.
  - cbn. repeat split; try contradiction; try constructor.
    + intros (k & Hk & _). discriminate.
    + intros (k & Hk & _). discriminate.
  - cbn [check_links]. specialize (IH (S i)). cbv zeta in IH.
    destruct (check_links base_url head (S i) links) as [reqs [verified broken]].
    cbn [fst snd] in IH. destruct IH as (IHv & IHb & IHr).
    assert (forall (P : nat -> Prop) (l : str * str),
      (exists k, ((text, url) :: links) !! k = Some l /\ P k)
      <-> ((text, url) = l /\ P 0%nat)
          \/ exists k, links !! k = Some l /\ P (S k)) as Hidx.
    { intros P l. split.
      - intros ([| k] & Hk & HP); cbn in Hk.
        + left. injection Hk as <-. auto.
        + right. eauto.
      - intros [[<- HP] | (k & Hk & HP)]; [exists 0%nat | exists (S k)]; auto. }
    split; [| split].
    + intros l. rewrite (Hidx (fun k => link_works base_url head (i + k) l.2 = true)).
      rewrite Nat.add_0_r.
      setoid_rewrite Nat.add_succ_r.
      destruct (link_works base_url head i url) eqn:Hw; cbn [fst snd In].
      * rewrite IHv. split.
        -- intros [<- | H]; [left; auto | right; exact H].
        -- intros [[<- _] | H]; [left; auto | right; exact H].
      * rewrite IHv. split.
        -- intros H. right. exact H.
        -- intros [[<- H] | H]; [cbn in H; congruence | exact H].
    + intros l. rewrite (Hidx (fun k => link_works base_url head (i + k) l.2 = false)).
      rewrite Nat.add_0_r.
      setoid_rewrite Nat.add_succ_r.
      destruct (link_works base_url head i url) eqn:Hw; cbn [fst snd In].
      * rewrite IHb. split.
        -- intros H. right. exact H.
        -- intros [[<- H] | H]; [cbn in H; congruence | exact H].
      * rewrite IHb. split.
        -- intros [<- | H]; [left; auto | right; exact H].
        -- intros [[<- _] | H]; [left; auto | right; exact H].
    + cbn [fst]. apply Forall_app. split; [| exact IHr].
      unfold head_requests_of. destruct (own_document base_url url);
        repeat constructor.
Qed.

End CheckLinks.

(** The broken links of a flat report are links of the report. *)
Lemma doc_links_ok doc :
  forallb piece_ok doc = true ->
  forallb (fun '(text, url) => piece_ok (Link text url)) (doc_links doc) = true.
Proof.
  induction doc as [| [s | text url] doc IH]; intros H; [reflexivity | |];
    cbn in H; apply andb_true_iff in H; destruct H as [Hp Hdoc].
  - now apply IH.
  - change (doc_links (Link text url :: doc)) with ((text, url) :: doc_links doc).
    cbn [forallb]. rewrite (IH Hdoc), andb_true_r. exact Hp.
Qed.

(** *** The summary *)

Lemma working_links_le_total cases : (working_links cases <= total_links cases)%nat.
Proof.
  unfold working_links, total_links.
  induction cases as [| c cases IH]; cbn [map foldr]; [lia |].
  destruct (verified_links c) as [links |]; [| lia].
  pose proof (List.filter_length_le is_working_link links). lia.
Qed.

Section VerifyLinksProperties.

Variable base_url : str.
Variable head : nat -> str -> head_outcome.
Variable format_ratio_1f : nat -> nat -> str.

(** X24: a link found in the report is classified as working if and only
    if its address starts with the path of the system's own documents
    ([BASE_URL] followed by [/data/]) or its HEAD request returns a status
    below 400; every other status and every exception make it broken.
    Every request is sent with a timeout of 10 seconds and follows
    redirects.  On a report laid out flat (links whose text and address
    hold no opening bracket, separated by text without one) the links found
    are the links of the layout, and the text the removal loop hands to the
    whitespace clean-up is the report without its broken links: it contains
    the span of none of them.  The summary gives the percentage 0.0 when no
    link was counted. *)
Theorem broken_links_removed_from_flat_report :
  (forall i url,
      link_works base_url head i url = true
      <-> startswith (base_url ++ U "/data/") url = true
          \/ exists code, head i url = HeadStatus code /\ (code < 400)%Z)
  /\ (forall links,
         let r := check_links base_url head 0 links in
         (forall l, In l r.2.1 <->
                    exists k, links !! k = Some l
                              /\ link_works base_url head k l.2 = true)
         /\ (forall l, In l r.2.2 <->
                       exists k, links !! k = Some l
                                 /\ link_works base_url head k l.2 = false)
         /\ Forall (fun q => head_timeout q = 10 /\ head_follow_redirects q = true)
                   r.1)
  /\ (forall doc,
         forallb piece_ok doc = true ->
         let broken :=
           (check_links base_url head 0 (find_links (render_doc doc))).2.2 in
         find_links (render_doc doc) = doc_links doc
         /\ remove_broken broken (render_doc doc)
            = render_doc (without_links broken doc)
         /\ Forall (fun l : str * str =>
                      contains (markdown_span l.1 l.2)
                               (remove_broken broken (render_doc doc)) = false)
                   broken)
  /\ (forall cases,
         total_links cases = 0%nat ->
         verification_summary format_ratio_1f cases
         = summary_block (U "0") (U "0")
                         (str_of_N (N.of_nat (broken_links_count cases))) (U "0.0")).
Proof.
  split; [apply link_works_iff |].
  split; [intros links; apply (check_links_lists base_url head links 0) |].
  split.
  - intros doc Hdoc. cbv zeta.
    pose proof (find_links_render_doc doc Hdoc) as Hlinks. rewrite Hlinks.
    destruct (check_links_lists base_url head (doc_links doc) 0) as (_ & Hb & _).
    cbv zeta in Hb.
    set (broken := (check_links base_url head 0 (doc_links doc)).2.2) in *.
    assert (forallb (fun '(text, url) => piece_ok (Link text url)) broken = true)
      as Hok.
    { apply forallb_forall. intros [text url] Hin.
      apply Hb in Hin. destruct Hin as (k & Hk & _).
      pose proof (doc_links_ok doc Hdoc) as Hall.
      rewrite forallb_forall in Hall.
      apply (Hall (text, url)). apply list_elem_of_In.
      eapply list_elem_of_lookup_2. exact Hk. }
    split; [reflexivity |].
    split; [now apply remove_broken_render_doc |].
    apply List.Forall_forall. intros [text url] Hin. cbn [fst snd].
    rewrite remove_broken_render_doc by assumption.
    rewrite forallb_forall in Hok.
    rewrite contains_render_doc.
    + now apply existsb_without_links.
    + apply (Hok (text, url) Hin).
    + now apply forallb_filter.
  - intros cases Ht. unfold verification_summary, percentage_text.
    pose proof (working_links_le_total cases) as Hw.
    rewrite Ht in *. assert (working_links cases = 0%nat) as -> by lia.
    reflexivity.
Qed.

End VerifyLinksProperties.

(** An endpoint behind which nothing answers with success. *)
Definition head_not_found (_ : nat) (_ : str) : head_outcome := HeadStatus 404.

(** An endpoint that answers the first check and is gone afterwards. *)
Definition head_gone_after_first (i : nat) (_ : str) : head_outcome :=
  match i with
  | O => HeadStatus 200
  | S _ => HeadStatus 404
  end.

Definition head_request_for (url : str) : head_request :=
  {| head_url := url; head_timeout := 10; head_follow_redirects := true |}.

(** A report of two paragraphs, the second with a link to a page that is
    gone. *)
Definition two_paragraphs : str :=
  U "First paragraph.

Second paragraph with a [dead link](https://gone.example/page).".

(** A report that cites one address twice, under a title that is broken
    over a blank line the first time. *)
Definition cited_twice : str :=
  U "[Annual

report](https://x.example/r) and again [Annual
report](https://x.example/r)".

(** A report in which a link stands inside the span of another. *)
Definition nested_spans : str := U "[t](u) [t][x](v)(u)".

(** C6: the code does not do what the claim says of the report it returns.
    The claim has runs of blank lines collapsed, leading blank lines removed
    and the span of every broken link removed.  The second substitution of
    the clean-up, commented [Remove empty lines at start], runs under
    [re.MULTILINE] and deletes every blank line: a report of two paragraphs
    with one dead link comes back with its paragraphs joined.  Through the
    same deletion, and through the deletion of one span inside another, the
    span of a broken link can stand in the report returned. *)
Theorem verify_report_links_joins_paragraphs
    (parse_template : str -> option (list template_piece)) :
  verify_report_links (U "https://maclay.pro") head_not_found parse_template
                      two_paragraphs
  = ([head_request_for (U "https://gone.example/page")],
     U "First paragraph.
Second paragraph with a .")
  /\ (let run := verify_report_links (U "https://maclay.pro") head_gone_after_first
                                     parse_template cited_twice in
      let broken := (check_links (U "https://maclay.pro") head_gone_after_first 0
                                 (find_links cited_twice)).2.2 in
      broken = [(U "Annual
report", U "https://x.example/r")]
      /\ run.2 = U "[Annual
report](https://x.example/r) and again"
      /\ contains (markdown_span (U "Annual
report") (U "https://x.example/r")) run.2 = true)
  /\ (let run := verify_report_links (U "https://maclay.pro") head_not_found
                                     parse_template nested_spans in
      let broken := (check_links (U "https://maclay.pro") head_not_found 0
                                 (find_links nested_spans)).2.2 in
      broken = [(U "t", U "u"); (U "x", U "v")]
      /\ run = ([head_request_for (U "u"); head_request_for (U "v")], U "[t](u)")
      /\ contains (markdown_span (U "t") (U "u")) run.2 = true).
Proof.
  split; [vm_compute; reflexivity |].
  split; cbv zeta; (split; [vm_compute; reflexivity |]);
    (split; vm_compute; reflexivity).
Qed.

(** A report with a link that answers, one that is not found, one whose
    host refuses the connection, and one to a document of the system. *)
Definition example_head (_ : nat) (url : str) : head_outcome :=
  if str_eqb url (U "https://ok.example") then HeadStatus 200
  else if str_eqb url (U "https://gone.example") then HeadStatus 404
  else HeadRaised (Exception (U "ConnectError")).

Definition example_doc : list piece :=
  [Text (U "See "); Link (U "the site") (U "https://ok.example");
   Text (U ", "); Link (U "the old page") (U "https://gone.example");
   Text (U ", "); Link (U "the mirror") (U "https://down.example");
   Text (U " and "); Link (U "the paper") (U "https://maclay.pro/data/paper.pdf");
   Text (U ".")].

Lemma broken_links_removed_from_flat_report_witness :
  find_links (render_doc example_doc)
  = [(U "the site", U "https://ok.example");
     (U "the old page", U "https://gone.example");
     (U "the mirror", U "https://down.example");
     (U "the paper", U "https://maclay.pro/data/paper.pdf")]
  /\ (check_links (U "https://maclay.pro") example_head 0
        (find_links (render_doc example_doc))).2.2
     = [(U "the old page", U "https://gone.example");
        (U "the mirror", U "https://down.example")]
  /\ remove_broken
       (check_links (U "https://maclay.pro") example_head 0
          (find_links (render_doc example_doc))).2.2
       (render_doc example_doc)
     = U "See [the site](https://ok.example), ,  and [the paper](https://maclay.pro/data/paper.pdf)."
  /\ verification_summary (fun _ _ => []) []
     = summary_block (U "0") (U "0") (U "0") (U "0.0").
Proof.
  destruct (broken_links_removed_from_flat_report (U "https://maclay.pro")
              example_head (fun _ _ => []))
    as (_ & _ & Hdoc & Hsum).
  destruct (Hdoc example_doc) as (Hlinks & Hremoved & _);
    [vm_compute; reflexivity |].
  split; [rewrite Hlinks; vm_compute; reflexivity |].
  split; [vm_compute; reflexivity |].
  split; [rewrite Hremoved; vm_compute; reflexivity |].
  rewrite (Hsum []); reflexivity.
Defined.

(** The second substitution runs under [re.MULTILINE], so it takes out the
    blank lines between paragraphs as well as those at the start. *)
Example collapse_whitespace_paragraph_break :
  collapse_whitespace (U "

first paragraph

second paragraph")
  = U "first paragraph
second paragraph".
Proof. vm_compute. reflexivity. Qed.

(** ** [extract_companies_from_text]: what is stored under ["links"] *)

Section LinksAreLists.

Variable lower : str -> str.

(** Nothing but a list is ever stored under ["links"], so the third case of
    [append_link] does not arise. *)
Definition links_wf (c : company) : Prop :=
  forall s, c !! "links" <> Some (VStr s).

Lemma links_wf_empty : links_wf ∅.
Proof. intros s. rewrite lookup_empty. discriminate. Qed.

Lemma links_wf_insert key v (c : company) :
  key <> "links" -> links_wf c -> links_wf (<[key := v]> c).
Proof. intros Hk H s. rewrite lookup_insert_ne by assumption. apply H. Qed.

Lemma links_wf_append_link line c : links_wf c -> links_wf (append_link line c).
Proof.
  intros H. unfold append_link.
  destruct (c !! "links") as [[s | l] |] eqn:Hl; [exact H | |];
    intros s'; rewrite lookup_insert_eq; discriminate.
Qed.

Lemma links_wf_step st raw :
  Forall links_wf st.1 /\ links_wf st.2 ->
  Forall links_wf (company_step lower st raw).1
  /\ links_wf (company_step lower st raw).2.
Proof.
  destruct st as [companies current]. cbn [fst snd]. intros [Hc Hcur].
  assert (Forall links_wf (companies ++ [current])) as Happ
      by (apply Forall_app; split; [assumption | now constructor]).
  unfold company_step.
  destruct (strip raw) as [| c line].
  { destruct (dict_truthy current); cbn [fst snd];
      auto using links_wf_empty. }
  destruct (any_keyword lower name_keywords (c :: line)).
  { cbn [fst snd]. split.
    - now destruct (dict_truthy current).
    - apply links_wf_insert; [discriminate | apply links_wf_empty]. }
  destruct (any_keyword lower website_keywords (c :: line)).
  { cbn [fst snd]. split; [assumption |].
    destruct (dict_truthy current); [| assumption].
    apply links_wf_insert; [discriminate | assumption]. }
  destruct (any_keyword lower country_keywords (c :: line)).
  { cbn [fst snd]. split; [assumption |].
    destruct (dict_truthy current); [| assumption].
    apply links_wf_insert; [discriminate | assumption]. }
  destruct (any_keyword lower characteristics_keywords (c :: line)).
  { cbn [fst snd]. split; [assumption |].
    destruct (dict_truthy current); [| assumption].
    apply links_wf_insert; [discriminate | assumption]. }
  destruct (startswith (U "http") (c :: line)); cbn [fst snd];
    (split; [assumption |]); [| assumption].
  destruct (dict_truthy current); [| assumption].
  now apply links_wf_append_link.
Qed.

Lemma links_is_list (text : str) :
  Forall (fun c : company => forall s, c !! "links" <> Some (VStr s))
         (extract_companies_from_text lower text).
Proof.
  unfold extract_companies_from_text.
  assert (forall lines st,
             Forall links_wf st.1 /\ links_wf st.2 ->
             Forall links_wf (company_loop lower st lines).1
             /\ links_wf (company_loop lower st lines).2) as Hloop.
  { unfold company_loop. induction lines as [| raw lines IH]; intros st Hst;
      [exact Hst |].
    cbn [fold_left]. apply IH. now apply links_wf_step. }
  destruct (Hloop (split_on NL text) ([], ∅)) as [Hc Hcur].
  { cbn [fst snd]. split; [constructor | apply links_wf_empty]. }
  destruct (company_loop lower ([], ∅) (split_on NL text)) as [companies current].
  cbn [fst snd] in *. unfold company_finish.
  destruct (dict_truthy current); [| exact Hc].
  apply Forall_app. split; [exact Hc | now constructor].
Qed.

End LinksAreLists.

(** * Further properties of the code *)

(** ** The model client on arbitrary answers *)

(** The text a response hands back, when it is neither a 503 nor a
    failure. *)
Definition success_text {A : Type} (o : post_outcome A) : option A :=
  match o with
  | PostRaised _ => None
  | PostResponse r =>
    if (status_code r =? 503)%Z then None
    else match rest r with inl _ => None | inr text => Some text end
  end.

(** The number of answers that use up an attempt. *)
Definition failures {A : Type} (os : list (post_outcome A)) : nat :=
  length (List.filter (fun o => negb (overloaded o)) os).

(** The sleeps a sequence of unsuccessful answers costs, starting from a
    given attempt counter. *)
Fixpoint backoff {A : Type} (attempt : nat) (os : list (post_outcome A)) : list N :=
  match os with
  | [] => []
  | o :: os' =>
    if overloaded o then 5 :: backoff attempt os'
    else 2 ^ N.of_nat (S attempt) :: backoff (S attempt) os'
  end.

Definition total (l : list N) : N := foldr N.add 0 l.

Lemma outcome_cases {A : Type} (o : post_outcome A) :
  success_text o = None ->
  overloaded o = true \/ (overloaded o = false /\ exists e, failure_of o = Some e).
Proof.
  destruct o as [e | r]; cbn.
  - intros _. right. eauto.
  - destruct (status_code r =? 503)%Z; [now left |].
    destruct (rest r) as [e | text]; [| discriminate]. intros _. right. eauto.
Qed.

Lemma call_loop_success {A : Type} prompt attempt (o : post_outcome A) text script :
  (attempt < 5)%nat -> success_text o = Some text ->
  call_loop prompt attempt (o :: script) = ([Post prompt], Returned (Some text)).
Proof.
  intros Ha Ho. cbn [call_loop].
  assert ((attempt <? max_retries_call)%nat = true) as ->
      by (apply Nat.ltb_lt; exact Ha).
  destruct o as [e | r]; [discriminate |]. cbn in Ho.
  destruct (status_code r =? 503)%Z; [discriminate |].
  destruct (rest r); [discriminate |]. now injection Ho as ->.
Qed.

Lemma call_loop_recovers {A : Type} prompt (os : list (post_outcome A)) :
  forall attempt o text script,
  Forall (fun o => success_text o = None) os ->
  (attempt + failures os < 5)%nat ->
  success_text o = Some text ->
  (call_loop prompt attempt (os ++ o :: script)).2 = Returned (Some text)
  /\ sleeps (call_loop prompt attempt (os ++ o :: script)).1 = backoff attempt os
  /\ posts (call_loop prompt attempt (os ++ o :: script)).1
     = repeat prompt (S (length os)).
Proof.
  induction os as [| o' os IH]; intros attempt o text script Hos Hk Ho.
  - cbn [app]. rewrite (call_loop_success prompt attempt o text) by (auto; lia).
    repeat split.
  - apply Forall_cons in Hos. destruct Hos as [Ho' Hos].
    unfold failures in Hk. cbn [List.filter] in Hk.
    destruct (outcome_cases o' Ho') as [Hbusy | [Hbusy [e He]]];
      rewrite Hbusy in Hk; cbn [negb length] in Hk; cbn [app].
    + rewrite call_loop_overloaded by (auto; lia).
      destruct (IH attempt o text script Hos Hk Ho) as (Hr & Hs & Hp).
      unfold after. cbn [fst snd backoff]. rewrite Hbusy.
      split; [exact Hr |]. split.
      * rewrite sleeps_app, Hs. reflexivity.
      * rewrite posts_app, Hp. reflexivity.
    + rewrite (call_loop_failure prompt attempt o' e) by (auto; lia).
      destruct (IH (S attempt) o text script Hos) as (Hr & Hs & Hp);
        [unfold failures; lia | exact Ho |].
      unfold after. cbn [fst snd backoff]. rewrite Hbusy.
      split; [exact Hr |]. split.
      * rewrite sleeps_app, Hs. reflexivity.
      * rewrite posts_app, Hp. reflexivity.
Qed.

Lemma total_backoff {A : Type} (os : list (post_outcome A)) : forall attempt,
  (total (backoff attempt os) + 2 ^ N.of_nat (S attempt)
   = 5 * N.of_nat (length os - failures os)
     + 2 ^ N.of_nat (S (attempt + failures os)))%N.
Proof.
  unfold failures.
  induction os as [| o os IH]; intros attempt.
  - cbn [backoff total foldr length List.filter Nat.sub].
    rewrite Nat.add_0_r. lia.
  - cbn [backoff List.filter].
    pose proof (List.filter_length_le (fun o => negb (overloaded o)) os) as Hle.
    destruct (overloaded o); cbn [negb length total foldr].
    + specialize (IH attempt). unfold total in IH.
      replace (S (length os) - length (List.filter (fun o => negb (overloaded o)) os))%nat
        with (S (length os - length (List.filter (fun o => negb (overloaded o)) os)))
        by lia.
      lia.
    + specialize (IH (S attempt)). unfold total in IH.
      replace (S (length os) - S (length (List.filter (fun o => negb (overloaded o)) os)))%nat
        with (length os - length (List.filter (fun o => negb (overloaded o)) os))%nat
        by lia.
      replace (attempt + S (length (List.filter (fun o => negb (overloaded o)) os)))%nat
        with (S attempt + length (List.filter (fun o => negb (overloaded o)) os))%nat
        by lia.
      assert (2 ^ N.of_nat (S (S attempt)) = 2 * 2 ^ N.of_nat (S attempt))%N as Hpow
          by (rewrite (Nat2N.inj_succ (S attempt)), N.pow_succ_r'; reflexivity).
      lia.
Qed.

(** X1: a success that comes after fewer than five failed requests is
    returned to the caller, however many 503 responses lie in between.
    Every request before it is followed by one sleep, 5 seconds after a 503
    and 2, 4, 8, 16 seconds after the first to fourth failure, so that with
    [k] failures and [n] 503 responses the client has slept
    [5 n + 2^(k+1) - 2] seconds. *)
Theorem call_deepseek_recovers {A : Type} prompt (os : list (post_outcome A))
    o text script :
  Forall (fun o => success_text o = None) os ->
  (failures os < 5)%nat ->
  success_text o = Some text ->
  let run := _call_deepseek prompt (os ++ o :: script) in
  run.2 = Returned (Some text)
  /\ sleeps run.1 = backoff 0 os
  /\ length (sleeps run.1) = length os
  /\ posts run.1 = repeat prompt (S (length os))
  /\ (total (sleeps run.1) + 2
      = 5 * N.of_nat (length os - failures os) + 2 ^ N.of_nat (S (failures os)))%N.
Proof.
  intros Hos Hk Ho. cbv zeta. unfold _call_deepseek.
  destruct (call_loop_recovers prompt os 0 o text script Hos) as (Hr & Hs & Hp);
    [lia | exact Ho |].
  split; [exact Hr |]. split; [exact Hs |]. split; [| split; [exact Hp |]].
  - rewrite Hs. clear. generalize 0%nat.
    induction os as [| o' os IH]; intros attempt; [reflexivity |].
    cbn [backoff]. destruct (overloaded o'); cbn [length]; now rewrite IH.
  - rewrite Hs. pose proof (total_backoff os 0) as H.
    cbn [Nat.add] in H. exact H.
Qed.

Lemma call_deepseek_recovers_witness :
  let run := _call_deepseek (U "p")
               [busy; timed_out; busy; server_error;
                PostResponse {| status_code := 200; rest := inr (U "answer") |};
                timed_out] in
  run.2 = Returned (Some (U "answer"))
  /\ sleeps run.1 = [5; 2; 5; 4]
  /\ (total (sleeps run.1) + 2 = 5 * 2 + 2 ^ 3)%N.
Proof.
  assert (Forall (fun o => success_text o = None)
                 [busy; timed_out; busy; server_error]) as H1
      by (repeat constructor).
  assert (failures [busy; timed_out; busy; server_error] < 5)%nat as H2
      by (cbn; lia).
  pose proof (call_deepseek_recovers (U "p") [busy; timed_out; busy; server_error]
                (PostResponse {| status_code := 200; rest := inr (U "answer") |})
                (U "answer") [timed_out] H1 H2 eq_refl) as H.
  cbv zeta in H. cbn [app] in H. destruct H as (Hr & Hs & _ & _ & Ht).
  cbv zeta. split; [exact Hr |]. split; [rewrite Hs; reflexivity |]. exact Ht.
Defined.

Definition is_pause (s : N) : bool := s =? 5.

Lemma outcome_trichotomy {A : Type} (o : post_outcome A) :
  overloaded o = true
  \/ (exists e, failure_of o = Some e) \/ (exists text, success_text o = Some text).
Proof.
  destruct o as [e | r]; cbn; [right; left; eauto |].
  destruct (status_code r =? 503)%Z; [now left |].
  destruct (rest r) as [e | text]; right; [left | right]; eauto.
Qed.

Lemma call_loop_bounds {A : Type} prompt (script : list (post_outcome A)) :
  forall attempt,
  (attempt < 5)%nat ->
  let run := call_loop prompt attempt script in
  Forall (fun s => s = 5 \/ exists k, (attempt < k < 5)%nat /\ s = 2 ^ N.of_nat k)
         (sleeps run.1)
  /\ (length (List.filter (fun s => negb (is_pause s)) (sleeps run.1)) + attempt <= 4)%nat
  /\ (length (posts run.1)
      <= length (List.filter is_pause (sleeps run.1)) + (5 - attempt))%nat.
Proof.
  induction script as [| o script IH]; intros attempt Ha; cbv zeta.
  - cbn [call_loop].
    assert ((attempt <? max_retries_call)%nat = true) as ->
        by (apply Nat.ltb_lt; exact Ha).
    cbn. repeat split; [constructor | lia | lia].
  - destruct (outcome_trichotomy o) as [Hbusy | [[e He] | [text Ht]]].
    + rewrite call_loop_overloaded by assumption.
      destruct (IH attempt Ha) as (H1 & H2 & H3). unfold after. cbn [fst snd].
      rewrite sleeps_app, posts_app.
      change (sleeps [Post prompt; Sleep 5]) with [5].
      change (posts [Post prompt; Sleep 5]) with [prompt].
      cbn [app List.filter]. change (is_pause 5) with true.
      cbn [negb length].
      split; [constructor; [now left | exact H1] |]. split; lia.
    + destruct (decide (attempt = 4%nat)) as [-> | Hne].
      * rewrite (call_loop_last_failure prompt o e) by assumption.
        cbn. repeat split; [constructor | lia | lia].
      * rewrite (call_loop_failure prompt attempt o e) by (auto; lia).
        destruct (IH (S attempt)) as (H1 & H2 & H3); [lia |].
        unfold after. cbn [fst snd].
        rewrite sleeps_app, posts_app.
        change (sleeps [Post prompt; Sleep (2 ^ N.of_nat (S attempt))])
          with [2 ^ N.of_nat (S attempt)].
        change (posts [Post prompt; Sleep (2 ^ N.of_nat (S attempt))])
          with [prompt].
        cbn [app].
        assert (is_pause (2 ^ N.of_nat (S attempt)) = false) as Hp.
        { unfold is_pause. apply N.eqb_neq. intros Heq.
          destruct attempt as [| [| [| [| attempt]]]]; try lia;
            vm_compute in Heq; discriminate Heq. }
        cbn [List.filter]. rewrite Hp. cbn [negb length].
        split; [| split; lia].
        constructor.
        -- right. exists (S attempt). split; [lia | reflexivity].
        -- eapply Forall_impl; [exact H1 |]. cbn beta.
           intros s [-> | (k & Hk & ->)]; [now left |].
           right. exists k. split; [lia | reflexivity].
    + rewrite (call_loop_success prompt attempt o text) by assumption.
      cbn. repeat split; [constructor | lia | lia].
Qed.

(** X2: whatever the endpoint answers, [_call_deepseek] only ever sleeps 5
    seconds (after a 503) or 2, 4, 8 or 16 seconds (after a failure), it
    backs off at most four times, the requests that are not answered by a
    503 number at most five, every request carries the same prompt, and the
    call never returns [None]. *)
Theorem call_deepseek_bounds {A : Type} prompt (script : list (post_outcome A)) :
  let run := _call_deepseek prompt script in
  Forall (fun s => In s [5; 2; 4; 8; 16]) (sleeps run.1)
  /\ (length (List.filter (fun s => negb (is_pause s)) (sleeps run.1)) <= 4)%nat
  /\ (length (posts run.1) <= length (List.filter is_pause (sleeps run.1)) + 5)%nat
  /\ Forall (fun p => p = prompt) (posts run.1)
  /\ run.2 <> Returned None.
Proof.
  cbv zeta. unfold _call_deepseek.
  destruct (call_loop_bounds prompt script 0) as (H1 & H2 & H3); [lia |].
  split; [| split; [lia | split; [lia | split]]].
  - eapply Forall_impl; [exact H1 |]. cbn beta.
    intros s [-> | (k & Hk & ->)]; [now left |].
    destruct k as [| [| [| [| [| k]]]]]; try lia; cbn; tauto.
  - apply call_loop_posts.
  - apply call_loop_not_none. lia.
Qed.

(** ** Response-shape normalization: [_extract_generated_text] *)








(** ** Company extraction on arbitrary text *)

Section CompanyLines.

Variable lower : str -> str.

(** A stripped line that opens a record: it is not blank and holds a
    company keyword. *)
Definition name_line (line : str) : bool :=
  str_truthy line && any_keyword lower name_keywords line.

(** The names of the records closed so far, then that of the open one. *)
Definition names_of (st : list company * company) : list (option value) :=
  map (fun c : company => c !! "name") st.1
  ++ (if dict_truthy st.2 then [st.2 !! "name"] else []).

Lemma append_link_name line (c : company) : append_link line c !! "name" = c !! "name".
Proof.
  unfold append_link. destruct (c !! "links") as [[s | l] |]; [reflexivity | |];
    now rewrite lookup_insert_ne.
Qed.

(** Setting a field of the open record changes neither its name nor
    whether it is empty. *)
Lemma names_of_update companies current (current' : company) :
  current' !! "name" = current !! "name" ->
  dict_truthy current' = true ->
  names_of (companies, if dict_truthy current then current' else current)
  = names_of (companies, current).
Proof.
  intros Hn Ht. unfold names_of. cbn [fst snd].
  destruct (dict_truthy current) eqn:Hc; [| now rewrite Hc].
  now rewrite Ht, Hn.
Qed.

Lemma names_of_step st raw :
  names_of (company_step lower st raw)
  = names_of st
    ++ (if name_line (strip raw)
        then [Some (VStr (value_after_colon (strip raw)))] else []).
Proof.
  destruct st as [companies current]. unfold company_step, name_line.
  destruct (strip raw) as [| c line].
  { cbn [str_truthy andb]. rewrite app_nil_r.
    destruct (dict_truthy current) eqn:Hc; unfold names_of; cbn [fst snd].
    - rewrite Hc, dict_truthy_empty, app_nil_r, map_app. reflexivity.
    - now rewrite Hc. }
  cbn [str_truthy andb].
  destruct (any_keyword lower name_keywords (c :: line)).
  { unfold names_of. cbn [fst snd].
    assert (dict_truthy ({["name" := VStr (value_after_colon (c :: line))]} : company)
            = true) as -> by (apply (dict_truthy_insert "name" _ ∅)).
    rewrite lookup_singleton_eq.
    destruct (dict_truthy current);
      [rewrite map_app | rewrite app_nil_r]; reflexivity. }
  rewrite app_nil_r.
  destruct (any_keyword lower website_keywords (c :: line)).
  { apply names_of_update; [now rewrite lookup_insert_ne | apply dict_truthy_insert]. }
  destruct (any_keyword lower country_keywords (c :: line)).
  { apply names_of_update; [now rewrite lookup_insert_ne | apply dict_truthy_insert]. }
  destruct (any_keyword lower characteristics_keywords (c :: line)).
  { apply names_of_update; [now rewrite lookup_insert_ne | apply dict_truthy_insert]. }
  destruct (startswith (U "http") (c :: line)); [| reflexivity].
  destruct (dict_truthy current) eqn:Hc; [| reflexivity].
  unfold names_of. cbn [fst snd].
  now rewrite append_link_truthy, append_link_name, Hc.
Qed.

Lemma names_of_loop lines : forall st,
  names_of (company_loop lower st lines)
  = names_of st
    ++ map (fun line => Some (VStr (value_after_colon line)))
           (List.filter name_line (map strip lines)).
Proof.
  unfold company_loop.
  induction lines as [| raw lines IH]; intros st.
  - cbn. now rewrite app_nil_r.
  - cbn [fold_left map List.filter]. rewrite IH, names_of_step, <- app_assoc.
    f_equal. now destruct (name_line (strip raw)).
Qed.

(** X4: the records [extract_companies_from_text] returns are exactly the
    non-blank lines that hold a company keyword, in order: each such line
    gives one record, named by what follows its first colon, and nothing
    else gives a record.  So the number of companies,
    ["total_found"] of [parse_market_data], is the number of those
    lines. *)
Theorem extract_companies_names (text : str) :
  map (fun c : company => c !! "name") (extract_companies_from_text lower text)
  = map (fun line => Some (VStr (value_after_colon line)))
        (List.filter name_line (map strip (split_on NL text)))
  /\ length (extract_companies_from_text lower text)
     = length (List.filter name_line (map strip (split_on NL text)))
  /\ (forall now rtype,
         total_found (parse_market_data lower now (JStr text) rtype)
         = length (List.filter name_line (map strip (split_on NL text)))).
Proof.
  assert (map (fun c : company => c !! "name") (extract_companies_from_text lower text)
          = map (fun line => Some (VStr (value_after_colon line)))
                (List.filter name_line (map strip (split_on NL text)))) as Hnames.
  { pose proof (names_of_loop (split_on NL text) ([], ∅)) as H.
    unfold extract_companies_from_text.
    destruct (company_loop lower ([], ∅) (split_on NL text)) as [companies current].
    unfold names_of in H. cbn [fst snd map] in H. rewrite dict_truthy_empty in H.
    cbn [app] in H. rewrite <- H. unfold company_finish.
    destruct (dict_truthy current); [rewrite map_app | rewrite app_nil_r];
      reflexivity. }
  assert (length (extract_companies_from_text lower text)
          = length (List.filter name_line (map strip (split_on NL text)))) as Hlen.
  { apply (f_equal (@length _)) in Hnames. now rewrite !length_map in Hnames. }
  split; [exact Hnames |]. split; [exact Hlen |].
  intros now rtype. exact Hlen.
Qed.

End CompanyLines.

Section CompanyFields.

Variable lower : str -> str.

Lemma company_step_idle companies raw :
  name_line lower (strip raw) = false ->
  company_step lower (companies, ∅) raw = (companies, ∅).
Proof.
  unfold name_line, company_step. destruct (strip raw) as [| c line];
    [reflexivity |].
  cbn [str_truthy andb]. intros ->. rewrite !dict_truthy_empty.
  repeat match goal with
         | |- context [if ?b then _ else _] => destruct b
         end; reflexivity.
Qed.

(** X5: lines that come before the first company line leave no trace:
    website, country, characteristics and link lines are dropped, like any
    other line, as long as no record is open. *)
Theorem extract_companies_orphan_lines (orphans : list str) (text : str) :
  Forall (fun raw => ~ In NL raw /\ name_line lower (strip raw) = false) orphans ->
  extract_companies_from_text lower (render_lines orphans ++ text)
  = extract_companies_from_text lower text.
Proof.
  intros H. unfold extract_companies_from_text.
  rewrite split_on_render_lines
    by (eapply Forall_impl; [exact H |]; intros raw [Hn _]; exact Hn).
  unfold company_loop. rewrite fold_left_app. f_equal. f_equal.
  induction H as [| raw orphans [_ Hraw] _ IH]; [reflexivity |].
  cbn [fold_left]. now rewrite company_step_idle.
Qed.

(** What a record may hold under a key. *)
Definition field_ok (key : string) (v : value) : Prop :=
  match v with
  | VStr s =>
    In key ["name"; "website"; "country"; "characteristics"] /\ strip s = s
  | VList links =>
    key = "links" /\ links <> []
    /\ Forall (fun l => strip l = l /\ startswith (U "http") l = true) links
  end.

Definition record_ok (c : company) : Prop :=
  forall key v, c !! key = Some v -> field_ok key v.

Lemma record_ok_empty : record_ok ∅.
Proof. intros key v H. rewrite lookup_empty in H. discriminate. Qed.

Lemma record_ok_insert key v (c : company) :
  field_ok key v -> record_ok c -> record_ok (<[key := v]> c).
Proof.
  intros Hv Hc key' v' H. rewrite lookup_insert in H.
  destruct (decide (key = key')) as [<- | Hne].
  - now injection H as <-.
  - now apply Hc.
Qed.

Lemma strip_strip s : strip (strip s) = strip s.
Proof. apply strip_by_idem. Qed.

Lemma value_after_colon_stripped raw :
  strip (value_after_colon (strip raw)) = value_after_colon (strip raw).
Proof.
  unfold value_after_colon. destruct (contains [COLON] (strip raw));
    apply strip_strip.
Qed.

Lemma record_ok_append_link raw (c : company) :
  startswith (U "http") (strip raw) = true ->
  record_ok c -> record_ok (append_link (strip raw) c).
Proof.
  intros Hh Hc. unfold append_link.
  destruct (c !! "links") as [[s | l] |] eqn:Hl; [exact Hc | |].
  - apply record_ok_insert; [| exact Hc].
    destruct (Hc _ _ Hl) as (_ & _ & Hall). cbn. split; [reflexivity |].
    split; [now destruct l |].
    apply Forall_app. split; [exact Hall |]. constructor; [| constructor].
    split; [apply strip_strip | exact Hh].
  - apply record_ok_insert; [| exact Hc]. cbn. split; [reflexivity |].
    split; [discriminate |]. constructor; [| constructor].
    split; [apply strip_strip | exact Hh].
Qed.

Lemma record_ok_step st raw :
  Forall record_ok st.1 /\ record_ok st.2 ->
  Forall record_ok (company_step lower st raw).1
  /\ record_ok (company_step lower st raw).2.
Proof.
  destruct st as [companies current]. cbn [fst snd]. intros [Hc Hcur].
  assert (Forall record_ok (companies ++ [current])) as Happ
      by (apply Forall_app; split; [assumption | now constructor]).
  assert (forall key, In key ["name"; "website"; "country"; "characteristics"] ->
                      field_ok key (VStr (value_after_colon (strip raw)))) as Hfield.
  { intros key Hk. split; [exact Hk | apply value_after_colon_stripped]. }
  unfold company_step.
  destruct (strip raw) as [| c line] eqn:Hline.
  { destruct (dict_truthy current); cbn [fst snd];
      auto using record_ok_empty. }
  destruct (any_keyword lower name_keywords (c :: line)).
  { cbn [fst snd]. split.
    - now destruct (dict_truthy current).
    - apply (record_ok_insert "name" _ ∅); [| apply record_ok_empty].
      apply Hfield. cbn. tauto. }
  destruct (any_keyword lower website_keywords (c :: line)).
  { cbn [fst snd]. split; [assumption |].
    destruct (dict_truthy current); [| assumption].
    apply record_ok_insert; [apply Hfield; cbn; tauto | assumption]. }
  destruct (any_keyword lower country_keywords (c :: line)).
  { cbn [fst snd]. split; [assumption |].
    destruct (dict_truthy current); [| assumption].
    apply record_ok_insert; [apply Hfield; cbn; tauto | assumption]. }
  destruct (any_keyword lower characteristics_keywords (c :: line)).
  { cbn [fst snd]. split; [assumption |].
    destruct (dict_truthy current); [| assumption].
    apply record_ok_insert; [apply Hfield; cbn; tauto | assumption]. }
  destruct (startswith (U "http") (c :: line)) eqn:Hh; cbn [fst snd];
    (split; [assumption |]); [| assumption].
  destruct (dict_truthy current); [| assumption].
  rewrite <- Hline in *. now apply record_ok_append_link.
Qed.

(** X6: whatever the text, a record returned by
    [extract_companies_from_text] holds nothing but the keys name, website,
    country and characteristics, each with a text free of leading and
    trailing whitespace, and the key links with a non-empty list of lines
    that begin with http and are stripped as well. *)
Theorem extract_companies_fields_well_formed (text : str) :
  Forall (fun c : company =>
            forall key v, c !! key = Some v ->
              match v with
              | VStr s =>
                In key ["name"; "website"; "country"; "characteristics"]
                /\ strip s = s
              | VList links =>
                key = "links" /\ links <> []
                /\ Forall (fun l => strip l = l /\ startswith (U "http") l = true)
                          links
              end)
         (extract_companies_from_text lower text).
Proof.
  unfold extract_companies_from_text.
  assert (forall lines st,
             Forall record_ok st.1 /\ record_ok st.2 ->
             Forall record_ok (company_loop lower st lines).1
             /\ record_ok (company_loop lower st lines).2) as Hloop.
  { unfold company_loop. induction lines as [| raw lines IH]; intros st Hst;
      [exact Hst |].
    cbn [fold_left]. apply IH. now apply record_ok_step. }
  destruct (Hloop (split_on NL text) ([], ∅)) as [Hc Hcur].
  { cbn [fst snd]. split; [constructor | apply record_ok_empty]. }
  destruct (company_loop lower ([], ∅) (split_on NL text)) as [companies current].
  cbn [fst snd] in *. unfold company_finish.
  destruct (dict_truthy current); [| exact Hc].
  apply Forall_app. split; [exact Hc | now constructor].
Qed.

End CompanyFields.

Lemma extract_companies_orphan_lines_witness :
  extract_companies_from_text lower_basic
    (render_lines [U "Website: https://lost.example"; U ""; U "https://lost.example/a"]
       ++ U "Company: Acme")
  = extract_companies_from_text lower_basic (U "Company: Acme").
Proof.
  apply extract_companies_orphan_lines.
  repeat (constructor;
          [split; [intros Hin; vm_compute in Hin; intuition discriminate
                  | vm_compute; reflexivity] |]).
  constructor.
Defined.

(** ** Stage 2: [analyze_cases] *)

Section CaseAnalysis.

(** A case dictionary as [extract_cases_from_text] builds it.  The body
    of that function is cut short in the source: it is taken as given, with
    [None] for a raised exception. *)
Variable case_dict : Type.
Variable extract_cases_from_text : str -> option (list case_dict).

Variable research_data : Type.
Variable get_case_analysis_prompt : market_data -> research_data -> str -> str.

(** [parse_cases]: every exception of the extractor is turned into the
    empty list; on a value that is not a text, [None] included, the
    extractor raises on [text.split]. *)
Definition parse_cases (content : option json) : list case_dict :=
  match content with
  | Some (JStr text) => default [] (extract_cases_from_text text)
  | _ => []
  end.

Definition api_error (e : exn) : exn := Exception (U "API Error: " ++ str_exn e).

Definition _analyze_cases_internal
    (market : market_data) (data : research_data) (rtype : str)
    (script : list (post_outcome json))
  : trace * result (list case_dict) :=
  let prompt := get_case_analysis_prompt market data rtype in
  let opening :=
    [Update "case_analysis" "active" 10 (U "Подготавливаем анализ кейсов...");
     Update "case_analysis" "active" 30 (U "Отправляем запрос на анализ...")] in
  let '(t, r) := _call_deepseek prompt script in
  match r with
  | Returned content =>
    let cases := parse_cases content in
    (opening ++ t ++
     [Update "case_analysis" "active" 70 (U "Обрабатываем результаты анализа...");
      Update "case_analysis" "active" 90 (U "Структурируем кейсы...");
      Update "case_analysis" "completed" 100
        (U "Проанализировано " ++ str_of_N (N.of_nat (length cases))
           ++ U " кейсов")],
     Returned cases)
  | Raised e => (opening ++ t, Raised (api_error e))
  | Pending => (opening ++ t, Pending)
  end.

(** [analyze_cases]: the stage function behind the retry wrapper. *)
Definition analyze_cases
    (after_success : nat -> trace) (handler_events : nat -> exn -> trace)
    (error_details_of : exn -> str)
    (market : market_data) (data : research_data) (rtype : str)
    (scripts : nat -> list (post_outcome json))
  : trace * result (stage_result (list case_dict)) :=
  _execute_with_retry
    (fun attempt => _analyze_cases_internal market data rtype (scripts attempt))
    "case_analysis" 3 after_success handler_events error_details_of.

End CaseAnalysis.

(** ** Stage 4: [generate_report] *)

Section ReportGeneration.

Variable json_dumps : list candidate -> str.
Variable research_data : Type.
Variable get_report_generation_prompt : list case -> research_data -> str -> str.

(** [clean_report_content] is not part of the source text: it is taken as
    given, with [inl] for a raised exception. *)
Variable clean_report_content : str -> exn + str.

(** [script] is what the endpoint answers to the posts of the generation
    call, [enhance_script] to those of the enhancement call. *)
Definition _generate_report_internal
    (cases : list case) (data : research_data) (rtype : str)
    (script enhance_script : list (post_outcome str))
  : trace * result str :=
  let prompt := get_report_generation_prompt cases data rtype in
  let opening :=
    [Update "report_generation" "active" 10 (U "Подготавливаем данные для отчета...");
     Update "report_generation" "active" 30
       (U "Отправляем запрос на генерацию отчета...")] in
  let '(t, r) := _call_deepseek prompt script in
  match r with
  | Returned response_text =>
    let formatting :=
      [Update "report_generation" "active" 70 (U "Обрабатываем ответ...");
       Update "report_generation" "active" 90 (U "Форматируем отчет...")] in
    let report_content := extract_report_content response_text in
    let linking :=
      [Update "report_generation" "active" 95
         (U "Добавляем дополнительные ссылки...")] in
    let '(t', r') :=
      enhance_report_with_links json_dumps report_content cases enhance_script in
    match r' with
    | Returned enhanced_report =>
      match clean_report_content enhanced_report with
      | inr final_report =>
        (opening ++ t ++ formatting ++ linking ++ t' ++
         [Update "report_generation" "completed" 100
            (U "Отчет готов! (" ++ str_of_N (N.of_nat (length final_report))
               ++ U " символов)")],
         Returned final_report)
      | inl e => (opening ++ t ++ formatting ++ linking ++ t', Raised (api_error e))
      end
    | Raised e => (opening ++ t ++ formatting ++ linking ++ t', Raised (api_error e))
    | Pending => (opening ++ t ++ formatting ++ linking ++ t', Pending)
    end
  | Raised e => (opening ++ t, Raised (api_error e))
  | Pending => (opening ++ t, Pending)
  end.

Definition generate_report
    (after_success : nat -> trace) (handler_events : nat -> exn -> trace)
    (error_details_of : exn -> str)
    (cases : list case) (data : research_data) (rtype : str)
    (scripts enhance_scripts : nat -> list (post_outcome str))
  : trace * result (stage_result str) :=
  _execute_with_retry
    (fun attempt =>
       _generate_report_internal cases data rtype (scripts attempt)
                                 (enhance_scripts attempt))
    "report_generation" 3 after_success handler_events error_details_of.

End ReportGeneration.

Lemma enhance_no_updates json_dumps report cases script :
  updates (enhance_report_with_links json_dumps report cases script).1 = []
  /\ progress_values (enhance_report_with_links json_dumps report cases script).1 = [].
Proof.
  unfold enhance_report_with_links, _call_deepseek.
  pose proof (fun prompt => call_loop_no_updates prompt script 0) as H.
  destruct (all_verified_links cases); [split; reflexivity |].
  match goal with |- context [call_loop ?p 0 script] => specialize (H p) end.
  destruct (call_loop _ 0 script) as [t [[[| ch s] |] | e |]]; exact H.
Qed.

Lemma enhance_not_empty json_dumps report cases script r :
  (enhance_report_with_links json_dumps report cases script).2 = Returned r ->
  report <> [] -> r <> [].
Proof.
  unfold enhance_report_with_links. intros Hr Hne.
  destruct (all_verified_links cases).
  - simpl in Hr. congruence.
  - destruct (_call_deepseek _ script) as [t [[[| ch s] |] | e |]];
      simpl in Hr; congruence.
Qed.

Lemma enhance_never_raises json_dumps report cases script e :
  (enhance_report_with_links json_dumps report cases script).2 <> Raised e.
Proof.
  unfold enhance_report_with_links.
  destruct (all_verified_links cases); [discriminate |].
  destruct (_call_deepseek _ script) as [t [[[| ch s] |] | e' |]]; discriminate.
Qed.

Lemma extract_report_content_not_empty response_text :
  extract_report_content response_text <> [].
Proof. destruct response_text as [[| c s] |]; discriminate. Qed.

Section StageOutcomes.

Variable case_dict : Type.
Variable extract_cases_from_text : str -> option (list case_dict).
Variable research_data : Type.
Variable get_case_analysis_prompt : market_data -> research_data -> str -> str.
Variable market : market_data.
Variable data : research_data.
Variable rtype : str.



Variable json_dumps : list candidate -> str.
Variable get_report_generation_prompt : list case -> research_data -> str -> str.
Variable clean_report_content : str -> exn + str.
Variable cases : list case.

Let generation script enhance_script :=
  _generate_report_internal json_dumps research_data get_report_generation_prompt
                            clean_report_content cases data rtype script
                            enhance_script.

(** X8: a report returned by the generation stage is what
    [clean_report_content] makes of a text that is never empty, the stage
    has then reported 10, 30, 70, 90, 95 and 100 and its last update gives
    the length of the report.  A failure of the link enhancement never
    fails the stage.  The stage raises only when the generation call or the
    cleaning raises, with the message of the cause behind the prefix API
    Error, and sends no error update: its progress values never
    decrease. *)
Theorem generate_report_outcomes (script enhance_script : list (post_outcome str)) :
  let run := generation script enhance_script in
  let call := _call_deepseek (get_report_generation_prompt cases data rtype) script in
  (forall final_report, run.2 = Returned final_report ->
      (exists response_text enhanced_report,
          call.2 = Returned response_text
          /\ (enhance_report_with_links json_dumps
                (extract_report_content response_text) cases enhance_script).2
             = Returned enhanced_report
          /\ enhanced_report <> []
          /\ clean_report_content enhanced_report = inr final_report)
      /\ updates run.1
         = [("active", 10); ("active", 30); ("active", 70); ("active", 90);
            ("active", 95); ("completed", 100)]%Z
      /\ last run.1
         = Some (Update "report_generation" "completed" 100
                   (U "Отчет готов! (" ++ str_of_N (N.of_nat (length final_report))
                      ++ U " символов)")))
  /\ (forall e, run.2 = Raised e ->
        exists cause, e = Exception (U "API Error: " ++ str_exn cause)
          /\ (call.2 = Raised cause
              \/ exists enhanced_report,
                   clean_report_content enhanced_report = inl cause))
  /\ nondecreasing (progress_values run.1) = true
  /\ Forall (fun u => u.1 <> "error") (updates run.1).
Proof.
  cbv zeta. unfold generation, _generate_report_internal, _call_deepseek.
  cbv zeta.
  pose proof (call_loop_no_updates (get_report_generation_prompt cases data rtype)
                                   script 0) as [Hu Hp].
  destruct (call_loop _ 0 script) as [t [response_text | e |]]; cbn [fst snd] in *.
  - pose proof (enhance_no_updates json_dumps
                  (extract_report_content response_text) cases enhance_script)
      as [Hu' Hp'].
    pose proof (fun r => enhance_not_empty json_dumps
                  (extract_report_content response_text) cases enhance_script r)
      as Hne.
    pose proof (enhance_never_raises json_dumps
                  (extract_report_content response_text) cases enhance_script)
      as Hnr.
    unfold _call_deepseek in *.
    destruct (enhance_report_with_links _ _ cases enhance_script)
      as [t' [enhanced | e |]] eqn:Henh; cbn [fst snd] in *.
    + destruct (clean_report_content enhanced) as [e | final] eqn:Hclean;
        cbn [fst snd].
      * repeat split; try discriminate.
        -- intros e' [= <-]. exists e. split; [reflexivity |]. right. eauto.
        -- rewrite !progress_values_app, Hp, Hp'. reflexivity.
        -- rewrite !updates_app, Hu, Hu'. cbn. repeat constructor; discriminate.
      * repeat split; try discriminate.
        -- injection H as <-. exists response_text, enhanced.
           split; [reflexivity |]. split; [now rewrite Henh |].
           split; [| assumption].
           apply Hne; [reflexivity | apply extract_report_content_not_empty].
        -- rewrite !updates_app, Hu, Hu'. reflexivity.
        -- injection H as <-. rewrite !last_app. reflexivity.
        -- rewrite !progress_values_app, Hp, Hp'. reflexivity.
        -- rewrite !updates_app, Hu, Hu'. cbn. repeat constructor; discriminate.
    + now destruct (Hnr e).
    + repeat split; try discriminate.
      * rewrite !progress_values_app, Hp, Hp'. reflexivity.
      * rewrite !updates_app, Hu, Hu'. cbn. repeat constructor; discriminate.
  - repeat split; try discriminate.
    + intros e' [= <-]. exists e. split; [reflexivity | now left].
    + rewrite !progress_values_app, Hp. reflexivity.
    + rewrite !updates_app, Hu. cbn. repeat constructor; discriminate.
  - repeat split; try discriminate.
    + rewrite !progress_values_app, Hp. reflexivity.
    + rewrite !updates_app, Hu. cbn. repeat constructor; discriminate.
Qed.

End StageOutcomes.



Lemma generate_report_outcomes_witness :
  let stage := _generate_report_internal (fun _ => []) unit (fun _ _ _ => U "p")
                 (fun s => if str_eqb s (U "bad") then inl (Exception (U "boom"))
                           else inr s) [] tt [] in
  updates (stage [PostResponse {| status_code := 200; rest := inr [] |}] []).1
  = [("active", 10); ("active", 30); ("active", 70); ("active", 90);
     ("active", 95); ("completed", 100)]%Z
  /\ exists cause,
       Exception (U "API Error: boom") = Exception (U "API Error: " ++ str_exn cause).
Proof.
  cbv zeta. split.
  - pose proof (generate_report_outcomes unit tt [] (fun _ => [])
                  (fun _ _ _ => U "p")
                  (fun s => if str_eqb s (U "bad") then inl (Exception (U "boom"))
                            else inr s) []
                  [PostResponse {| status_code := 200; rest := inr [] |}] [])
      as (H & _).
    apply (H report_error_text). vm_compute. reflexivity.
  - pose proof (generate_report_outcomes unit tt [] (fun _ => [])
                  (fun _ _ _ => U "p")
                  (fun s => if str_eqb s (U "bad") then inl (Exception (U "boom"))
                            else inr s) []
                  [PostResponse {| status_code := 200; rest := inr (U "bad") |}] [])
      as (_ & H & _).
    destruct (H (Exception (U "API Error: boom"))) as (cause & Hc & _);
      [vm_compute; reflexivity |].
    exists cause. exact Hc.
Defined.

(** ** The line-by-line fallback of [parse_local_insights] *)

Lemma drop_while_head {A} (p : A -> bool) (l : list A) x t :
  drop_while p l = x :: t -> p x = false.
Proof.
  induction l as [| y l IH]; [discriminate |].
  cbn. destruct (p y) eqn:Hy; [exact IH |]. now intros [= <- _].
Qed.

Lemma drop_while_keep {A} (p : A -> bool) (l : list A) x :
  p x = false -> drop_while p (x :: l) = x :: l.
Proof. intros H. cbn. now rewrite H. Qed.

Lemma drop_while_prefix {A} (p : A -> bool) (pre l : list A) :
  forallb p pre = true -> drop_while p (pre ++ l) = drop_while p l.
Proof.
  induction pre as [| x pre IH]; [reflexivity |].
  cbn. destruct (p x); [exact IH | discriminate].
Qed.

(** What [strip] leaves is empty or begins and ends with a character that
    is kept. *)
Lemma strip_by_ends p (s : str) :
  match strip_by p s with
  | [] => True
  | c :: r => p c = false /\ exists c', last (c :: r) = Some c' /\ p c' = false
  end.
Proof.
  unfold strip_by, rstrip_by, lstrip_by.
  destruct (drop_while p s) as [| x t] eqn:Ht; [exact I |].
  pose proof (drop_while_head p s x t Ht) as Hx.
  cbn [rev]. destruct (drop_while_snoc_keep p (rev t) x Hx) as [l' Hl'].
  pose proof Hl' as Hhead.
  rewrite Hl', rev_app_distr. cbn [rev app]. split; [exact Hx |].
  destruct l' as [| y l'].
  - exists x. split; [reflexivity | exact Hx].
  - exists y. split.
    + cbn [rev]. rewrite app_comm_cons. apply last_snoc.
    + eapply drop_while_head. exact Hhead.
Qed.

Lemma strip_by_clean p (s : str) c c' :
  head s = Some c -> p c = false -> last s = Some c' -> p c' = false ->
  strip_by p s = s.
Proof.
  intros Hh Hc Hl Hc'. unfold strip_by, rstrip_by, lstrip_by.
  destruct s as [| x t]; [discriminate |]. injection Hh as ->.
  rewrite drop_while_keep by assumption.
  apply last_Some in Hl. destruct Hl as [l' Hl']. rewrite Hl'.
  rewrite rev_app_distr. cbn [rev app].
  rewrite drop_while_keep by assumption.
  cbn [rev]. now rewrite rev_involutive.
Qed.

Lemma strip_by_prefix p (pre s : str) :
  forallb p pre = true -> strip_by p (pre ++ s) = strip_by p s.
Proof.
  intros H. unfold strip_by, lstrip_by. now rewrite drop_while_prefix.
Qed.

Lemma split_on_chars sep (s : str) :
  Forall (fun line => forall c, In c line -> In c s) (split_on sep s).
Proof.
  induction s as [| c s IH]; [constructor; [intros c [] | constructor] |].
  cbn [split_on]. destruct (c =? sep).
  - constructor; [intros c' [] |].
    eapply Forall_impl; [exact IH |]. intros line H c' Hc'. right. auto.
  - destruct (split_on sep s) as [| l ls].
    { constructor; [| constructor]. intros c' [<- | []]. now left. }
    inversion IH as [| ? ? Hl Hls]; subst. constructor.
    + intros c' [<- | Hc']; [now left | right; auto].
    + eapply Forall_impl; [exact Hls |]. intros line H c' Hc'. right. auto.
Qed.

Lemma split_on_length sep (s : str) :
  length (split_on sep s) = S (length (List.filter (N.eqb sep) s)).
Proof.
  induction s as [| c s IH]; [reflexivity |].
  cbn [split_on List.filter]. rewrite (N.eqb_sym sep c).
  destruct (c =? sep); cbn [length]; [now rewrite IH |].
  destruct (split_on sep s); [discriminate | exact IH].
Qed.

Definition is_bullet (c : N) : bool := mem_chars bullet_chars c.

(** The keys of the record the fallback builds. *)
Definition fallback_keys : list string :=
  ["source_file"; "download_link"; "section"; "fact"; "metrics"; "date"; "links"].

Lemma minimal_insight_record (fact : str) :
  let i := minimal_insight fact in
  i !! "source_file" = Some (JStr (U "unknown.pdf"))
  /\ i !! "download_link" = Some JNull
  /\ i !! "section" = Some (JStr [])
  /\ i !! "fact" = Some (JStr fact)
  /\ i !! "metrics" = Some JNull
  /\ i !! "date" = Some JNull
  /\ i !! "links" = Some (JArr [])
  /\ (forall key : string, key ∉ fallback_keys -> i !! key = None).
Proof.
  cbv zeta. unfold minimal_insight, fallback_keys.
  repeat split; try (simplify_map_eq; reflexivity).
  intros key Hkey.
  repeat (rewrite lookup_insert_ne;
          [| intros <-; apply Hkey; set_solver]).
  apply lookup_empty.
Qed.

(** X9: every insight of the fallback is the fixed record (source file
    [unknown.pdf], no download link, empty section, no metrics, no date,
    no links, and no other key) around a fact that is not empty and
    neither begins nor ends with a space, a dash, a bullet or an asterisk;
    there are no more insights than lines, and a text made of such
    characters and line breaks only gives none. *)
Theorem fallback_insights_facts (content_str : str) :
  Forall (fun i : insight =>
            exists fact first final,
              i !! "source_file" = Some (JStr (U "unknown.pdf"))
              /\ i !! "download_link" = Some JNull
              /\ i !! "section" = Some (JStr [])
              /\ i !! "fact" = Some (JStr fact)
              /\ i !! "metrics" = Some JNull
              /\ i !! "date" = Some JNull
              /\ i !! "links" = Some (JArr [])
              /\ (forall key : string, key ∉ fallback_keys -> i !! key = None)
              /\ head fact = Some first /\ is_bullet first = false
              /\ last fact = Some final /\ is_bullet final = false)
         (fallback_insights content_str)
  /\ (length (fallback_insights content_str)
      <= S (length (List.filter (N.eqb NL) content_str)))%nat
  /\ (forallb (fun c => is_bullet c || (c =? NL)) content_str = true ->
      fallback_insights content_str = []).
Proof.
  unfold fallback_insights. split; [| split].
  - apply Forall_map. rewrite List.Forall_forall. intros fact Hin.
    apply filter_In in Hin. destruct Hin as [Hin Htruthy].
    apply in_map_iff in Hin. destruct Hin as (line & <- & _).
    unfold strip_bullets in *.
    pose proof (strip_by_ends (mem_chars bullet_chars) line) as H.
    destruct (strip_by (mem_chars bullet_chars) line) as [| c r];
      [discriminate |].
    destruct H as (Hc & c' & Hl & Hc').
    exists (c :: r), c, c'.
    destruct (minimal_insight_record (c :: r))
      as (H1 & H2 & H3 & H4 & H5 & H6 & H7 & H8).
    repeat (split; [assumption |]). split; [reflexivity |].
    repeat (split; [assumption |]). assumption.
  - rewrite length_map, <- split_on_length.
    etransitivity; [apply filter_length_le |]. now rewrite length_map.
  - intros Hall.
    assert (List.filter str_truthy (map strip_bullets (split_on NL content_str)) = [])
      as ->; [| reflexivity].
    pose proof (split_on_chars NL content_str) as Hchars.
    assert (Forall (fun line => ~ In NL line) (split_on NL content_str)) as Hnl.
    { clear. induction content_str as [| c s IH];
        [constructor; [intros [] | constructor] |].
      cbn [split_on]. destruct (N.eqb_spec c NL) as [-> | Hne].
      - constructor; [intros [] | exact IH].
      - destruct (split_on NL s) as [| l ls].
        + constructor; [| constructor]. intros [H | []]. congruence.
        + inversion IH; subst. constructor; [| assumption].
          intros [H | H]; [congruence | auto]. }
    induction (split_on NL content_str) as [| line lines IH]; [reflexivity |].
    inversion Hchars as [| ? ? Hline Hlines]; subst.
    inversion Hnl as [| ? ? Hn Hns]; subst.
    cbn [map List.filter].
    assert (strip_bullets line = []) as ->.
    { unfold strip_bullets. apply strip_by_nil. unfold lstrip_by.
      apply drop_while_nil. apply forallb_forall. intros c Hc.
      rewrite forallb_forall in Hall. specialize (Hall c (Hline c Hc)).
      apply orb_true_iff in Hall. destruct Hall as [H | H]; [exact H |].
      apply N.eqb_eq in H. subst c. contradiction. }
    cbn [str_truthy]. now apply IH.
Qed.

(** A fact that survives the stripping unchanged: free of line breaks,
    with a first and a last character that are kept. *)
Definition plain_fact (fact : str) : bool :=
  negb (existsb (N.eqb NL) fact)
  && match head fact, last fact with
     | Some first, Some final => negb (is_bullet first) && negb (is_bullet final)
     | _, _ => false
     end.

Definition bulleted (item : str * str) : str := item.1 ++ item.2.

(** X10: a list written one fact per line, each behind any run of spaces,
    dashes, bullets and asterisks, is read back fact by fact and in
    order. *)
Theorem fallback_insights_reads_bullet_list (items : list (str * str)) :
  Forall (fun item : str * str =>
            forallb is_bullet item.1 = true /\ plain_fact item.2 = true) items ->
  fallback_insights (render_lines (map bulleted items))
  = map (fun item : str * str => minimal_insight item.2) items.
Proof.
  intros H. unfold fallback_insights.
  rewrite <- (app_nil_r (render_lines _)).
  rewrite split_on_render_lines.
  - rewrite map_app, List.filter_app. cbn [split_on map List.filter].
    assert (strip_bullets [] = []) as -> by reflexivity.
    cbn [str_truthy]. rewrite app_nil_r.
    induction H as [| [pre fact] items [Hpre Hfact] _ IH]; [reflexivity |].
    cbn [fst snd] in *.
    unfold plain_fact in Hfact. apply andb_true_iff in Hfact.
    destruct Hfact as [_ Hfact].
    destruct (head fact) as [first |] eqn:Hh; [| discriminate].
    destruct (last fact) as [final |] eqn:Hl; [| discriminate].
    apply andb_true_iff in Hfact. destruct Hfact as [H1 H2].
    apply negb_true_iff in H1, H2.
    assert (strip_bullets (bulleted (pre, fact)) = fact) as Hstrip.
    { unfold strip_bullets, bulleted. cbn [fst snd].
      rewrite strip_by_prefix by exact Hpre.
      now apply (strip_by_clean _ fact first final). }
    cbn [map List.filter]. rewrite Hstrip.
    destruct fact as [| c r]; [discriminate |]. cbn [str_truthy map snd].
    f_equal. exact IH.
  - apply Forall_map. eapply Forall_impl; [exact H |].
    intros [pre fact] [Hpre Hfact]. cbn [fst snd] in *. unfold bulleted.
    cbn [fst snd]. intros Hin. apply in_app_or in Hin.
    destruct Hin as [Hin | Hin].
    + rewrite forallb_forall in Hpre. specialize (Hpre NL Hin).
      vm_compute in Hpre. discriminate.
    + unfold plain_fact in Hfact. apply andb_true_iff in Hfact.
      destruct Hfact as [Hfact _]. apply negb_true_iff in Hfact.
      assert (existsb (N.eqb NL) fact = true); [| congruence].
      apply existsb_exists. exists NL. split; [exact Hin | apply N.eqb_refl].
Qed.

Lemma fallback_insights_reads_bullet_list_witness :
  fallback_insights
    (render_lines (map bulleted [(U "- ", U "Revenue grew 12%");
                                 (U " * ", U "Churn fell");
                                 (U "", U "No bullet here")]))
  = map (fun item : str * str => minimal_insight item.2)
        [(U "- ", U "Revenue grew 12%"); (U " * ", U "Churn fell");
         (U "", U "No bullet here")].
Proof.
  apply fallback_insights_reads_bullet_list.
  repeat (constructor; [split; vm_compute; reflexivity |]). constructor.
Defined.

Lemma fallback_insights_facts_witness :
  fallback_insights (U " -- " ++ [NL] ++ U "*" ++ [NL; NL] ++ U " • ") = [].
Proof.
  apply fallback_insights_facts. vm_compute. reflexivity.
Defined.

(** ** The checking loop of [verify_report_links] *)

Section CheckingLoop.

Variable base_url : str.
Variable head : nat -> str -> head_outcome.
Variable parse_template : str -> option (list template_piece).

Let works (p : nat * (str * str)) : bool := link_works base_url head p.1 p.2.2.

Lemma check_links_from links : forall i,
  let r := check_links base_url head i links in
  map head_url r.1
  = List.filter (fun url => negb (own_document base_url url)) (map snd links)
  /\ r.2.1 = map snd (List.filter works (combine (seq i (length links)) links))
  /\ r.2.2
     = map snd (List.filter (fun p => negb (works p))
                            (combine (seq i (length links)) links)).
Proof.
  induction links as [| [text url] links IH]; intros i; cbv zeta;
    [repeat split |].
  cbn [check_links]. specialize (IH (S i)). cbv zeta in IH.
  destruct (check_links base_url head (S i) links) as [reqs [verified broken]].
  cbn [fst snd] in IH. destruct IH as (Hr & Hv & Hb).
  cbn [length seq combine List.filter map fst snd].
  change (works (i, (text, url))) with (link_works base_url head i url).
  split; [| split].
  - rewrite map_app, Hr. unfold head_requests_of.
    destruct (own_document base_url url); reflexivity.
  - destruct (link_works base_url head i url); cbn [fst snd negb map];
      now rewrite Hv.
  - destruct (link_works base_url head i url); cbn [fst snd negb map];
      now rewrite Hb.
Qed.

(** X11: the checking loop sends one HEAD request for every link found
    whose address is not one of the system's own documents, in the order of
    the links and once per occurrence, and none for the others.  It sorts
    the links into the working and the broken ones without changing their
    order, dropping or repeating any. *)
Theorem check_links_accounting (links : list (str * str)) :
  let r := check_links base_url head 0 links in
  let numbered := combine (seq 0 (length links)) links in
  map head_url r.1
  = List.filter (fun url => negb (startswith (base_url ++ U "/data/") url))
                (map snd links)
  /\ r.2.1
     = map snd (List.filter (fun p => link_works base_url head p.1 p.2.2) numbered)
  /\ r.2.2
     = map snd (List.filter (fun p => negb (link_works base_url head p.1 p.2.2))
                            numbered)
  /\ (length r.2.1 + length r.2.2 = length links)%nat
  /\ (length r.1 <= length links)%nat.
Proof.
  cbv zeta. destruct (check_links_from links 0) as (Hr & Hv & Hb).
  split; [exact Hr |]. split; [exact Hv |]. split; [exact Hb |]. split.
  - rewrite Hv, Hb, !length_map.
    transitivity (length (combine (seq 0 (length links)) links));
      [| rewrite length_combine, length_seq; lia].
    generalize (combine (seq 0 (length links)) links) as l.
    induction l as [| p l IH]; [reflexivity |].
    cbn [List.filter]. destruct (works p); cbn [negb length]; lia.
  - rewrite <- (length_map head_url), Hr.
    etransitivity; [apply filter_length_le |]. now rewrite length_map.
Qed.

Lemma find_links_no_bracket report_content :
  has_char LBRACKET report_content = false -> find_links report_content = [].
Proof.
  intros H. unfold find_links, finditer.
  rewrite <- (app_nil_r report_content). now rewrite finditer_plain.
Qed.

(** X12: a report without an opening square bracket holds no link: it is
    returned as it is, whitespace included, and no request is sent. *)
Theorem verify_report_links_no_bracket (report_content : str) :
  has_char LBRACKET report_content = false ->
  verify_report_links base_url head parse_template report_content
  = ([], report_content).
Proof.
  intros H. unfold verify_report_links.
  now rewrite find_links_no_bracket.
Qed.

End CheckingLoop.

Lemma verify_report_links_no_bracket_witness :
  verify_report_links (U "https://maclay.example") (fun _ _ => HeadStatus 404)
    (fun _ => None) ([NL; NL; NL] ++ U "  plain (text) with ] and spaces  " ++ [NL])
  = ([], [NL; NL; NL] ++ U "  plain (text) with ] and spaces  " ++ [NL]).
Proof.
  apply verify_report_links_no_bracket. vm_compute. reflexivity.
Defined.

(** ** What the whitespace clean-up keeps *)

(** The characters of a text that are not whitespace, in order. *)
Definition visible (s : str) : str := List.filter (fun c => negb (py_isspace c)) s.

(** An atom that consumes whitespace only. *)
Definition space_atom (a : atom) : Prop :=
  match a with
  | Chr c => py_isspace c = true
  | Star class | Plus class => forall x, class x = true -> py_isspace x = true
  | Bol => True
  end.

Definition consumed (lens : list nat) : nat := foldr Nat.add 0%nat lens.

Lemma star_match_split class k : forall s taken prev lens,
  star_match class k taken prev s = Some lens ->
  exists m lens' prev',
    lens = (taken + m)%nat :: lens'
    /\ (m <= length s)%nat
    /\ forallb class (take m s) = true
    /\ k prev' (drop m s) = Some lens'.
Proof.
  induction s as [| c r IH]; intros taken prev lens H.
  - cbn in H. destruct (k prev []) as [lens' |] eqn:Hk; [| discriminate].
    injection H as <-. exists 0%nat, lens', prev.
    rewrite Nat.add_0_r. repeat split; auto.
  - cbn [star_match] in H.
    assert (cons taken <$> k prev (c :: r) = Some lens ->
            exists m lens' prev',
              lens = (taken + m)%nat :: lens'
              /\ (m <= length (c :: r))%nat
              /\ forallb class (take m (c :: r)) = true
              /\ k prev' (drop m (c :: r)) = Some lens') as Hstop.
    { intros Hk. destruct (k prev (c :: r)) as [lens' |] eqn:Hk'; [| discriminate].
      injection Hk as <-. exists 0%nat, lens', prev.
      rewrite Nat.add_0_r. repeat split; auto. cbn. lia. }
    destruct (class c) eqn:Hc; [| auto].
    destruct (star_match class k (S taken) (Some c) r) as [lens0 |] eqn:Hs; [| auto].
    injection H as <-.
    destruct (IH _ _ _ Hs) as (m & lens' & prev' & -> & Hm & Hall & Hk).
    exists (S m), lens', prev'. repeat split.
    + f_equal. lia.
    + cbn. lia.
    + cbn. now rewrite Hc.
    + exact Hk.
Qed.

Lemma forallb_take_add {A} (p : A -> bool) m n (s : list A) :
  forallb p (take m s) = true -> forallb p (take n (drop m s)) = true ->
  forallb p (take (m + n) s) = true.
Proof.
  revert s. induction m as [| m IH]; intros s Hm Hn; [now rewrite drop_0 in Hn |].
  destruct s as [| c s]; [reflexivity |].
  cbn in *. apply andb_true_iff in Hm. destruct Hm as [-> Hm]. cbn. auto.
Qed.

Lemma match_here_space re :
  Forall space_atom re -> forall prev s lens,
  match_here re prev s = Some lens ->
  (consumed lens <= length s)%nat
  /\ forallb py_isspace (take (consumed lens) s) = true.
Proof.
  induction 1 as [| a re Ha _ IH]; intros prev s lens H.
  - injection H as <-. cbn. split; [lia | reflexivity].
  - assert (forall taken prev s lens class,
              (forall x, class x = true -> py_isspace x = true) ->
              star_match class (match_here re) taken prev s = Some lens ->
              (consumed lens <= taken + length s)%nat
              /\ forallb py_isspace (take (consumed lens - taken) s) = true)
      as Hstar.
    { clear -IH. intros taken prev s lens class Hclass Hs.
      destruct (star_match_split _ _ _ _ _ _ Hs)
        as (m & lens' & prev' & -> & Hm & Hall & Hk).
      destruct (IH _ _ _ Hk) as [Hlen Hsp].
      rewrite length_drop in Hlen. cbn [consumed foldr].
      fold (consumed lens'). split; [lia |].
      replace (taken + m + consumed lens' - taken)%nat
        with (m + consumed lens')%nat by lia.
      apply forallb_take_add; [| exact Hsp].
      apply forallb_forall. intros x Hx. apply Hclass.
      rewrite forallb_forall in Hall. now apply Hall. }
    destruct a as [c | class | class |]; cbn [match_here space_atom] in *.
    + destruct s as [| x r]; [discriminate |].
      destruct (N.eqb_spec x c) as [-> | _]; [| discriminate].
      destruct (match_here re (Some c) r) as [lens' |] eqn:Hr; [| discriminate].
      injection H as <-. destruct (IH _ _ _ Hr) as [Hlen Hsp].
      cbn [consumed foldr]. fold (consumed lens'). cbn [length]. split; [lia |].
      cbn [Nat.add take forallb]. now rewrite Ha.
    + destruct (Hstar _ _ _ _ _ Ha H) as [Hlen Hsp].
      rewrite Nat.sub_0_r in Hsp. split; [exact Hlen | exact Hsp].
    + destruct s as [| x r]; [discriminate |].
      destruct (class x) eqn:Hx; [| discriminate].
      destruct (Hstar _ _ _ _ _ Ha H) as [Hlen Hsp].
      destruct (star_match_split _ _ _ _ _ _ H) as (m & lens' & _ & -> & _).
      cbn [consumed foldr] in *. fold (consumed lens') in *.
      cbn [length]. split; [lia |].
      replace (1 + m + consumed lens')%nat with (S (1 + m + consumed lens' - 1))
        by lia.
      cbn [take forallb]. rewrite (Ha x Hx). exact Hsp.
    + destruct (at_line_start prev); [| discriminate].
      destruct (match_here re prev s) as [lens' |] eqn:Hr; [| discriminate].
      injection H as <-. exact (IH _ _ _ Hr).
Qed.

Lemma visible_app a b : visible (a ++ b) = visible a ++ visible b.
Proof. apply List.filter_app. Qed.

Lemma visible_space s : forallb py_isspace s = true -> visible s = [].
Proof.
  induction s as [| c s IH]; [reflexivity |]. cbn.
  destruct (py_isspace c); [exact IH | discriminate].
Qed.

Lemma sub_from_visible re repl :
  Forall space_atom re -> forallb py_isspace repl = true ->
  forall s prev skip,
    forallb py_isspace (take skip s) = true ->
    visible (sub_from re repl prev skip s) = visible s.
Proof.
  intros Hre Hrepl. induction s as [| c r IH]; intros prev skip Hskip;
    [reflexivity |].
  cbn [sub_from]. destruct skip as [| k].
  - unfold match_length.
    destruct (match_here re prev (c :: r)) as [lens |] eqn:Hm; cbn [fmap option_fmap option_map];
      [| cbn; now rewrite IH].
    destruct (match_here_space re Hre _ _ _ Hm) as [_ Hsp].
    fold (consumed lens). destruct (consumed lens) as [| n];
      [cbn; now rewrite IH |].
    cbn [take forallb] in Hsp. apply andb_true_iff in Hsp.
    destruct Hsp as [Hc Hsp].
    rewrite visible_app, (visible_space repl Hrepl), IH by exact Hsp.
    cbn. now rewrite Hc.
  - cbn [take forallb] in Hskip. apply andb_true_iff in Hskip.
    destruct Hskip as [Hc Hskip]. rewrite IH by exact Hskip.
    cbn. now rewrite Hc.
Qed.

Lemma visible_drop_while s : visible (drop_while py_isspace s) = visible s.
Proof.
  induction s as [| c s IH]; [reflexivity |]. cbn.
  destruct (py_isspace c) eqn:Hc; [exact IH |]. cbn. now rewrite Hc.
Qed.

Lemma visible_rev s : visible (rev s) = rev (visible s).
Proof.
  induction s as [| c s IH]; [reflexivity |].
  cbn [rev]. rewrite visible_app, IH. cbn.
  destruct (py_isspace c); cbn; [now rewrite app_nil_r | reflexivity].
Qed.

Lemma visible_strip s : visible (strip s) = visible s.
Proof.
  unfold strip, strip_by, rstrip_by, lstrip_by.
  rewrite visible_rev, visible_drop_while, visible_rev, rev_involutive.
  apply visible_drop_while.
Qed.

Lemma drop_while_length {A} (p : A -> bool) (l : list A) :
  (length (drop_while p l) <= length l)%nat.
Proof.
  induction l as [| x l IH]; [reflexivity |]. cbn.
  destruct (p x); cbn; lia.
Qed.

Lemma sub_from_length re repl :
  (forall prev s lens, match_here re prev s = Some lens ->
                       consumed lens <> 0%nat ->
                       (length repl <= consumed lens <= length s)%nat) ->
  forall s prev skip,
    (skip <= length s)%nat ->
    (length (sub_from re repl prev skip s) + skip <= length s)%nat.
Proof.
  intros Hre. induction s as [| c r IH]; intros prev skip Hskip;
    [cbn in *; lia |].
  cbn [sub_from]. destruct skip as [| k].
  - unfold match_length.
    destruct (match_here re prev (c :: r)) as [lens |] eqn:Hm;
      cbn [fmap option_fmap option_map].
    + fold (consumed lens). destruct (consumed lens) as [| n] eqn:Hn.
      * specialize (IH (Some c) 0%nat). cbn [length] in *. lia.
      * destruct (Hre _ _ _ Hm) as [H1 H2]; [lia |].
        rewrite Hn in *. cbn [length] in *.
        specialize (IH (Some c) n). rewrite length_app. lia.
    + specialize (IH (Some c) 0%nat). cbn [length] in *. lia.
  - cbn [length] in *. specialize (IH (Some c) k). lia.
Qed.

Lemma blank_run_space : Forall space_atom blank_run_pattern.
Proof.
  unfold blank_run_pattern.
  repeat (constructor; [first [exact isspace_NL | intros x Hx; exact Hx] |]).
  constructor.
Qed.

Lemma blank_line_space : Forall space_atom blank_line_pattern.
Proof.
  unfold blank_line_pattern.
  repeat (constructor;
          [first [exact I | exact isspace_NL | intros x Hx; exact Hx] |]).
  constructor.
Qed.

Lemma blank_run_consumes prev s lens :
  match_here blank_run_pattern prev s = Some lens ->
  (3 <= consumed lens <= length s)%nat.
Proof.
  intros H. split.
  - unfold blank_run_pattern in H. cbn [match_here] in H.
    destruct s as [| x r]; [discriminate |].
    destruct (x =? NL); [| discriminate].
    destruct (star_match _ _ 0 (Some x) r) as [l1 |] eqn:H1; [| discriminate].
    injection H as <-.
    destruct (star_match_split _ _ _ _ _ _ H1) as (m & l2 & prev' & -> & _ & _ & H2).
    destruct (drop m r) as [| y r']; [discriminate |].
    destruct (y =? NL); [| discriminate].
    destruct (star_match _ _ 0 (Some y) r') as [l3 |] eqn:H3; [| discriminate].
    injection H2 as <-.
    destruct (star_match_split _ _ _ _ _ _ H3) as (m' & l4 & prev'' & -> & _ & _ & H4).
    destruct (drop m' r') as [| z r'']; [discriminate |].
    destruct (z =? NL); [| discriminate].
    injection H4 as <-. cbn. lia.
  - apply (match_here_space blank_run_pattern blank_run_space) in H. tauto.
Qed.

(** X13: the whitespace clean-up removes and inserts whitespace only: the
    characters of the report that are not whitespace come out unchanged
    and in the same order, and the result is never longer than the
    report. *)
Theorem collapse_whitespace_keeps_text (report_content : str) :
  List.filter (fun c => negb (py_isspace c)) (collapse_whitespace report_content)
  = List.filter (fun c => negb (py_isspace c)) report_content
  /\ (length (collapse_whitespace report_content) <= length report_content)%nat.
Proof.
  unfold collapse_whitespace. split.
  - fold (visible report_content). 
    change (visible (strip (re_sub blank_line_pattern []
                      (re_sub blank_run_pattern [NL; NL] report_content)))
            = visible report_content).
    rewrite visible_strip. unfold re_sub.
    rewrite sub_from_visible;
      [| exact blank_line_space | reflexivity | reflexivity].
    apply sub_from_visible; [exact blank_run_space | reflexivity | reflexivity].
  - unfold strip, strip_by, rstrip_by, lstrip_by. rewrite length_rev.
    etransitivity; [apply drop_while_length |]. rewrite length_rev.
    etransitivity; [apply drop_while_length |]. unfold re_sub.
    pose proof (sub_from_length blank_line_pattern []) as H1.
    pose proof (sub_from_length blank_run_pattern [NL; NL]) as H2.
    etransitivity.
    + specialize (H1 ltac:(intros prev s lens Hm _; cbn [length]; split; [lia |];
                           apply (match_here_space blank_line_pattern
                                                   blank_line_space) in Hm;
                           tauto)
                     (sub_from blank_run_pattern [NL; NL] None 0 report_content)
                     None 0%nat ltac:(lia)).
      rewrite Nat.add_0_r in H1. exact H1.
    + specialize (H2 ltac:(intros prev s lens Hm _; cbn [length];
                           apply blank_run_consumes in Hm; lia)
                     report_content None 0%nat ltac:(lia)).
      rewrite Nat.add_0_r in H2. exact H2.
Qed.

(** ** Putting the working links back: the last loop of [verify_report_links] *)

(** What the substitution for the verified link [(text, url)] makes of a
    piece: a link with this text gets this address. *)
Definition readdress (text url : str) (p : piece) : piece :=
  match p with
  | Link text' url' => if str_eqb text' text then Link text url else p
  | Text _ => p
  end.

Definition restore_doc (verified : list (str * str)) (doc : list piece) : list piece :=
  fold_left (fun d '(text, url) => map (readdress text url) d) verified doc.

(** A link as [re.findall] gives it on a flat report, free of backslashes,
    so that [re] takes its span as a replacement literally. *)
Definition plain_link (l : str * str) : bool :=
  piece_ok (Link l.1 l.2) && negb (has_char BACKSLASH (l.1 ++ l.2)).

Lemma contains_single c s : contains [c] s = has_char c s.
Proof.
  induction s as [| x s IH]; [reflexivity |].
  cbn [contains startswith]. rewrite IH, has_char_cons.
  now destruct (c =? x).
Qed.

Lemma contains_app_r p a b : contains p b = true -> contains p (a ++ b) = true.
Proof.
  intros H. induction a as [| x a IH]; [exact H |].
  cbn [app contains]. rewrite IH. apply orb_true_r.
Qed.

Lemma match_here_literal_other re : forall text text' prev rest,
  ~ In RBRACKET text -> ~ In RBRACKET text' -> text <> text' ->
  match_here (map Chr text ++ Chr RBRACKET :: re) prev (text' ++ RBRACKET :: rest)
  = None.
Proof.
  induction text as [| a text IH]; intros text' prev rest Ht Ht' Hne.
  - destruct text' as [| x text']; [congruence |].
    cbn [map app match_here].
    destruct (N.eqb_spec x RBRACKET) as [-> | _]; [| reflexivity].
    exfalso. apply Ht'. now left.
  - cbn [map app match_here]. destruct text' as [| x text']; cbn [app].
    + destruct (N.eqb_spec RBRACKET a) as [<- | _]; [| reflexivity].
      exfalso. apply Ht. now left.
    + destruct (N.eqb_spec x a) as [-> | _]; [| reflexivity].
      rewrite IH; [reflexivity | | |].
      * intros H. apply Ht. now right.
      * intros H. apply Ht'. now right.
      * congruence.
Qed.

Lemma match_here_literal re : forall text prev rest,
  match_here (map Chr text ++ re) prev (text ++ rest)
  = app (repeat 1%nat (length text)) <$> match_here re (prev_after prev text) rest.
Proof.
  induction text as [| a text IH]; intros prev rest.
  - cbn [map app length repeat]. unfold prev_after. cbn [last].
    now destruct (match_here re prev rest).
  - cbn [map app length repeat]. rewrite match_here_chr, IH, prev_after_cons.
    now destruct (match_here re (prev_after (Some a) text) rest).
Qed.

Lemma consumed_ones n lens :
  foldr Nat.add 0%nat (repeat 1%nat n ++ lens) = (n + foldr Nat.add 0%nat lens)%nat.
Proof. induction n as [| n IH]; cbn; [reflexivity | now rewrite IH]. Qed.

Section RestoreSpan.

Variables (text url : str).
Hypothesis link_ok : piece_ok (Link text url) = true.

Let re := verified_pattern text.
Let repl := markdown_span text url.

Lemma verified_pattern_head :
  re = Chr LBRACKET
         :: (map Chr text
               ++ [Chr RBRACKET; Chr LPAREN; Plus (not_char RPAREN); Chr RPAREN]).
Proof. reflexivity. Qed.

Lemma match_verified_same prev url' rest :
  piece_ok (Link text url') = true ->
  match_length re prev (markdown_span text url' ++ rest)
  = Some (S (length (span_body text url'))).
Proof.
  intros H. apply link_ok_parts in H.
  destruct H as (_ & _ & _ & Hu & _ & Hur).
  destruct url' as [| y url']; [contradiction |].
  assert (not_char RPAREN y = true /\ forallb (not_char RPAREN) url' = true)
    as [Hy Hurl].
  { apply andb_true_iff. apply (forallb_not_char RPAREN (y :: url') Hur). }
  unfold match_length. rewrite verified_pattern_head, markdown_span_body.
  cbn [app]. rewrite match_here_chr. unfold span_body.
  rewrite <- !app_assoc. rewrite match_here_literal. cbn [app].
  rewrite !match_here_chr, (match_here_plus _ _ _ _ _ Hy).
  rewrite (star_match_run _ _ url' 1%nat (Some y) (RPAREN :: rest) [1%nat]
             Hurl eq_refl); [| now rewrite match_here_chr].
  cbn [fmap option_fmap option_map]. f_equal.
  cbn [foldr]. rewrite consumed_ones, !length_app. cbn [foldr length].
  rewrite ?length_app. cbn [length]. lia.
Qed.

Lemma match_verified_other prev text' url' rest :
  piece_ok (Link text' url') = true -> text' <> text ->
  match_length re prev (markdown_span text' url' ++ rest) = None.
Proof.
  intros H' Hne. apply link_ok_parts in H'.
  destruct H' as (_ & _ & Ht' & _).
  pose proof (link_ok_parts _ _ link_ok) as (_ & _ & Ht & _).
  unfold match_length. rewrite verified_pattern_head, markdown_span_body.
  cbn [app]. rewrite match_here_chr. unfold span_body.
  rewrite <- app_assoc. cbn [app].
  rewrite match_here_literal_other; auto.
Qed.

Lemma sub_plain s : forall prev rest,
  has_char LBRACKET s = false ->
  sub_from re repl prev O (s ++ rest)
  = s ++ sub_from re repl (prev_after prev s) O rest.
Proof.
  induction s as [| c s IH]; intros prev rest H; [reflexivity |].
  rewrite has_char_cons in H. apply orb_false_iff in H. destruct H as [Hc Hs].
  cbn [app]. rewrite sub_from_no_match.
  - rewrite IH by assumption. now rewrite prev_after_cons.
  - unfold match_length. rewrite verified_pattern_head. cbn [match_here].
    destruct (N.eqb_spec c LBRACKET) as [-> | _]; [| reflexivity].
    now rewrite N.eqb_refl in Hc.
Qed.

Lemma sub_same prev url' rest :
  piece_ok (Link text url') = true ->
  sub_from re repl prev O (markdown_span text url' ++ rest)
  = repl ++ sub_from re repl (Some RPAREN) O rest.
Proof.
  intros H. pose proof (match_verified_same prev url' rest H) as Hm.
  rewrite markdown_span_body in *. cbn [app sub_from] in *. rewrite Hm.
  f_equal. rewrite sub_from_skip. f_equal.
  unfold prev_after, span_body. rewrite !app_assoc. now rewrite last_snoc.
Qed.

Lemma sub_other prev text' url' rest :
  piece_ok (Link text' url') = true -> text' <> text ->
  sub_from re repl prev O (markdown_span text' url' ++ rest)
  = markdown_span text' url' ++ sub_from re repl (Some RPAREN) O rest.
Proof.
  intros H Hne. pose proof (match_verified_other prev text' url' rest H Hne) as Hm.
  rewrite markdown_span_body in *. cbn [app] in *.
  rewrite sub_from_no_match by exact Hm. f_equal.
  rewrite sub_plain by now apply span_body_no_bracket. f_equal. f_equal.
  unfold prev_after, span_body. rewrite !app_assoc. now rewrite last_snoc.
Qed.

Lemma re_sub_render_doc doc :
  forallb piece_ok doc = true ->
  re_sub re repl (render_doc doc) = render_doc (map (readdress text url) doc).
Proof.
  unfold re_sub, render_doc. generalize (@None N) as prev.
  induction doc as [| p doc IH]; intros prev H; [reflexivity |].
  cbn in H. apply andb_true_iff in H. destruct H as [Hp Hdoc].
  cbn [map concat]. destruct p as [s | text' url'].
  - cbn [readdress render_piece].
    rewrite sub_plain by (cbn in Hp; now apply negb_true_iff in Hp).
    f_equal. now apply IH.
  - cbn [readdress render_piece]. unfold str_eqb.
    destruct (decide (text' = text)) as [-> | Hne].
    + rewrite bool_decide_eq_true_2 by reflexivity. cbn [render_piece].
      rewrite sub_same by assumption. f_equal. now apply IH.
    + rewrite bool_decide_eq_false_2 by assumption. cbn [render_piece].
      rewrite sub_other by assumption. f_equal. now apply IH.
Qed.

Lemma readdress_ok doc :
  forallb piece_ok doc = true ->
  forallb piece_ok (map (readdress text url) doc) = true.
Proof.
  induction doc as [| p doc IH]; intros H; [reflexivity |].
  cbn [forallb map] in *. apply andb_true_iff in H. destruct H as [Hp Hdoc].
  rewrite (IH Hdoc), andb_true_r.
  destruct p as [s | text' url']; [exact Hp |].
  cbn [readdress]. now destruct (str_eqb text' text).
Qed.

Lemma readdress_absent doc :
  contains ([LBRACKET] ++ text ++ [RBRACKET; LPAREN]) (render_doc doc) = false ->
  map (readdress text url) doc = doc.
Proof.
  unfold render_doc. induction doc as [| p doc IH]; intros H; [reflexivity |].
  cbn [map concat] in *.
  assert (contains ([LBRACKET] ++ text ++ [RBRACKET; LPAREN])
                   (concat (map render_piece doc)) = false) as Hdoc.
  { destruct (contains _ (concat (map render_piece doc))) eqn:Hc; [| reflexivity].
    now rewrite (contains_app_r _ (render_piece p) _ Hc) in H. }
  rewrite (IH Hdoc). f_equal.
  destruct p as [s | text' url']; [reflexivity |].
  cbn [readdress]. unfold str_eqb.
  destruct (decide (text' = text)) as [-> | Hne];
    [| now rewrite bool_decide_eq_false_2].
  exfalso. cbn [render_piece] in H.
  assert (contains ([LBRACKET] ++ text ++ [RBRACKET; LPAREN])
            (markdown_span text url' ++ concat (map render_piece doc)) = true)
    as Hc; [| congruence].
  apply contains_startswith. unfold markdown_span.
  replace (([LBRACKET] ++ text ++ [RBRACKET; LPAREN] ++ url' ++ [RPAREN])
             ++ concat (map render_piece doc))
    with (([LBRACKET] ++ text ++ [RBRACKET; LPAREN])
            ++ url' ++ [RPAREN] ++ concat (map render_piece doc))
    by (rewrite <- !app_assoc; reflexivity).
  apply startswith_app.
Qed.

End RestoreSpan.

Section RestoreVerified.

Variable base_url : str.
Variable head : nat -> str -> head_outcome.
Variable parse_template : str -> option (list template_piece).

Lemma sub_with_literal re (repl : str) : forall s prev skip,
  sub_with re (expand [Literal repl]) prev skip s = sub_from re repl prev skip s.
Proof.
  induction s as [| c r IH]; intros prev skip; [reflexivity |].
  cbn [sub_with sub_from]. destruct skip as [| k]; [| apply IH].
  destruct (match_length re prev (c :: r)) as [[| n] |]; rewrite IH; try reflexivity.
  unfold expand. cbn [map concat]. now rewrite app_nil_r.
Qed.

Lemma expand_template_plain text url :
  has_char BACKSLASH (text ++ url) = false ->
  expand_template parse_template (markdown_span text url)
  = Some [Literal (markdown_span text url)].
Proof.
  intros H. unfold expand_template. rewrite contains_single.
  rewrite has_char_app in H. apply orb_false_iff in H. destruct H as [Ht Hu].
  unfold markdown_span. rewrite !has_char_app, Ht, Hu. reflexivity.
Qed.

Lemma restore_verified_render_doc (verified : list (str * str)) :
  forall doc : list piece,
  forallb piece_ok doc = true ->
  forallb plain_link verified = true ->
  restore_verified parse_template verified (render_doc doc)
  = render_doc (restore_doc verified doc).
Proof.
  unfold restore_doc.
  induction verified as [| [text url] verified IH]; intros doc Hdoc Hv;
    [reflexivity |].
  cbn [forallb] in Hv. apply andb_true_iff in Hv. destruct Hv as [Hl Hv].
  unfold plain_link in Hl. cbn [fst snd] in Hl.
  apply andb_true_iff in Hl. destruct Hl as [Hok Hplain].
  apply negb_true_iff in Hplain.
  cbn [restore_verified fold_left].
  destruct (contains _ (render_doc doc)) eqn:Hc.
  - rewrite expand_template_plain by exact Hplain.
    unfold re_sub_with. rewrite sub_with_literal.
    fold (re_sub (verified_pattern text) (markdown_span text url) (render_doc doc)).
    rewrite re_sub_render_doc by assumption.
    apply IH; [now apply readdress_ok | exact Hv].
  - rewrite (readdress_absent text url doc Hc). now apply IH.
Qed.

Lemma restore_doc_ok (verified : list (str * str)) : forall doc : list piece,
  forallb piece_ok doc = true ->
  forallb plain_link verified = true ->
  forallb piece_ok (restore_doc verified doc) = true.
Proof.
  unfold restore_doc.
  induction verified as [| [text url] verified IH]; intros doc Hdoc Hv;
    [exact Hdoc |].
  cbn [forallb] in Hv. apply andb_true_iff in Hv. destruct Hv as [Hl Hv].
  unfold plain_link in Hl. cbn [fst snd] in Hl.
  apply andb_true_iff in Hl. destruct Hl as [Hok _].
  cbn [fold_left]. apply IH; [now apply readdress_ok | exact Hv].
Qed.

Lemma restore_doc_texts (verified : list (str * str)) : forall doc : list piece,
  map fst (doc_links (restore_doc verified doc)) = map fst (doc_links doc).
Proof.
  unfold restore_doc.
  induction verified as [| [text url] verified IH]; intros doc; [reflexivity |].
  cbn [fold_left]. rewrite IH. clear IH.
  induction doc as [| [s | text' url'] doc IH]; [reflexivity | exact IH |].
  cbn [map readdress]. destruct (str_eqb text' text) eqn:E.
  - unfold str_eqb in E. apply bool_decide_eq_true in E. subst text'.
    change (doc_links (Link text url :: map (readdress text url) doc))
      with ((text, url) :: doc_links (map (readdress text url) doc)).
    change (doc_links (Link text url' :: doc)) with ((text, url') :: doc_links doc).
    cbn [map fst]. f_equal. exact IH.
  - change (doc_links (Link text' url' :: map (readdress text url) doc))
      with ((text', url') :: doc_links (map (readdress text url) doc)).
    change (doc_links (Link text' url' :: doc))
      with ((text', url') :: doc_links doc).
    cbn [map fst]. f_equal. exact IH.
Qed.

(** X14: on a flat report, and for working links of the kind a flat
    report holds (text and address not empty and without an opening
    bracket, the text without a closing bracket, the address without a
    closing parenthesis) that hold no backslash (so that [re.sub] takes
    each replacement as it is written), the loop over the working links
    gives every link that shares its text with a working link the address
    of that link, the last of them when there are several, and changes
    nothing else: the report is flat again, with the same link texts in the
    same places. *)
Theorem restore_verified_readdresses
    (verified : list (str * str)) (doc : list piece) :
  forallb piece_ok doc = true ->
  forallb plain_link verified = true ->
  let restored := restore_verified parse_template verified (render_doc doc) in
  let readdressed :=
    fold_left (fun d '(text, url) => map (readdress text url) d) verified doc in
  restored = render_doc readdressed
  /\ forallb piece_ok readdressed = true
  /\ find_links restored = doc_links readdressed
  /\ map fst (find_links restored) = map fst (find_links (render_doc doc)).
Proof.
  intros Hdoc Hv. cbv zeta.
  pose proof (restore_verified_render_doc verified doc Hdoc Hv) as Hr.
  pose proof (restore_doc_ok verified doc Hdoc Hv) as Hok.
  pose proof (restore_doc_texts verified doc) as Ht.
  unfold restore_doc in *. rewrite Hr.
  split; [reflexivity |]. split; [exact Hok |].
  rewrite !find_links_render_doc by assumption.
  split; [reflexivity | exact Ht].
Qed.

Lemma check_links_all_work links : forall i,
  (forall k l, In l links -> link_works base_url head k l.2 = true) ->
  (check_links base_url head i links).2 = (links, []).
Proof.
  induction links as [| [text url] links IH]; intros i H; [reflexivity |].
  cbn [check_links]. specialize (IH (S i)).
  destruct (check_links base_url head (S i) links) as [reqs [verified broken]].
  cbn [snd] in *.
  assert (link_works base_url head i url = true) as ->
      by (apply (H i (text, url)); now left).
  assert ((verified, broken) = (links, [])) as Heq
      by (apply IH; intros k l Hl; apply H; now right).
  injection Heq as -> ->. reflexivity.
Qed.

Lemma restore_doc_same verified : forall doc,
  (forall text url url',
      In (text, url) verified -> In (Link text url') doc -> url' = url) ->
  restore_doc verified doc = doc.
Proof.
  unfold restore_doc.
  induction verified as [| [text url] verified IH]; intros doc H; [reflexivity |].
  cbn [fold_left].
  assert (map (readdress text url) doc = doc) as ->.
  { assert (forall url', In (Link text url') doc -> url' = url) as Hdoc
        by (intros url' Hin; apply (H text url url'); [now left | exact Hin]).
    clear -Hdoc. induction doc as [| p doc IH]; [reflexivity |].
    cbn [map]. rewrite IH by (intros url' Hin; apply Hdoc; now right).
    f_equal. destruct p as [s | text' url']; [reflexivity |].
    cbn [readdress]. unfold str_eqb.
    destruct (decide (text' = text)) as [-> | Hne];
      [| now rewrite bool_decide_eq_false_2].
    rewrite bool_decide_eq_true_2 by reflexivity.
    now rewrite (Hdoc url') by now left. }
  apply IH. intros text' url0 url' Hin. apply H. now right.
Qed.

Lemma doc_links_In doc text url :
  In (text, url) (doc_links doc) <-> In (Link text url) doc.
Proof.
  induction doc as [| [s | text' url'] doc IH]; [tauto | |].
  - change (doc_links (Text s :: doc)) with (doc_links doc). rewrite IH.
    cbn [In]. split; [tauto | intros [H | H]; [discriminate | exact H]].
  - change (doc_links (Link text' url' :: doc))
      with ((text', url') :: doc_links doc).
    cbn [In]. rewrite IH. split; (intros [H | H]; [left | right]); congruence.
Qed.

(** X15: when every link of a flat report works and none holds a
    backslash in its text or address (so that [re.sub] takes each
    replacement as it is written), the report comes back with each link
    carrying the address of the last link of the same text.  So it comes
    back unchanged, blank lines and outer whitespace included, when no text
    is used for two different addresses. *)
Theorem verify_report_links_all_working (doc : list piece) :
  forallb piece_ok doc = true ->
  forallb plain_link (doc_links doc) = true ->
  (forall k l, In l (doc_links doc) -> link_works base_url head k l.2 = true) ->
  (verify_report_links base_url head parse_template (render_doc doc)).2
  = render_doc (restore_doc (doc_links doc) doc)
  /\ ((forall text url url',
          In (text, url) (doc_links doc) -> In (text, url') (doc_links doc) ->
          url' = url) ->
      (verify_report_links base_url head parse_template (render_doc doc)).2
      = render_doc doc).
Proof.
  intros Hdoc Hplain Hworks.
  assert ((verify_report_links base_url head parse_template (render_doc doc)).2
          = render_doc (restore_doc (doc_links doc) doc)) as Hrun.
  { unfold verify_report_links. rewrite find_links_render_doc by exact Hdoc.
    destruct (doc_links doc) as [| l links] eqn:Hlinks; [reflexivity |].
    pose proof (check_links_all_work (l :: links) 0 Hworks) as Hcheck.
    destruct (check_links base_url head 0 (l :: links)) as [reqs [verified broken]].
    cbn [snd] in *. injection Hcheck as -> ->.
    now apply restore_verified_render_doc. }
  split; [exact Hrun |].
  intros Hsame. rewrite Hrun. f_equal. apply restore_doc_same.
  intros text url url' Hin Hin'. apply (Hsame text url url'); [exact Hin |].
  now apply doc_links_In.
Qed.

End RestoreVerified.

Definition two_addresses : list piece :=
  [Link (U "a") (U "https://x.example/1"); Text (U " and ");
   Link (U "a") (U "https://x.example/2")].

Lemma restore_verified_readdresses_witness :
  restore_verified (fun _ => None) (doc_links two_addresses)
                   (U "[a](https://x.example/1) and [a](https://x.example/2)")
  = U "[a](https://x.example/2) and [a](https://x.example/2)".
Proof.
  assert (forallb piece_ok two_addresses = true) as H1
      by (vm_compute; reflexivity).
  assert (forallb plain_link (doc_links two_addresses) = true) as H2
      by (vm_compute; reflexivity).
  destruct (restore_verified_readdresses (fun _ => None)
              (doc_links two_addresses) two_addresses H1 H2) as [H _].
  assert (render_doc two_addresses
          = U "[a](https://x.example/1) and [a](https://x.example/2)") as Hr
      by (vm_compute; reflexivity).
  rewrite Hr in H. rewrite H. vm_compute. reflexivity.
Defined.

(** A reference to the match in the text of a working link: [re] compiles
    the template [[a\g<0>](u)] to the three pieces below, and every span
    replaced is wrapped in a span of its own. *)
Definition wrapping_template (_ : str) : option (list template_piece) :=
  Some [Literal (U "[a"); WholeMatch; Literal (U "](u)")].

Example restore_verified_whole_match :
  restore_verified wrapping_template [(U "a\g<0>", U "u")]
                   (U "[a\g<0>](v) and [a\g<0>](w)")
  = U "[a[a\g<0>](v)](u) and [a[a\g<0>](w)](u)".
Proof. vm_compute. reflexivity. Qed.

Lemma distinct_texts_one_address (links : list (str * str)) text url url' :
  List.NoDup (map fst links) ->
  In (text, url) links -> In (text, url') links -> url' = url.
Proof.
  induction links as [| [t u] links IH]; intros Hnd Hin Hin'; [contradiction |].
  cbn [map fst] in Hnd. inversion Hnd as [| ? ? Hnot Hnd']; subst.
  destruct Hin as [Hin | Hin], Hin' as [Hin' | Hin'].
  - congruence.
  - exfalso. apply Hnot. apply in_map_iff. exists (text, url').
    split; [cbn; congruence | exact Hin'].
  - exfalso. apply Hnot. apply in_map_iff. exists (text, url).
    split; [cbn; congruence | exact Hin].
  - now apply IH.
Qed.

Definition head_found (_ : nat) (_ : str) : head_outcome := HeadStatus 200.

Definition spaced_report : list piece :=
  [Text ([NL; NL; NL] ++ U "  See "); Link (U "Acme") (U "https://acme.example");
   Text ([NL; NL; NL] ++ U "and "); Link (U "Bolt") (U "https://bolt.example");
   Text (U " .  " ++ [NL])].

Lemma verify_report_links_all_working_witness :
  (verify_report_links [] head_found (fun _ => None) (render_doc spaced_report)).2
  = render_doc spaced_report.
Proof.
  assert (forallb piece_ok spaced_report = true) as H1
      by (vm_compute; reflexivity).
  assert (forallb plain_link (doc_links spaced_report) = true) as H2
      by (vm_compute; reflexivity).
  assert (forall k l, In l (doc_links spaced_report) ->
                      link_works [] head_found k l.2 = true) as H3.
  { intros k l Hl. unfold link_works, head_found.
    now destruct (own_document [] l.2). }
  apply (verify_report_links_all_working [] head_found (fun _ => None)
           spaced_report H1 H2 H3).
  intros text url url' Hin Hin'.
  apply (distinct_texts_one_address (doc_links spaced_report) text); auto.
  assert (map fst (doc_links spaced_report) = [U "Acme"; U "Bolt"]) as ->
      by (vm_compute; reflexivity).
  constructor; [| constructor; [intros [] | constructor]].
  intros [H | []]. vm_compute in H. discriminate.
Defined.

(** * The connection registry of [main.py] *)

Section ConnectionManager.

(** A WebSocket object. *)
Variable WebSocket : Type.

(** [active_connections: Dict[str, WebSocket]] *)
Definition connections := gmap str WebSocket.

(** [connect], once [websocket.accept()] has returned. *)
Definition connect (websocket : WebSocket) (client_id : str)
    (active_connections : connections) : connections :=
  <[client_id := websocket]> active_connections.

(** [disconnect] *)
Definition disconnect (client_id : str) (active_connections : connections)
  : connections :=
  if bool_decide (is_Some (active_connections !! client_id))
  then delete client_id active_connections
  else active_connections.

(** The ["status"] entry of what [check_status] returns. *)
Definition check_status (client_id : str) (active_connections : connections) : str :=
  if bool_decide (is_Some (active_connections !! client_id))
  then U "active" else U "inactive".

(** What [websocket_endpoint] does to the registry: it registers the
    socket when a client connects and removes the entry of the client when
    the socket is closed. *)
Inductive socket_event :=
| Opened (client_id : str) (websocket : WebSocket)
| Closed (client_id : str).

Definition client_of (ev : socket_event) : str :=
  match ev with Opened c _ | Closed c => c end.

Definition handle (active_connections : connections) (ev : socket_event)
  : connections :=
  match ev with
  | Opened c w => connect w c active_connections
  | Closed c => disconnect c active_connections
  end.

Definition registry (events : list socket_event) : connections :=
  fold_left handle events ∅.

(** The socket the latest event of a client leaves registered. *)
Definition latest (client_id : str) (events : list socket_event) : option WebSocket :=
  match last (List.filter (fun ev => bool_decide (client_of ev = client_id)) events) with
  | Some (Opened _ w) => Some w
  | Some (Closed _) | None => None
  end.

Lemma disconnect_delete client_id (m : connections) :
  disconnect client_id m = delete client_id m.
Proof.
  unfold disconnect. case_bool_decide as H; [reflexivity |].
  symmetry. apply delete_id. destruct (m !! client_id) eqn:E; [| exact E].
  exfalso. apply H. eauto.
Qed.

Lemma handle_lookup (m : connections) ev client_id :
  handle m ev !! client_id
  = if bool_decide (client_of ev = client_id)
    then match ev with Opened _ w => Some w | Closed _ => None end
    else m !! client_id.
Proof.
  destruct ev as [c w | c]; cbn [handle client_of]; unfold connect;
    rewrite ?disconnect_delete; case_bool_decide as H.
  - subst. apply lookup_insert_eq.
  - now apply lookup_insert_ne.
  - subst. apply lookup_delete_eq.
  - now apply lookup_delete_ne.
Qed.

Lemma registry_snoc events ev :
  registry (events ++ [ev]) = handle (registry events) ev.
Proof. unfold registry. now rewrite fold_left_app. Qed.

(** X16: whatever clients come and go, the registry holds for each client
    the socket of its latest event when that was a connection and nothing
    when it was a disconnection or the client never came; [check_status]
    answers active exactly in the first case.  So the status of a client
    that opened two sockets turns inactive as soon as one of them is
    closed. *)
Theorem registry_latest (events : list socket_event) (client_id : str) :
  registry events !! client_id = latest client_id events
  /\ (check_status client_id (registry events) = U "active"
      <-> is_Some (latest client_id events))
  /\ (forall w w',
         check_status client_id
           (registry (events ++ [Opened client_id w; Opened client_id w';
                                 Closed client_id]))
         = U "inactive").
Proof.
  assert (forall evs, registry evs !! client_id = latest client_id evs) as Hreg.
  { induction evs as [| ev evs IH] using rev_ind; [apply lookup_empty |].
    rewrite registry_snoc, handle_lookup. unfold latest in *.
    rewrite List.filter_app. cbn [List.filter].
    case_bool_decide as H.
    - rewrite last_snoc. now destruct ev.
    - now rewrite app_nil_r. }
  split; [apply Hreg |]. split.
  - unfold check_status. rewrite Hreg. case_bool_decide as H.
    + tauto.
    + split; [intros Heq; vm_compute in Heq; discriminate | tauto].
  - intros w w'. unfold check_status. rewrite Hreg. unfold latest.
    rewrite List.filter_app. cbn [List.filter client_of].
    rewrite !(bool_decide_eq_true_2 (client_id = client_id)) by reflexivity.
    rewrite last_app. cbn [last].
    rewrite (bool_decide_eq_false_2 (is_Some None)); [reflexivity |].
    intros [x Hx]. discriminate.
Qed.

End ConnectionManager.

(** * The configuration check of [config.py] *)

Record config_values := {
  HF_API_TOKEN : str;
  PORT : Z;
  DATA_DIR : str
}.

Section ValidateConfig.

(** [os.path.isdir] *)
Variable isdir : str -> bool.

Definition token_error : str :=
  U "HF_API_TOKEN не настроен или некорректен. Добавьте токен Hugging Face в .env файл".
Definition port_error : str := U "Некорректный порт. Должен быть от 1 до 65535".
Definition data_dir_error (dir : str) : str :=
  U "Каталог с локальными документами не найден: " ++ dir.

Definition validate_config (cls : config_values) : list str :=
  (if negb (str_truthy (HF_API_TOKEN cls))
      || negb (startswith (U "hf_") (HF_API_TOKEN cls))
   then [token_error] else [])
  ++ (if (PORT cls <? 1)%Z || (65535 <? PORT cls)%Z then [port_error] else [])
  ++ (if negb (isdir (DATA_DIR cls)) then [data_dir_error (DATA_DIR cls)] else []).

(** X17: the configuration passes the check exactly when the token begins
    with hf_, the port lies between 1 and 65535 and the data directory
    exists; the test for an empty token adds nothing to the first
    condition.  Otherwise there is one error for each condition that
    fails, token first, then port, then directory, and the last one ends
    with the directory it looked for. *)
Theorem validate_config_errors (cls : config_values) :
  let token_ok := startswith (U "hf_") (HF_API_TOKEN cls) in
  let port_ok := ((1 <=? PORT cls) && (PORT cls <=? 65535))%Z in
  let dir_ok := isdir (DATA_DIR cls) in
  (validate_config cls = [] <-> token_ok && port_ok && dir_ok = true)
  /\ validate_config cls
     = (if token_ok then [] else [token_error])
       ++ (if port_ok then [] else [port_error])
       ++ (if dir_ok then []
           else [U "Каталог с локальными документами не найден: " ++ DATA_DIR cls])
  /\ length (validate_config cls)
     = (Nat.b2n (negb token_ok) + Nat.b2n (negb port_ok) + Nat.b2n (negb dir_ok))%nat.
Proof.
  cbv zeta. unfold validate_config.
  assert (negb (str_truthy (HF_API_TOKEN cls))
          || negb (startswith (U "hf_") (HF_API_TOKEN cls))
          = negb (startswith (U "hf_") (HF_API_TOKEN cls))) as ->.
  { destruct (HF_API_TOKEN cls) as [| c s]; [reflexivity |].
    cbn [str_truthy negb orb]. reflexivity. }
  assert ((PORT cls <? 1)%Z || (65535 <? PORT cls)%Z
          = negb ((1 <=? PORT cls) && (PORT cls <=? 65535))%Z) as ->.
  { destruct (Z.ltb_spec (PORT cls) 1), (Z.ltb_spec 65535 (PORT cls)),
      (Z.leb_spec 1 (PORT cls)), (Z.leb_spec (PORT cls) 65535);
      cbn; try reflexivity; lia. }
  destruct (startswith (U "hf_") (HF_API_TOKEN cls)),
    ((1 <=? PORT cls) && (PORT cls <=? 65535))%Z,
    (isdir (DATA_DIR cls)); cbn [negb app andb length Nat.b2n Nat.add];
    (split; [split; [try discriminate; reflexivity
                    | try discriminate; reflexivity]
            | split; reflexivity]).
Qed.

End ValidateConfig.

Lemma validate_config_errors_witness :
  validate_config (fun _ => true)
    {| HF_API_TOKEN := U "hf_abc"; PORT := 8000; DATA_DIR := U "data" |} = []
  /\ validate_config (fun _ => true)
       {| HF_API_TOKEN := U "your-deepseek-api-key-here"; PORT := 8000;
          DATA_DIR := U "data" |} <> [].
Proof.
  split.
  - destruct (validate_config_errors (fun _ => true)
                {| HF_API_TOKEN := U "hf_abc"; PORT := 8000; DATA_DIR := U "data" |})
      as [[_ H] _].
    apply H. vm_compute. reflexivity.
  - destruct (validate_config_errors (fun _ => true)
                {| HF_API_TOKEN := U "your-deepseek-api-key-here"; PORT := 8000;
                   DATA_DIR := U "data" |})
      as [[H _] _].
    intros Heq. specialize (H Heq). vm_compute in H. discriminate.
Defined.

Lemma registry_latest_witness :
  check_status nat (U "c1") (registry nat [Opened nat (U "c1") 7%nat])
  = U "active".
Proof.
  destruct (registry_latest nat [Opened nat (U "c1") 7%nat] (U "c1"))
    as (_ & [_ H] & _).
  apply H. vm_compute. eauto.
Defined.

(** * Stage 1.5: the local documents *)

(** The events of this stage: those of the other stages and the pause of
    0.2 seconds after each document. *)
Inductive local_event :=
| Common (ev : event)
| ShortPause.

Definition is_short_pause (ev : local_event) : bool :=
  match ev with ShortPause => true | Common _ => false end.

Definition common_events (t : list local_event) : trace :=
  omap (fun ev => match ev with Common e => Some e | ShortPause => None end) t.

(** An entry of [files_payload]. *)
Record file_payload := { file : str; excerpt : str }.

(** The dictionary the stage returns. *)
Record local_result := { insights : list insight; files : list str }.

Section LocalDocuments.

Variable research_data : Type.
Variable get_local_documents_prompt : list file_payload -> research_data -> str -> str.

(** [_read_pdf_text] and [os.path.basename], taken as given. *)
Variable _read_pdf_text : str -> str.
Variable basename : str -> str.

(** [int((i / len(pdf_files)) * 40) + 10], a floating-point computation,
    taken as given. *)
Variable progress_of : nat -> nat -> Z.

(** [parse_local_insights] on the value the model call returned, taken
    as given here: the insights, or the exception it raises. *)
Variable parse_insights : json -> exn + list insight.

(** The loop over [enumerate(pdf_files)]; [count] is [len(pdf_files)]. *)
Fixpoint process_files (count i : nat) (pdf_files : list str)
  : list local_event * list file_payload :=
  match pdf_files with
  | [] => ([], [])
  | f :: rest =>
    let '(t, payload) := process_files count (S i) rest in
    (Common (Update "local_documents" "active" (progress_of i count)
               (U "Обрабатываем документ " ++ str_of_N (N.of_nat (i + 1))
                  ++ U "/" ++ str_of_N (N.of_nat count)))
       :: ShortPause :: t,
     {| file := basename f; excerpt := _read_pdf_text f |} :: payload)
  end.

(** The loop that counts the insights of every source file, next: the
    counts go into the log only, but the test
    [source_file not in insights_by_file] hashes the value, and a list or
    a dictionary cannot be hashed.  The loop raises at the first insight
    with such a value under ["source_file"]. *)
Definition hashable (v : json) : bool :=
  match v with
  | JArr _ | JObj _ => false
  | JNull | JBool _ | JInt _ | JStr _ => true
  end.

Definition TypeError_unhashable (v : json) : exn :=
  Exception (U "unhashable type: '" ++ type_name v ++ U "'").

(** [insight.get("source_file", "unknown.pdf")] *)
Definition source_file_of (i : insight) : json :=
  default (JStr (U "unknown.pdf")) (i !! "source_file").

Definition count_by_file (found : list insight) : option exn :=
  match List.find (fun i => negb (hashable (source_file_of i))) found with
  | Some i => Some (TypeError_unhashable (source_file_of i))
  | None => None
  end.

(** The stage from its loop over the documents on; what comes before,
    the search for the documents, is not part of the source text.  Only
    the model call is inside the [try]: what [parse_local_insights] and
    the counting loop raise leaves the stage as it is. *)
Definition _collect_local_documents_insights_internal
    (pdf_files : list str) (data : research_data) (rtype : str)
    (script : list (post_outcome json))
  : list local_event * result local_result :=
  let '(reading, files_payload) := process_files (length pdf_files) 0 pdf_files in
  let names := map file files_payload in
  let documents := str_of_N (N.of_nat (length files_payload)) in
  let prompt := get_local_documents_prompt files_payload data rtype in
  let opening :=
    reading ++
    map Common
      [Update "local_documents" "active" 55
         (U "Текст извлечен из " ++ documents ++ U " документов");
       Update "local_documents" "active" 65 (U "Анализируем содержимое документов...");
       Update "local_documents" "active" 70 (U "Отправляем запрос к ИИ...")] in
  let '(t, r) := _call_deepseek prompt script in
  match r with
  | Returned returned =>
    let content := default JNull returned in
    let answered :=
      map Common
        [Update "local_documents" "active" 85 (U "Обрабатываем ответ ИИ...");
         Update "local_documents" "active" 90
           (U "Извлекаем структурированные инсайты...")] in
    match parse_insights content with
    | inr found =>
      match count_by_file found with
      | None =>
        (opening ++ map Common t ++ answered ++
         [Common (Update "local_documents" "completed" 100
                    (U "Найдено " ++ str_of_N (N.of_nat (length found))
                       ++ U " инсайтов из " ++ documents ++ U " документов"))],
         Returned {| insights := found; files := names |})
      | Some e => (opening ++ map Common t ++ answered, Raised e)
      end
    | inl e => (opening ++ map Common t ++ answered, Raised e)
    end
  | Raised e =>
    (opening ++ map Common t ++
     [Common (Update "local_documents" "error" 0 (U "API Error: " ++ str_exn e))],
     Returned {| insights := []; files := names |})
  | Pending => (opening ++ map Common t, Pending)
  end.

Lemma process_files_payload count pdf_files : forall i,
  let run := process_files count i pdf_files in
  map file run.2 = map basename pdf_files
  /\ map excerpt run.2 = map _read_pdf_text pdf_files
  /\ length (List.filter is_short_pause run.1) = length pdf_files
  /\ updates (common_events run.1)
     = map (fun k => ("active", progress_of k count)) (seq i (length pdf_files)).
Proof.
  induction pdf_files as [| f rest IH]; intros i; cbv zeta; [repeat split |].
  cbn [process_files]. specialize (IH (S i)). cbv zeta in IH.
  destruct (process_files count (S i) rest) as [t payload].
  cbn [fst snd] in *. destruct IH as (Hf & He & Hp & Hu).
  cbn [map file excerpt length seq List.filter is_short_pause]. rewrite Hf, He, Hp.
  repeat split. cbn. now rewrite <- Hu.
Qed.

Lemma process_files_length count pdf_files : forall i,
  length (process_files count i pdf_files).1 = (2 * length pdf_files)%nat.
Proof.
  induction pdf_files as [| f rest IH]; intros i; [reflexivity |].
  cbn [process_files]. specialize (IH (S i)).
  destruct (process_files count (S i) rest) as [t payload].
  cbn [fst length] in *. lia.
Qed.

Lemma no_pause_common t : List.filter is_short_pause (map Common t) = [].
Proof. induction t as [| ev t IH]; [reflexivity | exact IH]. Qed.

Lemma common_events_app t1 t2 :
  common_events (t1 ++ t2) = common_events t1 ++ common_events t2.
Proof. unfold common_events. apply omap_app. Qed.

Lemma common_events_map t : common_events (map Common t) = t.
Proof.
  unfold common_events. induction t as [| ev t IH]; [reflexivity |].
  cbn. now rewrite IH.
Qed.

Lemma count_by_file_none found :
  count_by_file found = None
  <-> Forall (fun i => hashable (source_file_of i) = true) found.
Proof.
  unfold count_by_file.
  destruct (List.find _ found) as [i |] eqn:Hfind.
  - split; [discriminate |]. intros Hall.
    apply List.find_some in Hfind. destruct Hfind as [Hin Hi].
    rewrite List.Forall_forall in Hall. rewrite (Hall i Hin) in Hi. discriminate.
  - split; [| reflexivity]. intros _. apply List.Forall_forall. intros i Hin.
    pose proof (List.find_none _ _ Hfind i Hin) as Hi.
    now apply negb_false_iff in Hi.
Qed.

Lemma count_by_file_some found e :
  count_by_file found = Some e ->
  exists i, In i found /\ hashable (source_file_of i) = false
            /\ e = TypeError_unhashable (source_file_of i).
Proof.
  unfold count_by_file.
  destruct (List.find _ found) as [i |] eqn:Hfind; [| discriminate].
  intros [= <-]. apply List.find_some in Hfind. destruct Hfind as [Hin Hi].
  exists i. split; [exact Hin |]. split; [| reflexivity].
  now apply negb_true_iff in Hi.
Qed.

(** X18: from its loop over the documents on, a failure of the model call
    never fails the local-documents stage: it sends the error update with
    progress 0 and returns the names of the documents with no insight, so
    that the retry wrapper sees a success.  When the model answers and the
    insights parsed from the answer all have a source file that can be
    hashed, it returns them with the same names, after the updates 55, 65,
    70, 85, 90 and 100.  The stage raises only after the update 90 and
    without a closing update: with the exception of
    [parse_local_insights], or with a [TypeError] of the loop that counts
    the insights per source file, when the source file of an insight is a
    list or an object.  The names are the base names of all documents in
    their order, and the stage pauses once per document, before the first
    request to the model. *)
Theorem local_documents_outcomes
    (pdf_files : list str) (data : research_data) (rtype : str)
    (script : list (post_outcome json)) :
  let run := _collect_local_documents_insights_internal pdf_files data rtype script in
  let payload := (process_files (length pdf_files) 0 pdf_files).2 in
  let call := _call_deepseek (get_local_documents_prompt payload data rtype) script in
  let reading :=
    map (fun k => ("active", progress_of k (length pdf_files)))
        (seq 0 (length pdf_files)) in
  map file payload = map basename pdf_files
  /\ map excerpt payload = map _read_pdf_text pdf_files
  /\ (forall e, call.2 = Raised e ->
        run.2 = Returned {| insights := []; files := map basename pdf_files |}
        /\ updates (common_events run.1)
           = reading ++ [("active", 55); ("active", 65); ("active", 70);
                         ("error", 0)]%Z
        /\ last run.1
           = Some (Common (Update "local_documents" "error" 0
                             (U "API Error: " ++ str_exn e))))
  /\ (forall value found,
        call.2 = Returned (Some value) ->
        parse_insights value = inr found ->
        Forall (fun i => hashable (source_file_of i) = true) found ->
        run.2 = Returned {| insights := found; files := map basename pdf_files |}
        /\ updates (common_events run.1)
           = reading ++ [("active", 55); ("active", 65); ("active", 70);
                         ("active", 85); ("active", 90); ("completed", 100)]%Z)
  /\ (forall e, run.2 = Raised e ->
        (exists value,
            call.2 = Returned (Some value)
            /\ (parse_insights value = inl e
                \/ exists found i,
                     parse_insights value = inr found /\ In i found
                     /\ hashable (source_file_of i) = false
                     /\ e = TypeError_unhashable (source_file_of i)))
        /\ updates (common_events run.1)
           = reading ++ [("active", 55); ("active", 65); ("active", 70);
                         ("active", 85); ("active", 90)]%Z)
  /\ length (List.filter is_short_pause run.1) = length pdf_files
  /\ List.filter is_short_pause (take (2 * length pdf_files) run.1)
     = List.filter is_short_pause run.1.
Proof.
  cbv zeta. unfold _collect_local_documents_insights_internal.
  destruct (process_files_payload (length pdf_files) pdf_files 0)
    as (Hf & He & Hp & Hu). cbv zeta in *.
  pose proof (process_files_length (length pdf_files) pdf_files 0) as Hlen.
  destruct (process_files (length pdf_files) 0 pdf_files) as [reading payload].
  cbn [fst snd] in *.
  pose proof (call_loop_no_updates
                (get_local_documents_prompt payload data rtype) script 0)
    as [Hcu _].
  pose proof (call_loop_not_none
                (get_local_documents_prompt payload data rtype) script 0
                ltac:(lia)) as Hnone.
  unfold _call_deepseek in *.
  destruct (call_loop _ 0 script) as [t r]. cbn [fst snd] in *.
  assert (forall rest,
             updates (common_events ((reading ++ rest)))
             = map (fun k => ("active", progress_of k (length pdf_files)))
                   (seq 0 (length pdf_files)) ++ updates (common_events rest))
    as Hupd by (intros rest; now rewrite common_events_app, updates_app, Hu).
  assert (forall rest,
             List.filter is_short_pause rest = [] ->
             length (List.filter is_short_pause (reading ++ rest))
             = length pdf_files
             /\ List.filter is_short_pause
                  (take (2 * length pdf_files) (reading ++ rest))
                = List.filter is_short_pause (reading ++ rest)) as Hpause.
  { intros rest Hrest. rewrite <- Hlen, take_app_length, List.filter_app, Hrest.
    rewrite app_nil_r. split; [exact Hp | reflexivity]. }
  assert (forall u, List.filter is_short_pause [Common u] = []) as Hone
      by reflexivity.
  split; [exact Hf |]. split; [exact He |].
  destruct r as [[value |] | e |]; cbn [fst snd default from_option id].
  - destruct (parse_insights value) as [e | found] eqn:Hparse; cbn [fst snd].
    + split; [discriminate |]. split; [intros value' found' [= <-]; congruence |].
      split.
      * intros e' [= <-]. split; [exists value; split; [reflexivity | now left] |].
        rewrite <- app_assoc, Hupd. f_equal.
        rewrite !common_events_app, !updates_app, !common_events_map, Hcu.
        reflexivity.
      * rewrite <- app_assoc. apply Hpause.
        now rewrite !List.filter_app, !no_pause_common.
    + destruct (count_by_file found) as [e |] eqn:Hcount; cbn [fst snd].
      * split; [discriminate |]. split.
        { intros value' found' [= <-] Hparse' Hall.
          rewrite Hparse in Hparse'. injection Hparse' as <-.
          apply count_by_file_none in Hall. congruence. }
        split.
        { intros e' [= <-]. split.
          - exists value. split; [reflexivity |]. right.
            destruct (count_by_file_some found e Hcount) as (i & Hin & Hi & ->).
            exists found, i. auto.
          - rewrite <- app_assoc, Hupd. f_equal.
            rewrite !common_events_app, !updates_app, !common_events_map, Hcu.
            reflexivity. }
        rewrite <- app_assoc. apply Hpause.
        now rewrite !List.filter_app, !no_pause_common.
      * split; [discriminate |]. split.
        { intros value' found' [= <-] Hparse' _.
          rewrite Hparse in Hparse'. injection Hparse' as <-.
          rewrite Hf. split; [reflexivity |].
          rewrite <- app_assoc, Hupd. f_equal.
          rewrite !common_events_app, !updates_app, !common_events_map, Hcu.
          reflexivity. }
        split; [discriminate |].
        rewrite <- app_assoc. apply Hpause.
        now rewrite !List.filter_app, !no_pause_common, Hone.
  - now contradiction Hnone.
  - split.
    + intros e' [= <-]. rewrite Hf. split; [reflexivity |]. split.
      * rewrite <- app_assoc, Hupd. f_equal.
        rewrite !common_events_app, !updates_app, !common_events_map, Hcu.
        reflexivity.
      * rewrite !last_app. reflexivity.
    + split; [discriminate |]. split; [discriminate |].
      rewrite <- app_assoc. apply Hpause.
      now rewrite !List.filter_app, !no_pause_common, Hone.
  - split; [discriminate |]. split; [discriminate |]. split; [discriminate |].
    rewrite <- app_assoc. apply Hpause.
    now rewrite !List.filter_app, !no_pause_common.
Qed.

End LocalDocuments.

(** An insight whose source file is a list, as [parse_local_insights]
    makes it of an object with a list under ["source_file"]. *)
Definition listed_source : insight :=
  <["source_file" := JArr [JStr (U "a.pdf")]]> (minimal_insight (U "fact")).

Lemma local_documents_outcomes_witness :
  (let run := _collect_local_documents_insights_internal unit (fun _ _ _ => U "p")
                (fun f => f) (fun f => f) (fun _ _ => 10%Z) (fun _ => inr [])
                [U "a.pdf"; U "b.pdf"] tt [] five_timeouts in
   run.2 = Returned {| insights := []; files := [U "a.pdf"; U "b.pdf"] |}
   /\ last run.1
      = Some (Common (Update "local_documents" "error" 0
                        (U "API Error: ReadTimeout"))))
  /\ (let run := _collect_local_documents_insights_internal unit
                   (fun _ _ _ => U "p") (fun f => f) (fun f => f)
                   (fun _ _ => 10%Z) (fun _ => inr [listed_source])
                   [U "a.pdf"] tt []
                   [PostResponse {| status_code := 200; rest := inr (JStr (U "answer")) |}] in
      run.2 = Raised (Exception (U "unhashable type: 'list'"))
      /\ updates (common_events run.1)
         = [("active", 10); ("active", 55); ("active", 65); ("active", 70);
            ("active", 85); ("active", 90)]%Z).
Proof.
  cbv zeta. split.
  - destruct (local_documents_outcomes unit (fun _ _ _ => U "p")
                (fun f => f) (fun f => f) (fun _ _ => 10%Z) (fun _ => inr [])
                [U "a.pdf"; U "b.pdf"] tt [] five_timeouts)
      as (_ & _ & H & _).
    destruct (H (Exception (U "ReadTimeout"))) as (Hr & _ & Hl);
      [vm_compute; reflexivity |].
    split; [exact Hr | exact Hl].
  - destruct (local_documents_outcomes unit (fun _ _ _ => U "p")
                (fun f => f) (fun f => f) (fun _ _ => 10%Z)
                (fun _ => inr [listed_source]) [U "a.pdf"] tt []
                [PostResponse {| status_code := 200; rest := inr (JStr (U "answer")) |}])
      as (_ & _ & _ & _ & H & _).
    assert ((_collect_local_documents_insights_internal unit
               (fun _ _ _ => U "p") (fun f => f) (fun f => f)
               (fun _ _ => 10%Z) (fun _ => inr [listed_source])
               [U "a.pdf"] tt []
               [PostResponse {| status_code := 200; rest := inr (JStr (U "answer")) |}]).2
            = Raised (Exception (U "unhashable type: 'list'"))) as Hr
        by (vm_compute; reflexivity).
    split; [exact Hr |].
    destruct (H _ Hr) as [_ Hu]. exact Hu.
Defined.

(** ** The pool of the enhancement and the counters of the summary *)





(** ** No blank line survives the clean-up *)

Definition has_visible (line : str) : bool :=
  existsb (fun c => negb (py_isspace c)) line.

(** The text ends with a character that is not whitespace. *)
Definition ends_visible (s : str) : Prop :=
  exists c, last s = Some c /\ py_isspace c = false.

Lemma ends_visible_tail c r : ends_visible (c :: r) -> r <> [] -> ends_visible r.
Proof.
  intros (x & Hl & Hx) Hr. exists x. split; [| exact Hx].
  destruct r as [| d r]; [contradiction | exact Hl].
Qed.

Lemma split_on_cons sep c r :
  split_on sep (c :: r)
  = if c =? sep then [] :: split_on sep r
    else match split_on sep r with
         | l :: ls => (c :: l) :: ls
         | [] => [[c]]
         end.
Proof. reflexivity. Qed.

Lemma split_on_not_nil sep s : split_on sep s <> [].
Proof.
  destruct s as [| c r]; [discriminate |]. rewrite split_on_cons.
  destruct (c =? sep); [discriminate |]. now destruct (split_on sep r).
Qed.

(** A text whose leading whitespace reaches no line break and which ends
    with a visible character has a visible character on its first line. *)
Lemma first_line_visible s :
  break_span s = None -> ends_visible s ->
  has_visible (hd [] (split_on NL s)) = true.
Proof.
  induction s as [| c r IH]; intros Hb He.
  - destruct He as (x & Hx & _). discriminate.
  - rewrite split_on_cons. cbn [break_span] in Hb.
    destruct (py_isspace c) eqn:Hc.
    + destruct (break_span r) eqn:Hr; [discriminate |].
      destruct (N.eqb_spec c NL) as [-> | Hn]; [discriminate |].
      pose proof (split_on_not_nil NL r) as Hne.
      destruct (split_on NL r) as [| l ls] eqn:Hs; [contradiction |].
      cbn [hd has_visible existsb]. rewrite Hc. cbn [negb orb].
      destruct r as [| d r'].
      * destruct He as (x & [= <-] & Hx). congruence.
      * apply (IH eq_refl). apply (ends_visible_tail c); [exact He | discriminate].
    + destruct (N.eqb_spec c NL) as [-> | Hn];
        [now rewrite isspace_NL in Hc |].
      destruct (split_on NL r) as [| l ls]; cbn [hd has_visible existsb];
        now rewrite Hc.
Qed.

Lemma later_lines_visible s : forall prev,
  no_blank_line prev s = true -> ends_visible s ->
  Forall (fun line => has_visible line = true) (tl (split_on NL s)).
Proof.
  induction s as [| c r IH]; intros prev Hb He; [constructor |].
  cbn [no_blank_line] in Hb. apply andb_true_iff in Hb. destruct Hb as [Hc Hr].
  rewrite split_on_cons. destruct (N.eqb_spec c NL) as [-> | Hn].
  - cbn [tl]. destruct r as [| d r'].
    + destruct He as (x & [= <-] & Hx). now rewrite isspace_NL in Hx.
    + assert (ends_visible (d :: r')) as He'
          by (apply (ends_visible_tail NL); [exact He | discriminate]).
      pose proof (IH (Some NL) Hr He') as Htl.
      cbn [no_blank_line] in Hr. apply andb_true_iff in Hr. destruct Hr as [Hd _].
      cbn [at_line_start] in Hd. rewrite N.eqb_refl in Hd. cbn [negb orb] in Hd.
      apply negb_true_iff, bool_decide_eq_false in Hd.
      assert (break_span (d :: r') = None) as Hnone.
      { destruct (break_span (d :: r')) eqn:E; [| reflexivity].
        exfalso. apply Hd. eauto. }
      pose proof (first_line_visible (d :: r') Hnone He') as Hhd.
      pose proof (split_on_not_nil NL (d :: r')) as Hne.
      destruct (split_on NL (d :: r')) as [| l ls]; [contradiction |].
      constructor; [exact Hhd | exact Htl].
  - destruct r as [| d r']; [constructor |].
    assert (ends_visible (d :: r')) as He'
        by (apply (ends_visible_tail c); [exact He | discriminate]).
    pose proof (IH (Some c) Hr He') as Htl.
    now destruct (split_on NL (d :: r')).
Qed.

(** X20: in the text the clean-up returns, every line holds a character
    that is not whitespace.  No empty line is left anywhere, also not
    between two paragraphs. *)
Theorem collapse_whitespace_no_blank_line (report_content : str) :
  collapse_whitespace report_content = []
  \/ Forall (fun line => existsb (fun c => negb (py_isspace c)) line = true)
            (split_on NL (collapse_whitespace report_content)).
Proof.
  destruct (collapse_whitespace_clean report_content) as [Hb Hs].
  destruct (collapse_whitespace report_content) as [| c r] eqn:Hr; [now left |].
  right.
  assert (ends_visible (c :: r)) as He.
  { pose proof (strip_by_ends py_isspace (c :: r)) as H.
    fold (strip (c :: r)) in H. rewrite Hs in H.
    destruct H as (_ & x & Hl & Hx). now exists x. }
  pose proof (later_lines_visible (c :: r) None Hb He) as Htl.
  cbn [no_blank_line at_line_start negb orb] in Hb.
  apply andb_true_iff in Hb. destruct Hb as [Hc _].
  apply negb_true_iff, bool_decide_eq_false in Hc.
  assert (break_span (c :: r) = None) as Hnone.
  { destruct (break_span (c :: r)) eqn:E; [| reflexivity].
    exfalso. apply Hc. eauto. }
  pose proof (first_line_visible (c :: r) Hnone He) as Hhd.
  pose proof (split_on_not_nil NL (c :: r)) as Hne.
  destruct (split_on NL (c :: r)) as [| l ls]; [contradiction |].
  constructor; [exact Hhd | exact Htl].
Qed.

(** ** Stage 1: what the data collection hands on *)

Section MarketDataOutcomes.

Variable lower : str -> str.
Variable research_data : Type.
Variable get_data_collection_prompt : research_data -> str -> str.
Variable now : str.
Variable data : research_data.
Variable rtype : str.

Let collection script :=
  _collect_market_data_internal lower research_data get_data_collection_prompt
                                now data rtype script.

(** X21: the data-collection stage raises in two cases only.  When the
    model call raises, it raises the very exception of the call, not
    wrapped as in the later stages, after the updates 10, 30, 40 and an
    error update that carries its message.  When the call returns a value
    that has no length, a number or a truth value, it raises the
    [TypeError] of [len] after the updates 10, 30, 40, 70 and the error
    update.  When the call returns a text the stage returns the market data
    parsed from it, whose count of companies is the one its last update
    announces; a list or an object is answered with market data without
    companies, whose [raw_content] is the error of the parser. *)
Theorem collect_market_data_outcomes (script : list (post_outcome json)) :
  let run := collection script in
  let call := _call_deepseek (get_data_collection_prompt data rtype) script in
  (forall e,
      run.2 = Raised e
      <-> call.2 = Raised e
          \/ exists value,
               call.2 = Returned (Some value) /\ has_len value = false
               /\ e = Exception (U "object of type '" ++ type_name value
                                   ++ U "' has no len()"))
  /\ (forall e, call.2 = Raised e ->
        updates run.1
        = [("active", 10); ("active", 30); ("active", 40); ("error", 0)]%Z
        /\ last run.1
           = Some (Update "data_collection" "error" 0 (U "API Error: " ++ str_exn e)))
  /\ (forall value, call.2 = Returned (Some value) -> has_len value = false ->
        updates run.1
        = [("active", 10); ("active", 30); ("active", 40); ("active", 70);
           ("error", 0)]%Z
        /\ last run.1
           = Some (Update "data_collection" "error" 0
                     (U "API Error: object of type '" ++ type_name value
                        ++ U "' has no len()")))
  /\ (forall text, call.2 = Returned (Some (JStr text)) ->
        run.2 = Returned {| raw_content := text;
                            companies := extract_companies_from_text lower text;
                            research_type := rtype;
                            timestamp := now;
                            total_found :=
                              length (extract_companies_from_text lower text) |}
        /\ last run.1
           = Some (Update "data_collection" "completed" 100
                     (U "Найдено "
                        ++ str_of_N (N.of_nat
                             (length (extract_companies_from_text lower text)))
                        ++ U " компаний")))
  /\ (forall value, call.2 = Returned (Some value) ->
        (exists items, value = JArr items) \/ (exists members, value = JObj members) ->
        run.2 = Returned {| raw_content :=
                              U "Error parsing data: '" ++ type_name value
                                ++ U "' object has no attribute 'split'";
                            companies := [];
                            research_type := rtype;
                            timestamp := now;
                            total_found := 0 |}
        /\ last run.1
           = Some (Update "data_collection" "completed" 100 (U "Найдено 0 компаний")))
  /\ (forall market, run.2 = Returned market ->
        total_found market = length (companies market)
        /\ updates run.1
           = [("active", 10); ("active", 30); ("active", 40); ("active", 70);
              ("active", 90); ("completed", 100)]%Z).
Proof.
  cbv zeta. unfold collection, _collect_market_data_internal, _call_deepseek.
  pose proof (call_loop_not_none (get_data_collection_prompt data rtype) script 0
                ltac:(lia)) as Hnone.
  pose proof (call_loop_no_updates (get_data_collection_prompt data rtype) script 0)
    as [Hu _].
  destruct (call_loop _ 0 script) as [t [[value |] | e |]]; cbn [fst snd] in *;
    [| now contradiction Hnone | |].
  - cbn [default from_option id].
    destruct (has_len value) eqn:Hlen; cbn [fst snd].
    + split.
      { intros e. split; [discriminate |].
        intros [H | (v & [= <-] & Hv & _)]; [discriminate | congruence]. }
      split; [discriminate |]. split; [intros v [= <-]; congruence |]. split.
      { intros text [= ->]. split; [reflexivity |]. rewrite !last_app. reflexivity. }
      split.
      { intros v [= <-] [[items ->] | [members ->]];
          (split; [vm_compute; reflexivity |]);
          rewrite !last_app; vm_compute; reflexivity. }
      intros market [= <-]. split.
      * destruct value; reflexivity.
      * rewrite !updates_app, Hu. reflexivity.
    + split.
      { intros e. split.
        - intros [= <-]. right. exists value. auto.
        - intros [H | (v & [= <-] & _ & ->)]; [discriminate | reflexivity]. }
      split; [discriminate |]. split.
      { intros v [= <-] _. split.
        - rewrite !updates_app, Hu. reflexivity.
        - rewrite !last_app.
          destruct value; try discriminate Hlen; vm_compute; reflexivity. }
      split; [intros text [= ->]; discriminate |]. split.
      { intros v [= <-] [[items ->] | [members ->]]; discriminate. }
      discriminate.
  - split.
    { intros e'. split; [intros [= <-]; now left |].
      intros [[= <-] | (v & H & _)]; [reflexivity | discriminate]. }
    split.
    { intros e' [= <-]. split.
      - rewrite !updates_app, Hu. reflexivity.
      - rewrite !last_app. reflexivity. }
    split; [discriminate |]. split; [discriminate |]. split; discriminate.
  - split.
    { intros e. split; [discriminate |].
      intros [H | (v & H & _)]; discriminate. }
    split; [discriminate |]. split; [discriminate |]. split; [discriminate |].
    split; discriminate.
Qed.

End MarketDataOutcomes.

Lemma collect_market_data_outcomes_witness :
  (let run := _collect_market_data_internal lower_basic unit (fun _ _ => U "p")
                (U "now") tt [] five_timeouts in
   run.2 = Raised (Exception (U "ReadTimeout"))
   /\ last run.1
      = Some (Update "data_collection" "error" 0 (U "API Error: ReadTimeout")))
  /\ (let run := _collect_market_data_internal lower_basic unit (fun _ _ => U "p")
                   (U "now") tt []
                   [PostResponse {| status_code := 200; rest := inr (JInt 5) |}] in
      run.2 = Raised (Exception (U "object of type 'int' has no len()"))
      /\ updates run.1
         = [("active", 10); ("active", 30); ("active", 40); ("active", 70);
            ("error", 0)]%Z).
Proof.
  cbv zeta. split.
  - destruct (collect_market_data_outcomes lower_basic unit (fun _ _ => U "p")
                (U "now") tt [] five_timeouts) as (Hr & Hl & _).
    split.
    + apply Hr. left. vm_compute. reflexivity.
    + apply (Hl (Exception (U "ReadTimeout"))). vm_compute. reflexivity.
  - destruct (collect_market_data_outcomes lower_basic unit (fun _ _ => U "p")
                (U "now") tt []
                [PostResponse {| status_code := 200; rest := inr (JInt 5) |}])
      as (Hr & _ & Hl & _).
    split.
    + apply Hr. right. exists (JInt 5).
      split; [vm_compute; reflexivity |]. split; [reflexivity |].
      vm_compute. reflexivity.
    + apply (Hl (JInt 5)); [vm_compute; reflexivity | reflexivity].
Defined.

(** ** Texts put together *)

Lemma split_on_app sep (a b : str) :
  split_on sep (a ++ sep :: b) = split_on sep a ++ split_on sep b.
Proof.
  induction a as [| c a IH]; cbn [app].
  - rewrite split_on_cons, N.eqb_refl. reflexivity.
  - rewrite !split_on_cons. destruct (c =? sep); [now rewrite IH |].
    rewrite IH. pose proof (split_on_not_nil sep a) as Hne.
    now destruct (split_on sep a).
Qed.

Section CompaniesCompose.

Variable lower : str -> str.

Lemma company_step_acc companies current raw :
  company_step lower (companies, current) raw
  = (companies ++ (company_step lower ([], current) raw).1,
     (company_step lower ([], current) raw).2).
Proof.
  unfold company_step. destruct (strip raw) as [| c line].
  - destruct (dict_truthy current); cbn [fst snd]; now rewrite ?app_nil_r.
  - repeat match goal with
           | |- context [if ?b then _ else _] => destruct b
           end; cbn [fst snd]; now rewrite ?app_nil_r.
Qed.

Lemma company_loop_acc lines : forall companies current,
  company_loop lower (companies, current) lines
  = (companies ++ (company_loop lower ([], current) lines).1,
     (company_loop lower ([], current) lines).2).
Proof.
  unfold company_loop.
  induction lines as [| raw lines IH]; intros companies current.
  - cbn. now rewrite app_nil_r.
  - cbn [fold_left]. rewrite company_step_acc.
    destruct (company_step lower ([], current) raw) as [cs cur].
    cbn [fst snd]. rewrite IH, (IH cs cur). cbn [fst snd].
    now rewrite app_assoc.
Qed.

(** X22: a blank line between two texts keeps their companies apart: the
    companies of the joined text are those of the first text followed by
    those of the second, whatever the two texts hold. *)
Theorem extract_companies_blank_line_joins (first second : str) :
  extract_companies_from_text lower (first ++ [NL; NL] ++ second)
  = extract_companies_from_text lower first
    ++ extract_companies_from_text lower second.
Proof.
  unfold extract_companies_from_text. cbn [app].
  rewrite split_on_app, split_on_cons, N.eqb_refl.
  unfold company_loop at 1. rewrite fold_left_app. cbn [fold_left].
  fold (company_loop lower ([], ∅) (split_on NL first)).
  destruct (company_loop lower ([], ∅) (split_on NL first)) as [cs cur].
  assert (company_step lower (cs, cur) []
          = (company_finish (cs, cur), ∅)) as ->.
  { unfold company_step, company_finish. cbn [strip strip_by rstrip_by lstrip_by
                                               drop_while rev].
    destruct (dict_truthy cur) eqn:Hc; [reflexivity |].
    f_equal. destruct (decide (cur = ∅)) as [-> | Hne]; [reflexivity |].
    apply dict_truthy_true in Hne. congruence. }
  fold (company_loop lower (company_finish (cs, cur), ∅) (split_on NL second)).
  rewrite company_loop_acc.
  destruct (company_loop lower ([], ∅) (split_on NL second)) as [cs' cur'].
  cbn [fst snd]. unfold company_finish.
  destruct (dict_truthy cur'); now rewrite ?app_assoc.
Qed.

End CompaniesCompose.

(** X23: the fallback reads a text line by line: the insights of two
    texts joined by a line break are those of the first followed by those
    of the second. *)
Theorem fallback_insights_line_break_joins (first second : str) :
  fallback_insights (first ++ [NL] ++ second)
  = fallback_insights first ++ fallback_insights second.
Proof.
  unfold fallback_insights. cbn [app].
  now rewrite split_on_app, !map_app, List.filter_app, map_app.
Qed.
